(** * Binance ticker feed: message handling, subscription payload, symbol rotation

    A shallow embedding of [socket-multiple.py] and
    [socket-multiple-console-ui.py].  Both files define a class
    [BinanceSocket] whose methods [get_pairs_payload], [handle_message] and
    [toggle_symbol] are identical; they differ in [fetch_ticker_data] (the
    LED-matrix program retries in a loop, the console program exits) and in
    the presentation method.

    Python values are modelled as follows.
    - [str] is a [string] holding the UTF-8 bytes of the text; every
      character the code inspects is ASCII, so byte-wise scanning agrees
      with scanning by code point.  Frames are text frames.
    - The result of [json.loads] is a [json] tree; a JSON object is the list
      of its members in insertion order, with one entry per key.  A number
      with a fraction or an exponent is the nearest binary64 [float], an
      integer is exact up to the 4300 digits [int] converts.
    - A [Decimal] is a finite number, an infinity or a NaN, built from a
      text, an integer, a [float] or a sequence as the [decimal] module
      builds it.
    - Exceptions are values of [exn]; a computation either returns, raises,
      or leaves the fragment of the interpreter modelled here ([NoModel],
      [Unmodelled]).  Left out are: arrays and objects nested more than
      100 deep; a [float] as a key of the store or as an argument of
      [str]; texts with non-ASCII characters where the code changes case
      or reads a number; numerals of more than [10^8] digits or with an
      exponent beyond [10^8]; integers of [2^31] and more inside the
      sequence form of [Decimal], whose treatment depends on the platform.
    - The instance is a record threaded through the methods; what a method
      does to the outside (log lines, socket traffic, pauses, output) is
      appended to its field [effects].

    The panel driver, the fonts, the Tk window and the text [millify]
    renders are outside the model, and so is the scheduling of the two
    timers: the calls they make are steps on the instance. *)

From Stdlib Require Import ZArith NArith String Ascii List Bool Lia.
From Stdlib Require Import DecimalString DecimalN DecimalPos DecimalFacts.
From stdpp Require Import gmap strings list fin_maps.

Set Warnings "-register-all".
Local Open Scope string_scope.

(** ** Exceptions and results *)

Inductive exn : Type :=
| JSONDecodeError
| KeyError (key : string)
| TypeError
| ValueError
| InvalidOperation
| OverflowError
| StopIteration
| ConnectionClosed
| TimeoutError
| InvalidURI
| OSError
| ImportError
| KeyboardInterrupt
| SystemExit (status : Z).

Inductive pyres (A : Type) : Type :=
| Val (a : A)
| Exc (e : exn)
| NoModel.
Arguments Val {A} a.
Arguments Exc {A} e.
Arguments NoModel {A}.

#[global] Instance pyres_ret : MRet pyres := fun A a => Val a.
#[global] Instance pyres_bind : MBind pyres := fun A B f m =>
  match m with
  | Val a => f a
  | Exc e => Exc e
  | NoModel => NoModel
  end.

(** ** Strings *)

Definition dquote : ascii := "034"%char.
Definition backslash : ascii := "092"%char.

(** [qq] writes a text with apostrophes where the JSON text has double
    quotes, so that messages can be written inline. *)
Fixpoint qq (s : string) : string :=
  match s with
  | EmptyString => EmptyString
  | String c r => String (if (c =? "'")%char then dquote else c) (qq r)
  end.

(** [s.replace(c, '')] for a one-character [c]. *)
Fixpoint str_remove (c : ascii) (s : string) : string :=
  match s with
  | EmptyString => EmptyString
  | String a r => if (a =? c)%char then str_remove c r else String a (str_remove c r)
  end.

Definition is_ascii (c : ascii) : bool := (N_of_ascii c <? 128)%N.
Definition is_lower (c : ascii) : bool := (97 <=? N_of_ascii c)%N && (N_of_ascii c <=? 122)%N.
Definition is_digit (c : ascii) : bool := (48 <=? N_of_ascii c)%N && (N_of_ascii c <=? 57)%N.

Definition upper_char (c : ascii) : ascii :=
  if is_lower c then ascii_of_N (N_of_ascii c - 32) else c.

Fixpoint str_forall (p : ascii -> bool) (s : string) : bool :=
  match s with
  | EmptyString => true
  | String c r => p c && str_forall p r
  end.

(** [s.upper()]: ASCII letters only; a text with other bytes is outside the
    model. *)
Fixpoint str_map (f : ascii -> ascii) (s : string) : string :=
  match s with
  | EmptyString => EmptyString
  | String c r => String (f c) (str_map f r)
  end.

Definition upper (s : string) : pyres string :=
  if str_forall is_ascii s then Val (str_map upper_char s) else NoModel.

(** [s.split(sep)] for a one-character separator. *)
Fixpoint split (sep : ascii) (s : string) : list string :=
  match s with
  | EmptyString => [EmptyString]
  | String c r =>
      if (c =? sep)%char then EmptyString :: split sep r
      else match split sep r with
           | x :: xs => String c x :: xs
           | [] => [String c EmptyString]
           end
  end.

(** [sep.join(l)]. *)
Fixpoint join (sep : string) (l : list string) : string :=
  match l with
  | [] => EmptyString
  | [x] => x
  | x :: xs => x +:+ sep +:+ join sep xs
  end.

Fixpoint strip_prefix (p s : string) : option string :=
  match p, s with
  | EmptyString, _ => Some s
  | String a p', String b s' => if (a =? b)%char then strip_prefix p' s' else None
  | String _ _, EmptyString => None
  end.

(** [needle in hay] on two [str]. *)
Fixpoint str_contains (needle hay : string) : bool :=
  match strip_prefix needle hay with
  | Some _ => true
  | None => match hay with
            | EmptyString => false
            | String _ r => str_contains needle r
            end
  end.

(** ** Binary floating point *)

(** A [float]: the finite number [(-1)^sign * m * 2^e], an infinity or a
    NaN.  A finite number is held as the format holds it: [m < 2^53] and
    [-1074 <= e <= 971], with [2^52 <= m] unless [e = -1074]. *)
Inductive float : Type :=
| FFinite (sign : bool) (m : N) (e : Z)
| FInf (sign : bool)
| FNaN.

(** The [float] nearest to [m * 10^e], a tie going to the even
    significand; what is beyond the largest [float] becomes an infinity.
    This is [float(text)] for a decimal numeral.  The second and third
    tests settle without arithmetic the numerals that are out of range
    whatever their digits: [10^401] is above every [float], and
    [m * 10^e < 2^(log2 m + 1 + 3 e)] for a negative [e], which rounds to
    zero once it is at most [2^-1075]. *)
Definition nearest_float (sign : bool) (m : N) (e : Z) : float :=
  if (m =? 0)%N then FFinite sign 0 (-1074)
  else if (400 <? e)%Z then FInf sign
  else if (e <? 0)%Z && (Z.of_N (N.log2 m) + 1 + 3 * e <=? -1075)%Z then FFinite sign 0 (-1074)
  else
    let num := if (0 <=? e)%Z then (m * 10 ^ Z.to_N e)%N else m in
    let den := if (0 <=? e)%Z then 1%N else (10 ^ Z.to_N (- e))%N in
    (* whether [2^k <= num / den] *)
    let reaches (k : Z) :=
      if (0 <=? k)%Z then (den * 2 ^ Z.to_N k <=? num)%N
      else (den <=? num * 2 ^ Z.to_N (- k))%N in
    let l := (Z.of_N (N.log2 num) - Z.of_N (N.log2 den))%Z in
    let log2 := if reaches l then l else (l - 1)%Z in
    let k := Z.max (log2 - 52) (-1074) in
    let n := if (0 <=? k)%Z then num else (num * 2 ^ Z.to_N (- k))%N in
    let d := if (0 <=? k)%Z then (den * 2 ^ Z.to_N k)%N else den in
    let q := (n / d)%N in
    let r := (n mod d)%N in
    let up := ((d <? 2 * r) || (2 * r =? d) && N.odd q)%N in
    let q := if up then (q + 1)%N else q in
    let '(q, k) := if (q =? 2 ^ 53)%N then ((2 ^ 52)%N, (k + 1)%Z) else (q, k) in
    if (971 <? k)%Z then FInf sign else FFinite sign q k.

(** ** JSON values, as [json.loads] builds them *)

Inductive json : Type :=
| JNull
| JBool (b : bool)
| JInt (n : Z)
| JFloat (f : float)
| JString (s : string)
| JArray (items : list json)
| JObject (members : list (string * json)).

(** [d[k] = v] on the dictionary under construction: an existing key keeps
    its place and takes the new value. *)
Fixpoint dict_set (k : string) (v : json) (d : list (string * json)) : list (string * json) :=
  match d with
  | [] => [(k, v)]
  | (k', v') :: d' => if String.eqb k' k then (k', v) :: d' else (k', v') :: dict_set k v d'
  end.

Fixpoint dict_get (k : string) (d : list (string * json)) : option json :=
  match d with
  | [] => None
  | (k', v) :: d' => if String.eqb k' k then Some v else dict_get k d'
  end.

(** *** The decoder of the [json] module *)

Definition is_ws (c : ascii) : bool :=
  (c =? " ")%char || (c =? "009")%char || (c =? "010")%char || (c =? "013")%char.

Fixpoint skip_ws (s : string) : string :=
  match s with
  | String c r => if is_ws c then skip_ws r else s
  | EmptyString => s
  end.

Definition hex_digit (c : ascii) : option N :=
  let n := N_of_ascii c in
  if is_digit c then Some (n - 48)%N
  else if (97 <=? n)%N && (n <=? 102)%N then Some (n - 87)%N
  else if (65 <=? n)%N && (n <=? 70)%N then Some (n - 55)%N
  else None.

Definition hex4 (a b c d : ascii) : option N :=
  match hex_digit a, hex_digit b, hex_digit c, hex_digit d with
  | Some x, Some y, Some z, Some w => Some (((x * 16 + y) * 16 + z) * 16 + w)%N
  | _, _, _, _ => None
  end.

(** The UTF-8 bytes of a code point (a lone surrogate takes the three-byte
    form, which keeps the encoding injective). *)
Definition utf8 (cp : N) (tail : string) : string :=
  let byte n := ascii_of_N n in
  (if cp <? 128 then String (byte cp) tail
   else if cp <? 2048 then
     String (byte (192 + cp / 64)) (String (byte (128 + cp mod 64)) tail)
   else if cp <? 65536 then
     String (byte (224 + cp / 4096))
       (String (byte (128 + (cp / 64) mod 64)) (String (byte (128 + cp mod 64)) tail))
   else
     String (byte (240 + cp / 262144))
       (String (byte (128 + (cp / 4096) mod 64))
          (String (byte (128 + (cp / 64) mod 64)) (String (byte (128 + cp mod 64)) tail))))%N.

Definition unescape (c : ascii) : option ascii :=
  if (c =? dquote)%char then Some dquote
  else if (c =? backslash)%char then Some backslash
  else if (c =? "/")%char then Some "/"%char
  else if (c =? "b")%char then Some "008"%char
  else if (c =? "f")%char then Some "012"%char
  else if (c =? "n")%char then Some "010"%char
  else if (c =? "r")%char then Some "013"%char
  else if (c =? "t")%char then Some "009"%char
  else None.

Definition is_high_surrogate (cp : N) : bool := (55296 <=? cp)%N && (cp <=? 56319)%N.
Definition is_low_surrogate (cp : N) : bool := (56320 <=? cp)%N && (cp <=? 57343)%N.

(** [scanstring], strict mode, called just after the opening quote: the
    decoded text and the input after the closing quote. *)
Fixpoint scanstring (s : string) : pyres (string * string) :=
  match s with
  | EmptyString => Exc JSONDecodeError
  | String c rest =>
      if (c =? dquote)%char then Val (EmptyString, rest)
      else if (c =? backslash)%char then
        match rest with
        | EmptyString => Exc JSONDecodeError
        | String e rest1 =>
            if (e =? "u")%char then
              match rest1 with
              | String h1 (String h2 (String h3 (String h4 rest2))) =>
                  match hex4 h1 h2 h3 h4 with
                  | None => Exc JSONDecodeError
                  | Some cp =>
                      match rest2 with
                      | String b (String u (String l1 (String l2 (String l3 (String l4 rest3))))) =>
                          if is_high_surrogate cp && (b =? backslash)%char && (u =? "u")%char then
                            match hex4 l1 l2 l3 l4 with
                            | None => Exc JSONDecodeError
                            | Some lo =>
                                if is_low_surrogate lo then
                                  '(str, r) ← scanstring rest3;
                                  Val (utf8 (65536 + (cp - 55296) * 1024 + (lo - 56320)) str, r)
                                else
                                  '(str, r) ← scanstring rest2;
                                  Val (utf8 cp str, r)
                            end
                          else
                            '(str, r) ← scanstring rest2;
                            Val (utf8 cp str, r)
                      | _ =>
                          '(str, r) ← scanstring rest2;
                          Val (utf8 cp str, r)
                      end
                  end
              | _ => Exc JSONDecodeError
              end
            else
              match unescape e with
              | Some ch => '(str, r) ← scanstring rest1; Val (String ch str, r)
              | None => Exc JSONDecodeError
              end
        end
      else if (N_of_ascii c <? 32)%N then Exc JSONDecodeError
      else '(str, r) ← scanstring rest; Val (String c str, r)
  end.

Fixpoint span (p : ascii -> bool) (s : string) : string * string :=
  match s with
  | String c r =>
      if p c then let '(a, b) := span p r in (String c a, b) else (EmptyString, s)
  | EmptyString => (EmptyString, EmptyString)
  end.

(** The three groups of [NUMBER_RE]: an integer part (an optional minus
    sign, then either a single zero or a nonzero digit followed by digits),
    an optional fraction (a point and at least one digit) and an optional
    exponent (e or E, an optional sign, at least one digit). *)
Definition match_integer (s : string) : option (string * string) :=
  let '(sign, s1) :=
    match s with
    | String c r => if (c =? "-")%char then ("-", r) else (EmptyString, s)
    | EmptyString => (EmptyString, s)
    end in
  match s1 with
  | String c r =>
      if (c =? "0")%char then Some (sign +:+ "0", r)
      else if is_digit c then
        let '(ds, r') := span is_digit r in Some (sign +:+ String c ds, r')
      else None
  | EmptyString => None
  end.

Definition match_frac (s : string) : option (string * string) :=
  match s with
  | String c r =>
      if (c =? ".")%char then
        match span is_digit r with
        | (EmptyString, _) => None
        | (ds, r') => Some (String "." ds, r')
        end
      else None
  | EmptyString => None
  end.

Definition match_exp (s : string) : option (string * string) :=
  match s with
  | String e r =>
      if (e =? "e")%char || (e =? "E")%char then
        let '(sg, r1) :=
          match r with
          | String c r' =>
              if (c =? "+")%char || (c =? "-")%char then (String c EmptyString, r')
              else (EmptyString, r)
          | EmptyString => (EmptyString, r)
          end in
        match span is_digit r1 with
        | (EmptyString, _) => None
        | (ds, r2) => Some (String e (sg +:+ ds), r2)
        end
      else None
  | EmptyString => None
  end.

Fixpoint digits_to_N (acc : N) (s : string) : N :=
  match s with
  | String c r => digits_to_N (acc * 10 + (N_of_ascii c - 48)) r
  | EmptyString => acc
  end.

(** [int(text)] for a text matched by the first group of [NUMBER_RE]. *)
Definition int_of_text (s : string) : Z :=
  match s with
  | String c r =>
      if (c =? "-")%char then (- Z.of_N (digits_to_N 0 r))%Z else Z.of_N (digits_to_N 0 s)
  | EmptyString => 0%Z
  end.

(** [int(text)] raises [ValueError] for a text of more digits than
    [sys.int_max_str_digits], 4300 unless the interpreter is told
    otherwise; the sign does not count.  The limit is part of every
    interpreter that runs the two files: the f-string of
    [get_pairs_payload] reuses its own quote, which is accepted from
    Python 3.12 on. *)
Definition int_max_str_digits : N := 4300.

(** The value of the third group of [NUMBER_RE]. *)
Definition exponent_of (exp : string) : Z :=
  match exp with
  | String _ (String c r) =>
      if (c =? "-")%char then (- Z.of_N (digits_to_N 0 r))%Z
      else if (c =? "+")%char then Z.of_N (digits_to_N 0 r)
      else Z.of_N (digits_to_N 0 (String c r))
  | _ => 0%Z
  end.

(** [float(integer + frac + exp)] for the three groups of [NUMBER_RE]. *)
Definition float_of_literal (integer frac exp : string) : float :=
  let '(sign, int_digits) :=
    match integer with
    | String c r => if (c =? "-")%char then (true, r) else (false, integer)
    | EmptyString => (false, integer)
    end in
  let frac_digits := match frac with String _ ds => ds | EmptyString => EmptyString end in
  nearest_float sign (digits_to_N 0 (int_digits +:+ frac_digits))
    (exponent_of exp - Z.of_nat (String.length frac_digits)).

(** Arrays and objects nested deeper than this are left out of the model:
    the interpreter decodes them up to a depth that depends on its version
    and on the stack in use (several hundred levels at least), and raises
    [RecursionError] beyond. *)
Definition max_depth : nat := 100.

Definition scan_number (s : string) : option (pyres (json * string)) :=
  match match_integer s with
  | None => None
  | Some (integer, r) =>
      let '(frac, r1) :=
        match match_frac r with Some (f, r') => (f, r') | None => (EmptyString, r) end in
      let '(exp, r2) :=
        match match_exp r1 with Some (e, r') => (e, r') | None => (EmptyString, r1) end in
      match frac, exp with
      | EmptyString, EmptyString =>
          if (int_max_str_digits <? N.of_nat (String.length (str_remove "-" integer)))%N
          then Some (Exc ValueError)
          else Some (Val (JInt (int_of_text integer), r2))
      | _, _ => Some (Val (JFloat (float_of_literal integer frac exp), r2))
      end
  end.

(** The scalar cases of [scan_once], in the order the scanner tries them. *)
Definition scan_scalar (s : string) : pyres (json * string) :=
  match strip_prefix "null" s with
  | Some r => Val (JNull, r)
  | None =>
  match strip_prefix "true" s with
  | Some r => Val (JBool true, r)
  | None =>
  match strip_prefix "false" s with
  | Some r => Val (JBool false, r)
  | None =>
  match scan_number s with
  | Some res => res
  | None =>
  match strip_prefix "NaN" s with
  | Some r => Val (JFloat FNaN, r)
  | None =>
  match strip_prefix "Infinity" s with
  | Some r => Val (JFloat (FInf false), r)
  | None =>
  match strip_prefix "-Infinity" s with
  | Some r => Val (JFloat (FInf true), r)
  | None => Exc JSONDecodeError
  end end end end end end end.

(** [scan_once], [JSONObject] and [JSONArray].  The calls run on [fuel];
    [json_loads] supplies more than twice the length of the input, which
    no run exhausts: [scan_once] consumes a character before it calls
    one of the loops, and a loop calls [scan_once] or itself on what is
    left ([json_loads_leaves_the_model_by_depth_only]). *)
Fixpoint scan_once (fuel depth : nat) (s : string) {struct fuel} : pyres (json * string) :=
  match fuel with
  | O => NoModel
  | S fuel =>
      match s with
      | EmptyString => Exc JSONDecodeError
      | String c rest =>
          if (c =? dquote)%char then
            '(str, r) ← scanstring rest; Val (JString str, r)
          else if (c =? "{")%char then
            match depth with
            | O => NoModel
            | S depth =>
                match skip_ws rest with
                | String c' r =>
                    if (c' =? "}")%char then Val (JObject [], r)
                    else if (c' =? dquote)%char then JSONObject fuel depth r []
                    else Exc JSONDecodeError
                | EmptyString => Exc JSONDecodeError
                end
            end
          else if (c =? "[")%char then
            match depth with
            | O => NoModel
            | S depth =>
                match skip_ws rest with
                | String c' r =>
                    if (c' =? "]")%char then Val (JArray [], r)
                    else JSONArray fuel depth (String c' r) []
                | EmptyString => Exc JSONDecodeError
                end
            end
          else scan_scalar s
      end
  end
with JSONObject (fuel depth : nat) (s : string) (pairs : list (string * json))
    {struct fuel} : pyres (json * string) :=
  match fuel with
  | O => NoModel
  | S fuel =>
      '(key, r) ← scanstring s;
      match skip_ws r with
      | String colon r1 =>
          if (colon =? ":")%char then
            '(value, r2) ← scan_once fuel depth (skip_ws r1);
            let pairs := dict_set key value pairs in
            match skip_ws r2 with
            | String c r3 =>
                if (c =? "}")%char then Val (JObject pairs, r3)
                else if (c =? ",")%char then
                  match skip_ws r3 with
                  | String c' r4 =>
                      if (c' =? dquote)%char then JSONObject fuel depth r4 pairs
                      else Exc JSONDecodeError
                  | EmptyString => Exc JSONDecodeError
                  end
                else Exc JSONDecodeError
            | EmptyString => Exc JSONDecodeError
            end
          else Exc JSONDecodeError
      | EmptyString => Exc JSONDecodeError
      end
  end
with JSONArray (fuel depth : nat) (s : string) (values : list json)
    {struct fuel} : pyres (json * string) :=
  match fuel with
  | O => NoModel
  | S fuel =>
      '(value, r) ← scan_once fuel depth s;
      let values := (values ++ [value])%list in
      match skip_ws r with
      | String c r1 =>
          if (c =? "]")%char then Val (JArray values, r1)
          else if (c =? ",")%char then JSONArray fuel depth (skip_ws r1) values
          else Exc JSONDecodeError
      | EmptyString => Exc JSONDecodeError
      end
  end.

Definition utf8_bom : string :=
  String (ascii_of_N 239) (String (ascii_of_N 187) (String (ascii_of_N 191) EmptyString)).

(** [json.loads(s)] for a [str] argument. *)
Definition json_loads (s : string) : pyres json :=
  match strip_prefix utf8_bom s with
  | Some _ => Exc JSONDecodeError
  | None =>
      '(obj, r) ← scan_once (S (2 * String.length s)) max_depth (skip_ws s);
      match skip_ws r with
      | EmptyString => Val obj
      | String _ _ => Exc JSONDecodeError
      end
  end.

(** ** The [decimal] module: construction from a text and fixed-point formatting *)

(** What a [Decimal] is: a finite number, an infinity, a quiet or a
    signaling NaN (the [_exp] of the last three is [F], [n], [N]). *)
Inductive special : Type :=
| DFinite
| DInf
| DQNaN
| DSNaN.

(** A [Decimal]: the finite number [(-1)^d_sign * d_int * 10^d_exp], or a
    special value with its sign; the [d_int] of a NaN is its payload. *)
Record decimal : Type := { d_sign : bool; d_int : N; d_exp : Z; d_special : special }.

(** Characters [str.strip()] removes, among the ASCII ones. *)
Definition is_space (c : ascii) : bool :=
  let n := N_of_ascii c in
  ((9 <=? n) && (n <=? 13) || (28 <=? n) && (n <=? 32))%N.

Fixpoint lstrip (s : string) : string :=
  match s with
  | String c r => if is_space c then lstrip r else s
  | EmptyString => s
  end.

Fixpoint rstrip (s : string) : string :=
  match s with
  | EmptyString => EmptyString
  | String c r =>
      match rstrip r with
      | EmptyString => if is_space c then EmptyString else String c EmptyString
      | r' => String c r'
      end
  end.

Definition strip (s : string) : string := rstrip (lstrip s).

(** The exponent part of a numeral, up to the end of the text. *)
Definition decimal_exp (s : string) : option Z :=
  match s with
  | EmptyString => Some 0%Z
  | String e r =>
      if (e =? "e")%char || (e =? "E")%char then
        let '(neg, r1) :=
          match r with
          | String c r' =>
              if (c =? "-")%char then (true, r')
              else if (c =? "+")%char then (false, r')
              else (false, r)
          | EmptyString => (false, r)
          end in
        match span is_digit r1 with
        | (String c ds, EmptyString) =>
            let n := Z.of_N (digits_to_N 0 (String c ds)) in
            Some (if neg then (- n)%Z else n)
        | _ => None
        end
      else None
  end.

(** Sizes beyond which the arbitrary-precision library may refuse a
    numeral; such numerals are left out of the model. *)
Definition decimal_limit : N := 100000000.

Definition to_lower (c : ascii) : ascii :=
  let n := N_of_ascii c in
  if ((65 <=? n) && (n <=? 90))%N then ascii_of_N (n + 32) else c.

(** The special values, spelt in any letter case: [inf], [infinity], and
    [nan] or [snan] followed by the digits of a payload. *)
Definition special_of_text (sign : bool) (s : string) : option decimal :=
  let t := str_map to_lower s in
  let nan (kind : special) (payload : string) :=
    if str_forall is_digit payload then
      Some {| d_sign := sign; d_int := digits_to_N 0 payload; d_exp := 0; d_special := kind |}
    else None in
  if String.eqb t "inf" || String.eqb t "infinity" then
    Some {| d_sign := sign; d_int := 0; d_exp := 0; d_special := DInf |}
  else
    match strip_prefix "nan" t with
    | Some payload => nan DQNaN payload
    | None =>
        match strip_prefix "snan" t with
        | Some payload => nan DSNaN payload
        | None => None
        end
    end.

(** [Decimal(value)] for a [str]: surrounding whitespace and underscores are
    dropped, then the text must be a sign followed by digits with at most
    one point and an optional exponent, or by a special value.  The
    conversion is exact. *)
Definition Decimal_of_str (value : string) : pyres decimal :=
  if negb (str_forall is_ascii value) then NoModel
  else
    let s := str_remove "_" (strip value) in
    if (decimal_limit <? N.of_nat (String.length s))%N then NoModel
    else
      let '(sign, s1) :=
        match s with
        | String c r =>
            if (c =? "-")%char then (true, r)
            else if (c =? "+")%char then (false, r)
            else (false, s)
        | EmptyString => (false, s)
        end in
      let '(intpart, s2) := span is_digit s1 in
      let '(fracpart, s3) :=
        match s2 with
        | String c r => if (c =? ".")%char then span is_digit r else (EmptyString, s2)
        | EmptyString => (EmptyString, s2)
        end in
      match intpart +:+ fracpart with
      | EmptyString =>
          match special_of_text sign s1 with
          | Some d => Val d
          | None => Exc InvalidOperation
          end
      | digits =>
          match decimal_exp s3 with
          | None => Exc InvalidOperation
          | Some e =>
              if (Z.of_N decimal_limit <? Z.abs e)%Z then NoModel
              else Val {| d_sign := sign;
                          d_int := digits_to_N 0 digits;
                          d_exp := e - Z.of_nat (String.length fracpart);
                          d_special := DFinite |}
          end
      end.

Definition Decimal_of_int (n : Z) : decimal :=
  {| d_sign := (n <? 0)%Z; d_int := Z.abs_N n; d_exp := 0; d_special := DFinite |}.

(** The odd part of [m * 2^e] for a negative [e]: [as_integer_ratio] gives
    the fraction in lowest terms. *)
Fixpoint lowest_terms (fuel : nat) (m : N) (e : Z) : N * Z :=
  match fuel with
  | O => (m, e)
  | S fuel =>
      if (e <? 0)%Z && N.even m && negb (m =? 0)%N then lowest_terms fuel (N.div2 m) (e + 1)%Z
      else (m, e)
  end.

(** [Decimal(value)] for a [float]: the exact value, [n * 5^k * 10^-k] for
    the fraction [n / 2^k] in lowest terms. *)
Definition Decimal_of_float (f : float) : decimal :=
  match f with
  | FFinite sign m e =>
      let '(n, e) := lowest_terms 53 m e in
      if (n =? 0)%N then {| d_sign := sign; d_int := 0; d_exp := 0; d_special := DFinite |}
      else if (0 <=? e)%Z then
        {| d_sign := sign; d_int := n * 2 ^ Z.to_N e; d_exp := 0; d_special := DFinite |}
      else
        {| d_sign := sign; d_int := n * 5 ^ Z.to_N (- e); d_exp := e; d_special := DFinite |}
  | FInf sign => {| d_sign := sign; d_int := 0; d_exp := 0; d_special := DInf |}
  | FNaN => {| d_sign := false; d_int := 0; d_exp := 0; d_special := DQNaN |}
  end.

(** An [int] (or a [bool], which is one) met where the library wants a C
    [long]: below [2^31] in magnitude every platform holds it; beyond,
    the outcome depends on the platform.  [None]: not an [int]. *)
Definition small_int (value : json) : option (pyres Z) :=
  match value with
  | JInt n => Some (if (Z.abs n <? 2 ^ 31)%Z then Val n else NoModel)
  | JBool b => Some (Val (if b then 1 else 0)%Z)
  | _ => None
  end.

(** The digits of a coefficient, each an [int] from 0 to 9. *)
Fixpoint coefficient (digits : list json) (acc : N) : pyres N :=
  match digits with
  | [] => Val acc
  | digit :: digits =>
      match small_int digit with
      | None => Exc ValueError
      | Some r =>
          n ← r;
          if ((0 <=? n) && (n <=? 9))%Z then coefficient digits (acc * 10 + Z.to_N n)
          else Exc ValueError
      end
  end.

(** [Decimal(value)] for a [list]: a sign (0 or 1), the digits of the
    coefficient and an exponent, or one of [F], [n], [N] for a special
    value; the library checks the sign, then the third item, then the
    digits. *)
Definition Decimal_of_sequence (value : list json) : pyres decimal :=
  match value with
  | [sign; digits; exponent] =>
      sign ←
        match small_int sign with
        | None => Exc ValueError
        | Some r =>
            n ← r;
            if (n =? 0)%Z then Val false else if (n =? 1)%Z then Val true else Exc ValueError
        end;
      '(kind, e) ←
        match exponent with
        | JString t =>
            if String.eqb t "F" then Val (DInf, 0%Z)
            else if String.eqb t "n" then Val (DQNaN, 0%Z)
            else if String.eqb t "N" then Val (DSNaN, 0%Z)
            else Exc ValueError
        | _ =>
            match small_int exponent with
            | None => Exc ValueError
            | Some r =>
                e ← r;
                if (Z.of_N decimal_limit <? Z.abs e)%Z then NoModel else Val (DFinite, e)
            end
        end;
      match digits with
      | JArray digits =>
          c ← coefficient digits 0;
          if (decimal_limit <? N.of_nat (length digits))%N then NoModel
          else
            Val {| d_sign := sign;
                   d_int := match kind with DInf => 0%N | _ => c end;
                   d_exp := e; d_special := kind |}
      | _ => Exc ValueError
      end
  | _ => Exc ValueError
  end.

(** [Decimal(value)] for a value decoded from JSON. *)
Definition Decimal (value : json) : pyres decimal :=
  match value with
  | JString s => Decimal_of_str s
  | JInt n => Val (Decimal_of_int n)
  | JBool b => Val (Decimal_of_int (if b then 1 else 0))
  | JFloat f => Val (Decimal_of_float f)
  | JArray items => Decimal_of_sequence items
  | JNull | JObject _ => Exc TypeError
  end.

(** [_rescale(exp, ROUND_HALF_EVEN)]: the number at exponent [exp], padded
    with zeros or rounded to the nearest multiple of [10^exp], a tie going to
    the even coefficient. *)
Definition rescale (d : decimal) (exp : Z) : decimal :=
  if (exp <=? d_exp d)%Z then
    {| d_sign := d_sign d; d_int := d_int d * 10 ^ Z.to_N (d_exp d - exp); d_exp := exp;
       d_special := d_special d |}
  else
    let unit := (10 ^ Z.to_N (exp - d_exp d))%N in
    let q := (d_int d / unit)%N in
    let r := (d_int d mod unit)%N in
    let up := ((unit <? 2 * r) || (2 * r =? unit) && N.odd q)%N in
    {| d_sign := d_sign d; d_int := if up then (q + 1)%N else q; d_exp := exp;
       d_special := d_special d |}.

Definition str_of_N (n : N) : string := NilZero.string_of_uint (N.to_uint n).

Definition digit_char (n : N) : ascii := ascii_of_N (48 + n).

(** [n] written with exactly four digits, for [n < 10000]. *)
Definition four_digits (n : N) : string :=
  (String (digit_char (n / 1000)) (String (digit_char ((n / 100) mod 10))
     (String (digit_char ((n / 10) mod 10)) (String (digit_char (n mod 10)) EmptyString))))%N.

(** [format(d, '.4f')] under the default context.  A finite number is
    rounded to four places, half to even, and written with a minus sign if
    negative (zero included) and at least one digit before the point; a
    special value is written as [str] writes it, a NaN with its payload
    unless that is zero. *)
Definition format_4f (d : decimal) : string :=
  let sign := if d_sign d then "-" else EmptyString in
  let payload := if (d_int d =? 0)%N then EmptyString else str_of_N (d_int d) in
  match d_special d with
  | DFinite =>
      let c := d_int (rescale d (-4)) in
      sign +:+ str_of_N (c / 10000) +:+ "." +:+ four_digits (c mod 10000)
  | DInf => sign +:+ "Infinity"
  | DQNaN => sign +:+ "NaN" +:+ payload
  | DSNaN => sign +:+ "sNaN" +:+ payload
  end.

(** ** The instance state *)

(** Keys of the dictionary [self.data].  Equal numbers are one key whatever
    their type, so [True] and [1] share [KInt 1]. *)
Inductive pykey : Type :=
| KStr (s : string)
| KInt (n : Z)
| KNone.

#[global] Instance pykey_eq_dec : EqDecision pykey.
Proof. solve_decision. Defined.

#[global] Instance pykey_countable : Countable pykey.
Proof.
  refine (inj_countable'
            (fun k => match k with
                      | KStr s => inl s
                      | KInt n => inr (inl n)
                      | KNone => inr (inr tt)
                      end)
            (fun x => match x with
                      | inl s => KStr s
                      | inr (inl n) => KInt n
                      | inr (inr _) => KNone
                      end) _).
  intros []; reflexivity.
Defined.

(** [hash(value)] as a dictionary key.  A [float] is left out: equal to
    an integer it would share that integer's key, and a NaN, which equals
    nothing, makes a new entry at each assignment. *)
Definition hash_key (value : json) : pyres pykey :=
  match value with
  | JString s => Val (KStr s)
  | JInt n => Val (KInt n)
  | JBool b => Val (KInt (if b then 1 else 0))
  | JNull => Val KNone
  | JFloat _ => NoModel
  | JArray _ | JObject _ => Exc TypeError
  end.

(** The dictionary stored per symbol, with its five keys. *)
Record snapshot : Type := {
  change : string;
  price : json;
  vol : json;
  symbol : json;
  quote : json
}.

(** [itertools.cycle]: the live iterator over the list (the items it has
    yet to yield), the items saved so far, and the index into them. *)
Record cycle : Type := {
  it : option (list string);
  saved : list string;
  index : nat
}.

(** What the process does to the outside, in order. *)
Inductive effect : Type :=
| LogInfo (text : string)
| LogError (text : string) (e : exn) (rest : string)
| Connect (url : string)
| Send (payload : string)
| Sleep (seconds : Z)
| Stdout (text : string)
| CreateFrameCanvas
| CanvasClear
| Draw (label : string) (shown : snapshot) (volume : string * json)
| CanvasDelete
| CreateText (x y : Z) (text : string)
| RootUpdate
| RootDestroy.

(** The attributes of an instance.  [canvas] tells whether the
    LED-matrix program has created its frame canvas ([self.canvas] is
    [None] until then); the Tk canvas of the console program belongs to
    the window. *)
Record BinanceSocket : Type := {
  symbols : list string;
  refresh : Z;
  data : gmap pykey snapshot;
  ctr : Z;
  cycle_symbols : cycle;
  current_symbol : string;
  use_ui : bool;
  canvas : bool;
  effects : list effect
}.

Definition set_data (d : gmap pykey snapshot) (self : BinanceSocket) : BinanceSocket :=
  {| symbols := symbols self; refresh := refresh self; data := d; ctr := ctr self;
     cycle_symbols := cycle_symbols self; current_symbol := current_symbol self;
     use_ui := use_ui self; canvas := canvas self; effects := effects self |}.

Definition set_ctr (n : Z) (self : BinanceSocket) : BinanceSocket :=
  {| symbols := symbols self; refresh := refresh self; data := data self; ctr := n;
     cycle_symbols := cycle_symbols self; current_symbol := current_symbol self;
     use_ui := use_ui self; canvas := canvas self; effects := effects self |}.

Definition set_cycle_symbols (c : cycle) (self : BinanceSocket) : BinanceSocket :=
  {| symbols := symbols self; refresh := refresh self; data := data self; ctr := ctr self;
     cycle_symbols := c; current_symbol := current_symbol self;
     use_ui := use_ui self; canvas := canvas self; effects := effects self |}.

Definition set_current_symbol (s : string) (self : BinanceSocket) : BinanceSocket :=
  {| symbols := symbols self; refresh := refresh self; data := data self; ctr := ctr self;
     cycle_symbols := cycle_symbols self; current_symbol := s;
     use_ui := use_ui self; canvas := canvas self; effects := effects self |}.

Definition set_canvas (c : bool) (self : BinanceSocket) : BinanceSocket :=
  {| symbols := symbols self; refresh := refresh self; data := data self; ctr := ctr self;
     cycle_symbols := cycle_symbols self; current_symbol := current_symbol self;
     use_ui := use_ui self; canvas := c; effects := effects self |}.

Definition emit (e : effect) (self : BinanceSocket) : BinanceSocket :=
  {| symbols := symbols self; refresh := refresh self; data := data self; ctr := ctr self;
     cycle_symbols := cycle_symbols self; current_symbol := current_symbol self;
     use_ui := use_ui self; canvas := canvas self; effects := effects self ++ [e] |}.

(** ** Methods as state transformers that may raise *)

Inductive result (A : Type) : Type :=
| Returns (a : A) (self : BinanceSocket)
| Raises (e : exn) (self : BinanceSocket)
| Unmodelled.
Arguments Returns {A} a self.
Arguments Raises {A} e self.
Arguments Unmodelled {A}.

Definition M (A : Type) : Type := BinanceSocket -> result A.

#[global] Instance M_ret : MRet M := fun A a self => Returns a self.
#[global] Instance M_bind : MBind M := fun A B f m self =>
  match m self with
  | Returns a self' => f a self'
  | Raises e self' => Raises e self'
  | Unmodelled => Unmodelled
  end.

Definition lift {A : Type} (r : pyres A) : M A := fun self =>
  match r with
  | Val a => Returns a self
  | Exc e => Raises e self
  | NoModel => Unmodelled
  end.

Definition raise {A : Type} (e : exn) : M A := fun self => Raises e self.
Definition get : M BinanceSocket := fun self => Returns self self.
Definition modify (f : BinanceSocket -> BinanceSocket) : M unit := fun self => Returns tt (f self).

(** [try: body except ...: handler]; [handler e] is [None] when no clause
    matches [e]. *)
Definition try_except {A : Type} (body : M A) (handler : exn -> option (M A)) : M A :=
  fun self =>
    match body self with
    | Raises e self' =>
        match handler e with
        | Some h => h self'
        | None => Raises e self'
        end
    | r => r
    end.

(** ** [get_pairs_payload] *)

Definition payload_head : string := Eval cbv in qq "{'method': 'SUBSCRIBE', 'params': [".
Definition payload_tail : string := Eval cbv in qq "], 'id': 1}".

Definition get_pairs_payload (self : BinanceSocket) : string :=
  let symbols :=
    map (fun symbol => String dquote (str_remove "-" symbol) +:+ "@ticker" +:+ String dquote EmptyString)
        (symbols self) in
  let str_symbols := join "," symbols in
  payload_head +:+ str_symbols +:+ payload_tail.

(** ** [handle_message] *)

(** ['id' in data]. *)
Definition contains_id (data : json) : pyres bool :=
  match data with
  | JObject members => Val (bool_decide (is_Some (dict_get "id" members)))
  | JArray items =>
      Val (existsb (fun x => match x with JString s => String.eqb s "id" | _ => false end) items)
  | JString s => Val (str_contains "id" s)
  | JNull | JBool _ | JInt _ | JFloat _ => Exc TypeError
  end.

(** [data[key]] for a [str] key. *)
Definition getitem (data : json) (key : string) : pyres json :=
  match data with
  | JObject members =>
      match dict_get key members with
      | Some v => Val v
      | None => Exc (KeyError key)
      end
  | _ => Exc TypeError
  end.

(** [self.data[key] = value]. *)
Definition data_setitem (key : pykey) (value : snapshot) : M unit :=
  modify (fun self => set_data (<[key := value]> (data self)) self).

Definition handle_message (message : string) : M unit :=
  try_except
    (data ← lift (json_loads message);
     has_id ← lift (contains_id data);
     if negb has_id then
       P ← lift (getitem data "P");
       d ← lift (Decimal P);
       c ← lift (getitem data "c");
       v ← lift (getitem data "v");
       s ← lift (getitem data "s");
       q ← lift (getitem data "q");
       let value := {| change := format_4f d; price := c; vol := v; symbol := s; quote := q |} in
       s' ← lift (getitem data "s");
       key ← lift (hash_key s');
       data_setitem key value
     else mret tt)
    (fun e =>
       match e with
       | JSONDecodeError => Some (modify (emit (LogError "Error decoding message: " e EmptyString)))
       | _ => None
       end).

(** ** Construction and rotation *)

(** [next(c)] on an [itertools.cycle] object. *)
Definition cycle_next (c : cycle) : pyres (string * cycle) :=
  match it c with
  | Some (item :: rest) =>
      Val (item, {| it := Some rest; saved := saved c ++ [item]; index := index c |})
  | _ =>
      match saved c !! index c with
      | None => Exc StopIteration
      | Some item =>
          let i := S (index c) in
          Val (item, {| it := None; saved := saved c;
                        index := if (length (saved c) <=? i)%nat then 0%nat else i |})
      end
  end.

(** The part of [__init__] the two files share.  [SYMBOLS] is the value of
    the environment variable (empty when unset); [TOGGLE_RATE] is the
    integer [int(os.getenv('TOGGLE_RATE', 3))] evaluates to, [None] when
    that call raises [ValueError]. *)
Definition init (SYMBOLS : string) (TOGGLE_RATE : option Z) (ui : bool) : pyres BinanceSocket :=
  let symbols := split "," SYMBOLS in
  if bool_decide (symbols = []) || bool_decide (symbols = [EmptyString]) then Exc ValueError
  else
    match TOGGLE_RATE with
    | None => Exc ValueError
    | Some refresh =>
        if (refresh <=? 0)%Z then Exc ValueError
        else
          '(first, c) ← cycle_next {| it := Some symbols; saved := []; index := 0 |};
          Val {| symbols := symbols; refresh := refresh; data := ∅; ctr := 0;
                 cycle_symbols := c; current_symbol := first;
                 use_ui := ui; canvas := false; effects := [] |}
    end.

Definition toggle_symbol : M unit :=
  self ← get;
  '(next, c) ← lift (cycle_next (cycle_symbols self));
  modify (set_cycle_symbols c);;
  modify (set_current_symbol next);;
  modify (set_ctr 0);;
  modify (emit (LogInfo ("Switched to symbol: " +:+ next))).

(** [symbol.replace('-', '').upper()], the key both presentation methods
    look up. *)
Definition lookup_key (symbol : string) : pyres pykey :=
  key ← upper (str_remove "-" symbol); Val (KStr key).

(** [str(value)] inside an f-string. *)
Definition py_str (value : json) : pyres string :=
  match value with
  | JString s => Val s
  | JInt n => Val ((if (n <? 0)%Z then "-" else EmptyString) +:+ str_of_N (Z.abs_N n))
  | JBool b => Val (if b then "True" else "False")
  | JNull => Val "None"
  | JFloat _ | JArray _ | JObject _ => NoModel
  end.

(** A text of digits with an optional sign and an optional point followed
    by digits. *)
Definition plain_numeral (s : string) : bool :=
  let s1 :=
    match s with
    | String c r => if (c =? "-")%char || (c =? "+")%char then r else s
    | EmptyString => s
    end in
  let '(intpart, s2) := span is_digit s1 in
  match intpart, s2 with
  | String _ _, EmptyString => true
  | String _ _, String c r =>
      (c =? ".")%char &&
      match span is_digit r with
      | (String _ _, EmptyString) => true
      | _ => false
      end
  | EmptyString, _ => false
  end.

(** Underscores in a numeral: each one has a digit before it and a digit
    after it. *)
Fixpoint underscores_ok (after_digit : bool) (s : string) : bool :=
  match s with
  | EmptyString => true
  | String c r =>
      if (c =? "_")%char then
        after_digit && match r with String d _ => is_digit d | EmptyString => false end
        && underscores_ok false r
      else underscores_ok (is_digit c) r
  end.

(** The whitespace [float] removes around an ASCII text: the characters
    of the C locale. *)
Definition is_c_space (c : ascii) : bool :=
  let n := N_of_ascii c in
  ((9 <=? n) && (n <=? 13) || (n =? 32))%N.

Fixpoint lstrip_c (s : string) : string :=
  match s with
  | String c r => if is_c_space c then lstrip_c r else s
  | EmptyString => s
  end.

Fixpoint rstrip_c (s : string) : string :=
  match s with
  | EmptyString => EmptyString
  | String c r =>
      match rstrip_c r with
      | EmptyString => if is_c_space c then EmptyString else String c EmptyString
      | r' => String c r'
      end
  end.

(** The texts [float] accepts: surrounding whitespace apart, a sign, then
    either [inf], [infinity] or [nan] in any letter case, or digits with
    at most one point and at least one digit, and an optional exponent. *)
Definition float_syntax (s : string) : bool :=
  let s := rstrip_c (lstrip_c s) in
  underscores_ok false s &&
  let s := str_remove "_" s in
  let s1 :=
    match s with
    | String c r => if (c =? "-")%char || (c =? "+")%char then r else s
    | EmptyString => s
    end in
  let t := str_map to_lower s1 in
  if String.eqb t "inf" || String.eqb t "infinity" || String.eqb t "nan" then true
  else
    let '(intpart, s2) := span is_digit s1 in
    let '(fracpart, s3) :=
      match s2 with
      | String c r => if (c =? ".")%char then span is_digit r else (EmptyString, s2)
      | EmptyString => (EmptyString, s2)
      end in
    match intpart +:+ fracpart, decimal_exp s3 with
    | String _ _, Some _ => true
    | _, _ => false
    end.

(** [float(value)], as far as whether it raises: a [str] must be a
    numeral, an [int] must not round to an infinity. *)
Definition float_converts (value : json) : pyres unit :=
  match value with
  | JString s =>
      if negb (str_forall is_ascii s) then NoModel
      else if float_syntax s then Val tt else Exc ValueError
  | JInt n => if (2 ^ 1024 - 2 ^ 970 <=? Z.abs n)%Z then Exc OverflowError else Val tt
  | JBool _ | JFloat _ => Val tt
  | JNull | JArray _ | JObject _ => Exc TypeError
  end.

(** [millify(value, ...)] is modelled only as far as returning for a plain
    numeral of at most 30 characters: the library converts it to a
    [float], scales it by a power of 1000 no larger than [10^9], formats
    the quotient with three places and reads the result as a [Decimal],
    whose 28 significant digits a longer numeral may exceed. *)
Definition millify_accepts (value : json) : pyres unit :=
  match value with
  | JString s => if plain_numeral s && (String.length s <=? 30)%nat then Val tt else NoModel
  | _ => NoModel
  end.

(** ** The network, as the program meets it *)

(** One connection attempt: whether [websockets.connect] or [send] raise,
    the frames received, and how the iteration over the socket ends ([None]
    when the iterator is exhausted without an exception, as after a normal
    closure). *)
Record session : Type := {
  connect_error : option exn;
  send_error : option exn;
  frames : list string;
  close : option exn
}.

(** Where [fetch_ticker_data] stands once the described attempts are over:
    waiting for [websockets.connect] to answer, or returned. *)
Inductive pending : Type :=
| AwaitingConnection
| Done.

Definition url_of (self : BinanceSocket) : string :=
  "wss://stream.binance.com:9443/ws/" +:+ str_remove "-" (current_symbol self) +:+ "@ticker".

Definition raise_if (e : option exn) : M unit :=
  match e with
  | Some e => raise e
  | None => mret tt
  end.

(** [for x in l: body x]. *)
Fixpoint for_each {A : Type} (l : list A) (body : A -> M unit) : M unit :=
  match l with
  | [] => mret tt
  | x :: l' => body x;; for_each l' body
  end.

(** How [run] ends, if it does: still in the loop, returned, exited with a
    status, or left by an exception nothing catches. *)
Inductive process : Type :=
| Running
| Returned
| Exited (status : Z)
| Traceback (e : exn)
| OutOfModel.

(** ** The LED-matrix program, [socket-multiple.py] *)

Module Matrix.

(** [__init__]: the base class [Frame] and the fonts belong to the panel
    driver. *)
Definition init (SYMBOLS : string) (TOGGLE_RATE : option Z) : pyres BinanceSocket :=
  init SYMBOLS TOGGLE_RATE false.

(** The label and the figure handed to [millify]; its rendering belongs
    to that library.  [self.ctr >= self.refresh / 2] is an exact
    comparison as long as the quotient is a float without rounding. *)
Definition get_volume_text (d : snapshot) : M (string * json) :=
  self ← get;
  if (2 ^ 53 <? refresh self)%Z then lift NoModel
  else
    let vol_txt :=
      if (refresh self <=? 2 * ctr self)%Z then ("B:", vol d) else ("Q:", quote d) in
    lift (millify_accepts (snd vol_txt));;
    (if (ctr self =? refresh self)%Z then modify (set_ctr 0) else mret tt);;
    modify (fun self => set_ctr (ctr self + 1) self);;
    mret vol_txt.

(** The canvas is created at the first call that has something to show
    and cleared at each of them.  Drawing goes to the panel driver; the
    model records one [Draw] with the three letters of the label, the
    snapshot and the volume figure. *)
Definition render_ticker_canvas (symbol : string) : M unit :=
  key ← lift (lookup_key symbol);
  self ← get;
  match data self !! key with
  | None => mret tt
  | Some d =>
      (if negb (canvas self)
       then modify (emit CreateFrameCanvas);; modify (set_canvas true)
       else mret tt);;
      modify (emit CanvasClear);;
      lift (float_converts (JString (change d)));;
      lift (float_converts (price d));;
      vol_txt ← get_volume_text d;
      label ← lift (upper (String.substring 0 3 symbol));
      modify (emit (Draw label d vol_txt))
  end.

Definition run_ticker : M unit :=
  self ← get; render_ticker_canvas (current_symbol self).

(** The body of the [try] in [fetch_ticker_data], after [connect] was
    called. *)
Definition attempt (s : session) : M unit :=
  raise_if (connect_error s);;
  self ← get;
  let pairs_payload := get_pairs_payload self in
  modify (emit (LogInfo ("Subscribing with payload: " +:+ pairs_payload)));;
  modify (emit (Send pairs_payload));;
  raise_if (send_error s);;
  for_each (frames s) handle_message;;
  raise_if (close s).

(** The [while True] loop, run against the attempts of [script]; it
    stops, still looping, at the connection the script does not
    describe. *)
Fixpoint fetch_ticker_data (script : list session) : M pending :=
  self ← get;
  modify (emit (Connect (url_of self)));;
  match script with
  | [] => mret AwaitingConnection
  | s :: script' =>
      try_except (attempt s)
        (fun e =>
           match e with
           | ConnectionClosed | TimeoutError =>
               Some (modify (emit (LogError "WebSocket connection error: " e
                                     ". Retrying in 5 seconds..."));;
                     modify (emit (Sleep 5)))
           | _ => None
           end);;
      fetch_ticker_data script'
  end.

(** [run], the timers apart: the loop until the script ends, an uncaught
    exception or an interrupt. *)
Definition run (script : list session) (self : BinanceSocket) : process * BinanceSocket :=
  match fetch_ticker_data script self with
  | Returns _ self' => (Running, self')
  | Raises KeyboardInterrupt self' => (Returned, emit (LogInfo "Shutting down...") self')
  | Raises (SystemExit n) self' => (Exited n, self')
  | Raises e self' => (Traceback e, self')
  | Unmodelled => (OutOfModel, self)
  end.

End Matrix.

(** ** The console program, [socket-multiple-console-ui.py] *)

Module Console.

Definition clear_console : M unit :=
  modify (emit (Stdout (String (ascii_of_N 27) "[H" +:+ String (ascii_of_N 27) "[J"))).

Definition newline : string := String (ascii_of_N 10) EmptyString.

(** [__init__]: the shared part, then the check for Tkinter and the
    choice of the display ([setup_ui] creates the window). *)
Definition init (SYMBOLS : string) (TOGGLE_RATE : option Z) (ui tk : bool)
    : pyres BinanceSocket :=
  self ← init SYMBOLS TOGGLE_RATE ui;
  if ui && negb tk then Exc ImportError
  else if ui then Val self
  else
    match clear_console self with
    | Returns _ self' => Val self'
    | Raises e _ => Exc e
    | Unmodelled => NoModel
    end.

Definition update_console : M unit :=
  self ← get;
  key ← lift (lookup_key (current_symbol self));
  match data self !! key with
  | None => mret tt
  | Some d =>
      clear_console;;
      sym ← lift (py_str (symbol d));
      modify (emit (Stdout ("Symbol: " +:+ sym +:+ newline)));;
      p ← lift (py_str (price d));
      modify (emit (Stdout ("Price: " +:+ p +:+ newline)));;
      modify (emit (Stdout ("Change: " +:+ change d +:+ "%" +:+ newline)));;
      v ← lift (py_str (vol d));
      modify (emit (Stdout ("Volume: " +:+ v +:+ newline)))
  end.

Definition update_ui : M unit :=
  self ← get;
  key ← lift (lookup_key (current_symbol self));
  match data self !! key with
  | None => mret tt
  | Some d =>
      modify (emit CanvasDelete);;
      sym ← lift (py_str (symbol d));
      modify (emit (CreateText 200 50 ("Symbol: " +:+ sym)));;
      p ← lift (py_str (price d));
      modify (emit (CreateText 200 80 ("Price: " +:+ p)));;
      modify (emit (CreateText 200 110 ("Change: " +:+ change d +:+ "%")));;
      v ← lift (py_str (vol d));
      modify (emit (CreateText 200 140 ("Volume: " +:+ v)));;
      modify (emit RootUpdate)
  end.

Definition run_ticker : M unit :=
  self ← get;
  if negb (use_ui self) then update_console else mret tt.

(** The body of the loop over the socket. *)
Definition receive (message : string) : M unit :=
  handle_message message;;
  self ← get;
  if use_ui self then update_ui else update_console.

Definition attempt (s : session) : M unit :=
  raise_if (connect_error s);;
  self ← get;
  let pairs_payload := get_pairs_payload self in
  modify (emit (LogInfo ("Subscribing with payload: " +:+ pairs_payload)));;
  modify (emit (Send pairs_payload));;
  raise_if (send_error s);;
  for_each (frames s) receive;;
  raise_if (close s).

(** One attempt, no loop: the first session of [script] is the only one
    the method can meet. *)
Definition fetch_ticker_data (script : list session) : M pending :=
  self ← get;
  modify (emit (Connect (url_of self)));;
  match script with
  | [] => mret AwaitingConnection
  | s :: _ =>
      try_except (attempt s)
        (fun e =>
           match e with
           | ConnectionClosed | TimeoutError | InvalidURI | OSError =>
               Some (modify (emit (LogError "WebSocket connection error: " e
                                     ". Unable to connect. Exiting..."));;
                     raise (SystemExit 1))
           | _ => None
           end);;
      mret Done
  end.

(** The [finally] clause of [run]. *)
Definition destroy_window (self : BinanceSocket) : BinanceSocket :=
  if use_ui self then emit RootDestroy self else self.

(** [run], the timers apart. *)
Definition run (script : list session) (self : BinanceSocket) : process * BinanceSocket :=
  match fetch_ticker_data script self with
  | Returns AwaitingConnection self' => (Running, self')
  | Returns Done self' => (Returned, destroy_window self')
  | Raises KeyboardInterrupt self' =>
      (Returned, destroy_window (emit (LogInfo "Shutting down...") self'))
  | Raises (SystemExit n) self' => (Exited n, destroy_window self')
  | Raises e self' => (Traceback e, destroy_window self')
  | Unmodelled => (OutOfModel, self)
  end.

End Console.


(** * Vocabulary of the properties *)

(** ** Frames and instances used in the examples *)

Definition ticker_frame : string :=
  Eval cbv in qq "{'s':'BTCUSDT','c':'50000.00','P':'1.2345','v':'10','q':'500000'}".
Definition ack_frame : string := Eval cbv in qq "{'id':1,'result':null}".
Definition incomplete_frame : string :=
  Eval cbv in qq "{'s':'BTCUSDT','c':'50000.00','v':'10','q':'500000'}".
Definition truncated_frame : string := Eval cbv in qq "{'s':'BTCUSDT','c':".

(** [c * n]. *)
Fixpoint replicate_char (n : nat) (c : ascii) : string :=
  match n with
  | O => EmptyString
  | S n => String c (replicate_char n c)
  end.

(** An array that is not closed, its first item an integer of 4301 digits,
    one more than [int] converts. *)
Definition oversized_frame : string := String "[" (replicate_char 4301 "1").
(** A ticker frame whose price and change are JSON numbers. *)
Definition float_frame : string :=
  Eval cbv in
    qq "{'s':'BTCUSDT','c':50000.123456789012345678,'P':0.000150000000000000000001,'v':'10','q':'500000'}".
Definition lowercase_frame : string :=
  Eval cbv in qq "{'s':'btc-usdt','c':'50000.00','P':'1.2345','v':'10','q':'500000'}".

(** The instance [__init__] builds for [SYMBOLS=BTC-USDT,ETH-USDT] and
    [TOGGLE_RATE=2]. *)
Definition example_socket : BinanceSocket :=
  {| symbols := ["BTC-USDT"; "ETH-USDT"]; refresh := 2; data := ∅; ctr := 0;
     cycle_symbols := {| it := Some ["ETH-USDT"]; saved := ["BTC-USDT"]; index := 0 |};
     current_symbol := "BTC-USDT"; use_ui := false; canvas := false; effects := [] |}.

(** [example_socket] after the ticker frame arrived and the rotation timer
    fired once. *)
Definition later_socket : BinanceSocket :=
  match (handle_message ticker_frame;; toggle_symbol) example_socket with
  | Returns _ self => self
  | _ => example_socket
  end.

(** A session that connects, receives [fs] and ends with [ending]. *)
Definition one_session (fs : list string) (ending : option exn) : session :=
  {| connect_error := None; send_error := None; frames := fs; close := ending |}.

(** A session whose connection attempt raises [e]. *)
Definition refused (e : exn) : session :=
  {| connect_error := Some e; send_error := None; frames := []; close := None |}.

(** ** Message handling *)

Definition decode_error_logged (self : BinanceSocket) : BinanceSocket :=
  emit (LogError "Error decoding message: " JSONDecodeError EmptyString) self.

(** [snap] is the dictionary [handle_message] builds from the members of a
    frame: all five entries, each from its field. *)
Definition snapshot_of (members : list (string * json)) (snap : snapshot) : Prop :=
  exists P d,
    dict_get "P" members = Some P /\ Decimal P = Val d /\ change snap = format_4f d /\
    dict_get "c" members = Some (price snap) /\
    dict_get "v" members = Some (vol snap) /\
    dict_get "s" members = Some (symbol snap) /\
    dict_get "q" members = Some (quote snap).

(** ** Keys *)

(** No lower-case letter and no hyphen. *)
Definition normalized (k : string) : bool :=
  str_forall (fun c => negb (is_lower c) && negb (c =? "-")%char) k.

Definition keys_normalized (d : gmap pykey snapshot) : Prop :=
  forall key snap, d !! key = Some snap -> exists k, key = KStr k /\ normalized k = true.

(** ** Decimal digits and rounding *)

(** The number a sequence of decimal digits denotes, after [acc]. *)
Fixpoint uint_value (acc : N) (u : Decimal.uint) : N :=
  match u with
  | Decimal.Nil => acc
  | Decimal.D0 u => uint_value (acc * 10) u
  | Decimal.D1 u => uint_value (acc * 10 + 1) u
  | Decimal.D2 u => uint_value (acc * 10 + 2) u
  | Decimal.D3 u => uint_value (acc * 10 + 3) u
  | Decimal.D4 u => uint_value (acc * 10 + 4) u
  | Decimal.D5 u => uint_value (acc * 10 + 5) u
  | Decimal.D6 u => uint_value (acc * 10 + 6) u
  | Decimal.D7 u => uint_value (acc * 10 + 7) u
  | Decimal.D8 u => uint_value (acc * 10 + 8) u
  | Decimal.D9 u => uint_value (acc * 10 + 9) u
  end.

(** [r] ten-thousandths is a nearest multiple of [10^-4] to the magnitude
    of [d], and the even one of the two when [d] lies half-way.  Both are
    compared as integers, in units of the smaller of the two exponents. *)
Definition nearest_four_places (d : decimal) (r : N) : Prop :=
  let m := Z.min (d_exp d) (-4) in
  let x := (Z.of_N (d_int d) * 10 ^ (d_exp d - m))%Z in
  let y := (Z.of_N r * 10 ^ (-4 - m))%Z in
  (2 * Z.abs (y - x) <= 10 ^ (-4 - m))%Z /\
  (2 * Z.abs (y - x) = 10 ^ (-4 - m) -> Z.even (Z.of_N r) = true)%Z.

(** Whether two finite decimals are the same number. *)
Definition same_number (a b : decimal) : bool :=
  let m := Z.min (d_exp a) (d_exp b) in
  let x := (Z.of_N (d_int a) * 10 ^ (d_exp a - m))%Z in
  let y := (Z.of_N (d_int b) * 10 ^ (d_exp b - m))%Z in
  (x =? y)%Z && ((x =? 0)%Z || Bool.eqb (d_sign a) (d_sign b)).

(** The JSON values [json.loads] hands over as they were written: a string
    and an integer. *)
Definition text_or_integer (v : json) : bool :=
  match v with
  | JString _ | JInt _ => true
  | _ => false
  end.

(** ** Calls on the instance *)

(** Whatever [m] does, the instance it leaves is [R]-related to the one it
    found. *)
Definition preserves (R : BinanceSocket -> BinanceSocket -> Prop) {A : Type} (m : M A) : Prop :=
  forall self,
    match m self with
    | Returns _ self' | Raises _ self' => R self self'
    | Unmodelled => True
    end.

Definition same_rotation (a b : BinanceSocket) : Prop :=
  symbols b = symbols a /\ cycle_symbols b = cycle_symbols a /\
  current_symbol b = current_symbol a.

(** The calls the timers and the receive loops make on the instance. *)
Inductive call : Type :=
| Toggle
| Handle (message : string)
| MatrixTicker
| ConsoleTicker
| ConsoleUpdateUI.

Definition invoke (c : call) : M unit :=
  match c with
  | Toggle => toggle_symbol
  | Handle message => handle_message message
  | MatrixTicker => Matrix.run_ticker
  | ConsoleTicker => Console.run_ticker
  | ConsoleUpdateUI => Console.update_ui
  end.

(** One call, whether it returns or raises. *)
Definition step (self self' : BinanceSocket) : Prop :=
  exists c,
    match invoke c self with
    | Returns _ s | Raises _ s => s = self'
    | Unmodelled => False
    end.

Definition reachable : BinanceSocket -> BinanceSocket -> Prop := rtc step.

(** ** Rotation *)

(** [toggle_symbol] called [n] times. *)
Fixpoint ticks (n : nat) : M unit :=
  match n with
  | O => mret tt
  | S n => toggle_symbol;; ticks n
  end.

(** The symbols that become current over [n] calls of [toggle_symbol]. *)
Fixpoint tour (n : nat) (self : BinanceSocket) : list string :=
  match n with
  | O => []
  | S n =>
      match toggle_symbol self with
      | Returns _ self' => current_symbol self' :: tour n self'
      | _ => []
      end
  end.

(** The current symbol is the one at position [j] of the list and the
    iterator is about to yield position [j + 1], either still on its first
    pass over the list or replaying the saved copy. *)
Definition rotation_at (self : BinanceSocket) (j : nat) : Prop :=
  let l := symbols self in
  let c := cycle_symbols self in
  l !! j = Some (current_symbol self) /\
  ((it c = Some (drop (S j) l) /\ saved c = take (S j) l /\ index c = 0) \/
   (it c = None /\ saved c = l /\ index c = S j mod length l)).

(** ** Connection failures *)

(** Effects other than those of the retry policy: anything but a
    connection, a pause, or the log line of a connection error. *)
Definition silent (e : effect) : bool :=
  match e with
  | Connect _ | Sleep _ => false
  | LogError _ JSONDecodeError _ => true
  | LogError _ _ _ => false
  | _ => true
  end.

(** [b] has the effects of [a] followed by silent ones. *)
Definition extends (a b : BinanceSocket) : Prop :=
  exists t, effects b = (effects a ++ t)%list /\ forallb silent t = true.

(** The frame is handled without an exception, whatever the instance. *)
Definition runs (body : string -> M unit) (message : string) : Prop :=
  forall self, exists self', body message self = Returns tt self'.

(** How a session fails with [e]: at [connect], at [send], or at the end of
    the frames, all of them handled. *)
Definition dropped (body : string -> M unit) (s : session) (e : exn) : Prop :=
  connect_error s = Some e \/
  (connect_error s = None /\ send_error s = Some e) \/
  (connect_error s = None /\ send_error s = None /\
   Forall (runs body) (frames s) /\ close s = Some e).

(** The exceptions the loop of the LED-matrix program catches, and those
    the console program turns into an exit. *)
Definition retried (e : exn) : bool :=
  match e with
  | ConnectionClosed | TimeoutError => true
  | _ => false
  end.

Definition fatal (e : exn) : bool :=
  match e with
  | ConnectionClosed | TimeoutError | InvalidURI | OSError => true
  | _ => false
  end.

Definition retry_log (e : exn) : effect :=
  LogError "WebSocket connection error: " e ". Retrying in 5 seconds...".
Definition exit_log (e : exn) : effect :=
  LogError "WebSocket connection error: " e ". Unable to connect. Exiting...".

(** The effects of [n] failed attempts, each followed by the log line, a
    pause of five seconds and the next connection. *)
Inductive retry_trace : nat -> list effect -> Prop :=
| retry_awaiting url : retry_trace 0 [Connect url]
| retry_again n url mid e tl :
    forallb silent mid = true -> retried e = true -> retry_trace n tl ->
    retry_trace (S n) (Connect url :: mid ++ retry_log e :: Sleep 5 :: tl)%list.

(** The shape the two [attempt]s share, over the body of the loop. *)
Definition attempt_with (body : string -> M unit) (s : session) : M unit :=
  raise_if (connect_error s);;
  self ← get;
  let pairs_payload := get_pairs_payload self in
  modify (emit (LogInfo ("Subscribing with payload: " +:+ pairs_payload)));;
  modify (emit (Send pairs_payload));;
  raise_if (send_error s);;
  for_each (frames s) body;;
  raise_if (close s).

(** The specification's reading of the retry policy, for either program:
    whatever connection failures the sessions end with, [run] is still in
    its loop. *)
Definition never_exits (run : list session -> BinanceSocket -> process * BinanceSocket)
    (body : string -> M unit) : Prop :=
  forall script self,
    Forall (fun s => exists e, fatal e = true /\ dropped body s e) script ->
    fst (run script self) = Running.

Definition has_sleep (t : list effect) : bool :=
  existsb (fun e => match e with Sleep _ => true | _ => false end) t.

(** ** The subscription payload *)

(** Characters that stand for themselves inside a JSON string. *)
Definition plain_char (c : ascii) : bool :=
  negb (c =? dquote)%char && negb (c =? backslash)%char && (32 <=? N_of_ascii c)%N.

Definition json_safe (s : string) : bool := str_forall plain_char s.

(** One element of the [params] array, as it reads and as it is written. *)
Definition stream (symbol : string) : string := str_remove "-" symbol +:+ "@ticker".
Definition quoted (s : string) : string := String dquote (s +:+ String dquote EmptyString).

Definition no_hyphen (s : string) : bool := str_forall (fun c => negb (c =? "-")%char) s.

Definition lower_char (c : ascii) : ascii :=
  let n := N_of_ascii c in
  if ((65 <=? n) && (n <=? 90))%N then ascii_of_N (n + 32) else c.

(** The message in the words of the specification: every symbol
    lower-cased, its separators stripped. *)
Definition spec_subscribe_message (syms : list string) (id : Z) : json :=
  JObject [("method", JString "SUBSCRIBE");
           ("params",
            JArray (map (fun s => JString (str_map lower_char (str_remove "-" s) +:+ "@ticker"))
                        syms));
           ("id", JInt id)].

(** * Vocabulary of the further properties *)

(** ** Construction *)

Fixpoint str_count (c : ascii) (s : string) : nat :=
  match s with
  | EmptyString => 0
  | String a r => (if (a =? c)%char then 1 else 0) + str_count c r
  end.

(** ** What the decoder leaves unread *)

(** [r] is what is left of [s] after some characters were read. *)
Inductive rest_of : string -> string -> Prop :=
| rest_all s : rest_of s s
| rest_next c r s : rest_of r s -> rest_of r (String c s).

(** The number of opening brackets and braces in a text, a bound on the
    depth to which it nests arrays and objects. *)
Definition openings (s : string) : nat := str_count "[" s + str_count "{" s.

(** A scanner that returns has read at least one character, and it stays
    in the model. *)
Definition reads {A : Type} (s : string) (res : pyres (A * string)) : Prop :=
  match res with
  | Val (_, r) => rest_of r s /\ String.length r < String.length s
  | Exc _ => True
  | NoModel => False
  end.

(** The same for a scanner that may be outside the model, at a text that
    opens more than [depth] arrays and objects. *)
Definition within (depth : nat) (s : string) (res : pyres (json * string)) : Prop :=
  match res with
  | Val (_, r) => rest_of r s /\ String.length r < String.length s
  | Exc _ => True
  | NoModel => depth < openings s
  end.

(** The instance [__init__] leaves for the symbols [first :: rest]. *)
Definition fresh_instance (first : string) (rest : list string) (rate : Z) (ui : bool)
    : BinanceSocket :=
  {| symbols := first :: rest; refresh := rate; data := ∅; ctr := 0;
     cycle_symbols := {| it := Some rest; saved := [first]; index := 0 |};
     current_symbol := first; use_ui := ui; canvas := false; effects := [] |}.

(** ** Frames and instances of the further examples *)

Definition ticker_fields : list string := ["P"; "c"; "v"; "s"; "q"].

Definition eth_frame : string :=
  Eval cbv in qq "{'s':'ETHUSDT','c':'3000.10','P':'-0.5','v':'7','q':'21000'}".

(** The snapshots [handle_message] builds from [ticker_frame] and from
    [eth_frame]. *)
Definition btc_snapshot : snapshot :=
  {| change := "1.2345"; price := JString "50000.00"; vol := JString "10";
     symbol := JString "BTCUSDT"; quote := JString "500000" |}.

Definition eth_snapshot : snapshot :=
  {| change := "-0.5000"; price := JString "3000.10"; vol := JString "7";
     symbol := JString "ETHUSDT"; quote := JString "21000" |}.

(** A ticker frame whose price is [null], and the snapshot built from
    it. *)
Definition null_price_frame : string :=
  Eval cbv in qq "{'s':'BTCUSDT','c':null,'P':'1.2345','v':'10','q':'500000'}".


(** The instance after the calls [cs], made one after the other. *)
Definition state_after (cs : list call) (self : BinanceSocket) : BinanceSocket :=
  match for_each cs invoke self with
  | Returns _ self' => self'
  | _ => self
  end.

(** [example_socket] once the ticker frame is stored, and later, after a
    refresh of the panel, a tick of the rotation, a truncated frame and a
    frame for the second symbol. *)
Definition stored_socket : BinanceSocket :=
  state_after [Handle ticker_frame] example_socket.

Definition busy_socket : BinanceSocket :=
  state_after [MatrixTicker; Toggle; Handle truncated_frame; Handle eth_frame] stored_socket.

(** ** What the calls leave alone *)

(** What no method changes once [__init__] has returned. *)
Definition same_configuration (a b : BinanceSocket) : Prop :=
  symbols b = symbols a /\ refresh b = refresh a /\ use_ui b = use_ui a.

(** No key of the store is lost. *)
Definition keeps_keys (a b : BinanceSocket) : Prop :=
  forall k, is_Some (data a !! k) -> is_Some (data b !! k).

Definition counter_in_range (self : BinanceSocket) : Prop :=
  (0 < refresh self)%Z /\ (0 <= ctr self <= refresh self)%Z.

Definition keeps_counter_in_range (a b : BinanceSocket) : Prop :=
  refresh b = refresh a /\ (counter_in_range a -> counter_in_range b).

(** What the presentation methods leave alone. *)
Definition only_presents (a b : BinanceSocket) : Prop :=
  data b = data a /\ symbols b = symbols a /\ refresh b = refresh a /\
  cycle_symbols b = cycle_symbols a /\ current_symbol b = current_symbol a /\
  use_ui b = use_ui a.

Definition only_writes_output (a b : BinanceSocket) : Prop :=
  only_presents a b /\ ctr b = ctr a.

(** ** Presentation *)

(** The sign prefix and the colour [render_ticker_canvas] computes from
    the stored change, for the change text and the price. *)
Module Render.

(** [data['change'].startswith('-')]. *)
Definition startswith_minus (s : string) : bool :=
  match s with
  | String c _ => (c =? "-")%char
  | EmptyString => false
  end.

Definition prefix (data : snapshot) : string :=
  if startswith_minus (change data) then EmptyString else "+".

(** The arguments of [graphics.Color]. *)
Definition change_color (data : snapshot) : Z * Z * Z :=
  if startswith_minus (change data) then (220, 47, 2)%Z else (0, 255, 0)%Z.

End Render.

(** A ticker frame whose change is negative and rounds to zero, and the
    snapshot built from it. *)
Definition small_loss_frame : string :=
  Eval cbv in qq "{'s':'BTCUSDT','c':'50000.00','P':'-0.00001','v':'10','q':'500000'}".

Definition small_loss_snapshot : snapshot :=
  {| change := "-0.0000"; price := JString "50000.00"; vol := JString "10";
     symbol := JString "BTCUSDT"; quote := JString "500000" |}.

(** The label [get_volume_text] chooses when the counter is [c]. *)
Definition volume_label (rate c : Z) : string :=
  if (rate <=? 2 * c)%Z then "B:" else "Q:".

(** The labels of [n] consecutive calls of [get_volume_text]. *)
Fixpoint volume_labels (n : nat) (d : snapshot) (self : BinanceSocket) : list string :=
  match n with
  | O => []
  | S n =>
      match Matrix.get_volume_text d self with
      | Returns vol_txt self' => fst vol_txt :: volume_labels n d self'
      | _ => []
      end
  end.

(** An ASCII character that is neither whitespace nor an underscore. *)
Definition solid_char (c : ascii) : bool :=
  is_ascii c && negb (is_space c) && negb (c =? "_")%char.

(** A ticker frame whose change is a signaling NaN, which [Decimal]
    accepts and [float] refuses. *)
Definition snan_frame : string :=
  Eval cbv in qq "{'s':'BTCUSDT','c':'50000.00','P':'sNaN','v':'10','q':'500000'}".



(** ** Sessions *)

Definition is_connect (e : effect) : bool :=
  match e with Connect _ => true | _ => false end.

Definition is_sleep (e : effect) : bool :=
  match e with Sleep _ => true | _ => false end.

Definition is_send (e : effect) : bool :=
  match e with Send _ => true | _ => false end.

Definition count_effects (p : effect -> bool) (t : list effect) : nat :=
  length (List.filter p t).

(** [b] has the effects of [a] followed by effects that satisfy [p]. *)
Definition extends_with (p : effect -> bool) (a b : BinanceSocket) : Prop :=
  exists t, effects b = (effects a ++ t)%list /\ forallb p t = true.

(** The session goes through: connection, subscription, every frame
    handled, and the iteration over the socket ends without an exception. *)
Definition closes_normally (body : string -> M unit) (s : session) : Prop :=
  connect_error s = None /\ send_error s = None /\
  Forall (runs body) (frames s) /\ close s = None.

Definition failed (s : session) : bool :=
  match connect_error s, send_error s, close s with
  | None, None, None => false
  | _, _, _ => true
  end.

(** How [run] ends when [fetch_ticker_data] lets [e] through, and what it
    logs on the way. *)
Definition ending (e : exn) : process :=
  match e with
  | KeyboardInterrupt => Returned
  | SystemExit n => Exited n
  | _ => Traceback e
  end.

Definition farewell (e : exn) : list effect :=
  match e with
  | KeyboardInterrupt => [LogInfo "Shutting down..."]
  | _ => []
  end.

Definition ending_of (e : option exn) : process :=
  match e with
  | None => Returned
  | Some e => ending e
  end.

Definition farewell_of (e : option exn) : list effect :=
  match e with
  | None => []
  | Some e => farewell e
  end.

(** What the [finally] clause of the console program adds. *)
Definition window_closed (self : BinanceSocket) : list effect :=
  if use_ui self then [RootDestroy] else [].

(** The instance once the connection is made and the subscription sent. *)
Definition subscribed (self : BinanceSocket) : BinanceSocket :=
  emit (Send (get_pairs_payload self))
    (emit (LogInfo ("Subscribing with payload: " +:+ get_pairs_payload self))
       (emit (Connect (url_of self)) self)).

(** How the session met by [self] ends: with the exception raised by
    [connect], by [send], or, every frame having been dealt with, by the
    iteration over the socket ([None]: it ends without one). *)
Definition session_ends (body : string -> M unit) (s : session) (self : BinanceSocket)
    (outcome : option exn) : Prop :=
  (is_Some outcome /\ connect_error s = outcome) \/
  (is_Some outcome /\ connect_error s = None /\ send_error s = outcome) \/
  (connect_error s = None /\ send_error s = None /\ close s = outcome /\
   exists self', for_each (frames s) body (subscribed self) = Returns tt self').

Definition neither_connects_nor_pauses (e : effect) : bool :=
  negb (is_connect e) && negb (is_sleep e).

Definition sends_only (payload : string) (e : effect) : bool :=
  match e with
  | Send p => String.eqb p payload
  | _ => true
  end.

(** The symbols are kept and whatever was sent meanwhile is the
    subscription payload. *)
Definition subscribes_only (a b : BinanceSocket) : Prop :=
  symbols b = symbols a /\ extends_with (sends_only (get_pairs_payload a)) a b.

Definition never_sends (a b : BinanceSocket) : Prop :=
  symbols b = symbols a /\ extends_with (fun e => negb (is_send e)) a b.

(** * Properties *)

(** ** What the decoder raises: [JSONDecodeError], or [ValueError] for an integer of too many digits *)

Lemma bind_exc {A B : Type} (m : pyres A) (f : A -> pyres B) e :
  (m ≫= f) = Exc e -> m = Exc e \/ exists a, m = Val a /\ f a = Exc e.
Proof. destruct m; simpl; intros H; [right; eauto | left; congruence | discriminate]. Qed.

(** Case analysis on the tests and matches of a decoder body whose result
    is assumed to be an exception; [rec] closes the recursive calls. *)
Ltac raises_cases rec :=
  repeat match goal with
  | |- Exc _ = Exc _ -> _ =>
      intros [= <-]; first [reflexivity | left; reflexivity | right; reflexivity]
  | |- Val _ = Exc _ -> _ => discriminate
  | |- NoModel = Exc _ -> _ => discriminate
  | |- context [if ?b then _ else _] => destruct b
  | |- context [match ?x with EmptyString => _ | String _ _ => _ end] => destruct x
  | |- context [match ?x with Some _ => _ | None => _ end] => destruct x
  | |- context [match ?x with O => _ | S _ => _ end] => destruct x
  | |- context [let '(_, _) := ?x in _] => destruct x
  | |- (?m ≫= _) = Exc _ -> _ =>
      let H := fresh in
      intros [H|([? ?] & _ & H)]%bind_exc; [ solve [rec H] | revert H ]
  | |- _ = Exc _ -> _ => solve [let H := fresh in intros H; rec H]
  end.

Lemma scanstring_raises s e : scanstring s = Exc e -> e = JSONDecodeError.
Proof.
  remember (String.length s) as n eqn:Hn.
  revert s Hn e. induction n as [n IH] using lt_wf_ind. intros s Hn e.
  assert (Hrec : forall s' e', String.length s' < String.length s ->
                               scanstring s' = Exc e' -> e' = JSONDecodeError).
  { intros s' e' Hlt. apply (IH (String.length s')); [lia | reflexivity]. }
  clear IH Hn.
  destruct s as [|c rest]; [simpl; congruence|].
  cbn [scanstring].
  raises_cases ltac:(fun H => eapply Hrec; [|exact H]; simpl; lia).
Qed.

Lemma scan_number_raises s e : scan_number s = Some (Exc e) -> e = ValueError.
Proof.
  unfold scan_number.
  destruct (match_integer s) as [[integer r]|]; [|discriminate].
  destruct (match match_frac r with Some _ => _ | None => _ end) as [frac r1].
  destruct (match match_exp r1 with Some _ => _ | None => _ end) as [exp r2].
  destruct frac, exp; try discriminate.
  destruct (_ <? _)%N; congruence.
Qed.

Lemma scan_scalar_raises s e :
  scan_scalar s = Exc e -> e = JSONDecodeError \/ e = ValueError.
Proof.
  unfold scan_scalar.
  destruct (scan_number s) as [res|] eqn:Hnum.
  - raises_cases ltac:(fun H => right; eapply scan_number_raises; rewrite Hnum, H; reflexivity).
  - raises_cases ltac:(fun H => fail).
Qed.

Lemma scanner_raises fuel :
  (forall depth s e,
      scan_once fuel depth s = Exc e -> e = JSONDecodeError \/ e = ValueError) /\
  (forall depth s pairs e,
      JSONObject fuel depth s pairs = Exc e -> e = JSONDecodeError \/ e = ValueError) /\
  (forall depth s values e,
      JSONArray fuel depth s values = Exc e -> e = JSONDecodeError \/ e = ValueError).
Proof.
  induction fuel as [|fuel (IHs & IHo & IHa)]; [repeat split; simpl; congruence|].
  repeat split; intros depth s; [intros e | intros pairs e | intros values e];
    cbn [scan_once JSONObject JSONArray];
    raises_cases ltac:(fun H =>
      first [ left; eapply scanstring_raises, H | eapply scan_scalar_raises, H
            | eapply IHs, H | eapply IHo, H | eapply IHa, H ]).
Qed.

Lemma json_loads_raises msg e :
  json_loads msg = Exc e -> e = JSONDecodeError \/ e = ValueError.
Proof.
  unfold json_loads.
  raises_cases ltac:(fun H => eapply (proj1 (scanner_raises _)), H).
Qed.

(** ** The decoder runs out of depth, never out of fuel *)

Lemma rest_of_trans a b c : rest_of a b -> rest_of b c -> rest_of a c.
Proof. intros Hab Hbc. induction Hbc; [exact Hab|constructor; auto]. Qed.

Lemma rest_of_length r s : rest_of r s -> String.length r <= String.length s.
Proof. induction 1; cbn [String.length]; lia. Qed.

Lemma rest_of_openings r s : rest_of r s -> openings r <= openings s.
Proof.
  induction 1 as [|c r s _ IH]; [lia|]. unfold openings in *. cbn [str_count].
  destruct (c =? "[")%char, (c =? "{")%char; lia.
Qed.

Lemma rest_of_skip_ws s : rest_of (skip_ws s) s.
Proof.
  induction s as [|c s IH]; [constructor|]. cbn [skip_ws].
  destruct (is_ws c); constructor. exact IH.
Qed.

Lemma rest_of_strip_prefix p s r : strip_prefix p s = Some r -> rest_of r s.
Proof.
  revert s. induction p as [|a p IH]; intros s; cbn [strip_prefix].
  - destruct s; intros [= <-]; constructor.
  - destruct s as [|b s]; [discriminate|]. destruct (a =? b)%char; [|discriminate].
    intros H. constructor. eauto.
Qed.

Lemma length_strip_prefix p s r :
  strip_prefix p s = Some r -> String.length s = String.length p + String.length r.
Proof.
  revert s. induction p as [|a p IH]; intros s; cbn [strip_prefix].
  - destruct s; intros [= <-]; reflexivity.
  - destruct s as [|b s]; [discriminate|]. destruct (a =? b)%char; [|discriminate].
    intros H. cbn [String.length]. rewrite (IH _ H). reflexivity.
Qed.

Lemma rest_of_span p s a b : span p s = (a, b) -> rest_of b s.
Proof.
  revert a b. induction s as [|c s IH]; intros a b; cbn [span].
  - intros [= <- <-]. constructor.
  - destruct (p c); [|intros [= <- <-]; constructor].
    destruct (span p s) as [a' b'] eqn:E. intros [= <- <-]. constructor. eauto.
Qed.

Ltac rest_steps H := repeat first [exact H | apply rest_next].

Lemma scanstring_reads s : reads s (scanstring s).
Proof.
  remember (String.length s) as n eqn:Hn.
  revert s Hn. induction n as [n IH] using lt_wf_ind. intros s Hn.
  assert (Hrec : forall s', String.length s' < String.length s -> reads s' (scanstring s')).
  { intros s' Hlt. apply (IH (String.length s')); [lia | reflexivity]. }
  clear IH Hn.
  destruct s as [|c rest]; [exact I|].
  cbn [scanstring].
  repeat match goal with
  | |- reads _ (Exc _) => exact I
  | |- reads _ (Val (_, _)) => split; [repeat constructor|cbn [String.length]; lia]
  | |- context [if ?b then _ else _] => destruct b
  | |- context [match ?x with EmptyString => _ | String _ _ => _ end] => destruct x
  | |- context [match ?x with Some _ => _ | None => _ end] => destruct x
  | |- reads _ (scanstring ?x ≫= _) =>
      let H := fresh "H" in
      assert (H : reads x (scanstring x)) by (apply Hrec; cbn [String.length]; lia);
      destruct (scanstring x) as [[? ?]| |]; cbn [mbind pyres_bind];
      [destruct H as [H ?]; split; [rest_steps H|cbn [String.length] in *; lia]
      |exact I|destruct H]
  end.
Qed.

Lemma match_integer_rest s i r :
  match_integer s = Some (i, r) -> rest_of r s /\ String.length r < String.length s.
Proof.
  unfold match_integer.
  destruct s as [|c s]; [discriminate|].
  destruct (c =? "-")%char.
  - destruct s as [|d s]; [discriminate|].
    destruct (d =? "0")%char; [intros [= <- <-]; split; [repeat constructor|cbn; lia]|].
    destruct (is_digit d); [|discriminate].
    destruct (span is_digit s) as [ds r'] eqn:E. intros [= <- <-].
    pose proof (rest_of_span _ _ _ _ E) as H. pose proof (rest_of_length _ _ H).
    split; [rest_steps H|cbn [String.length]; lia].
  - destruct (c =? "0")%char; [intros [= <- <-]; split; [repeat constructor|cbn; lia]|].
    destruct (is_digit c); [|discriminate].
    destruct (span is_digit s) as [ds r'] eqn:E. intros [= <- <-].
    pose proof (rest_of_span _ _ _ _ E) as H. pose proof (rest_of_length _ _ H).
    split; [rest_steps H|cbn [String.length]; lia].
Qed.

Lemma match_frac_rest s f r : match_frac s = Some (f, r) -> rest_of r s.
Proof.
  unfold match_frac. destruct s as [|c s]; [discriminate|].
  destruct (c =? ".")%char; [|discriminate].
  destruct (span is_digit s) as [ds r'] eqn:E.
  pose proof (rest_of_span _ _ _ _ E) as H.
  destruct ds; [discriminate|]. intros [= <- <-]. rest_steps H.
Qed.

Lemma match_exp_rest s e r : match_exp s = Some (e, r) -> rest_of r s.
Proof.
  unfold match_exp. destruct s as [|c s]; [discriminate|].
  destruct (_ || _); [|discriminate].
  destruct s as [|d s].
  - cbn. discriminate.
  - destruct ((d =? "+")%char || (d =? "-")%char).
    + destruct (span is_digit s) as [ds r'] eqn:E.
      pose proof (rest_of_span _ _ _ _ E) as H.
      destruct ds; [discriminate|]. intros [= <- <-]. rest_steps H.
    + destruct (span is_digit (String d s)) as [ds r'] eqn:E.
      pose proof (rest_of_span _ _ _ _ E) as H.
      destruct ds; [discriminate|]. intros [= <- <-]. rest_steps H.
Qed.

Lemma scan_number_reads s res : scan_number s = Some res -> reads s res.
Proof.
  unfold scan_number.
  destruct (match_integer s) as [[integer r]|] eqn:Hi; [|discriminate].
  destruct (match_integer_rest _ _ _ Hi) as [Hr Hlen].
  assert (Hfrac : exists frac r1,
             match match_frac r with Some (f, r') => (f, r') | None => (EmptyString, r) end
             = (frac, r1) /\ rest_of r1 r).
  { destruct (match_frac r) as [[f r']|] eqn:Hf; [|eexists _, _; split; [reflexivity|constructor]].
    eexists _, _. split; [reflexivity|]. exact (match_frac_rest _ _ _ Hf). }
  destruct Hfrac as (frac & r1 & -> & Hr1).
  assert (Hexp : exists exp r2,
             match match_exp r1 with Some (e, r') => (e, r') | None => (EmptyString, r1) end
             = (exp, r2) /\ rest_of r2 r1).
  { destruct (match_exp r1) as [[e r']|] eqn:He; [|eexists _, _; split; [reflexivity|constructor]].
    eexists _, _. split; [reflexivity|]. exact (match_exp_rest _ _ _ He). }
  destruct Hexp as (exp & r2 & -> & Hr2).
  assert (Hrest : rest_of r2 s) by eauto using rest_of_trans.
  assert (Hlt : String.length r2 < String.length s).
  { pose proof (rest_of_length _ _ Hr1). pose proof (rest_of_length _ _ Hr2). lia. }
  destruct frac, exp; try (intros [= <-]; split; assumption).
  destruct (_ <? _)%N; intros [= <-]; [exact I|split; assumption].
Qed.

Lemma scan_scalar_reads s : reads s (scan_scalar s).
Proof.
  assert (Hp : forall p r, strip_prefix p s = Some r -> 0 < String.length p ->
                           rest_of r s /\ String.length r < String.length s).
  { intros p r H Hpos. split; [exact (rest_of_strip_prefix _ _ _ H)|].
    rewrite (length_strip_prefix _ _ _ H). lia. }
  unfold scan_scalar.
  repeat match goal with
  | |- context [strip_prefix ?p s] =>
      let E := fresh "E" in
      destruct (strip_prefix p s) eqn:E; [exact (Hp _ _ E ltac:(cbn; lia))|]
  | |- context [scan_number s] =>
      let E := fresh "E" in
      destruct (scan_number s) eqn:E; [exact (scan_number_reads _ _ E)|]
  end.
  exact I.
Qed.

Lemma reads_within depth s (res : pyres (json * string)) : reads s res -> within depth s res.
Proof. destruct res as [[v r]| |]; simpl; tauto. Qed.

Lemma within_rest depth r s res : within depth r res -> rest_of r s -> within depth s res.
Proof.
  intros H Hr. pose proof (rest_of_length _ _ Hr) as Hl.
  pose proof (rest_of_openings _ _ Hr) as Ho.
  destruct res as [[v r']| |]; simpl in *; [|exact I|lia].
  destruct H as [Hr' Hl']. split; [eauto using rest_of_trans|lia].
Qed.

Lemma within_open depth c rest res :
  within depth rest res -> (c =? "[")%char || (c =? "{")%char = true ->
  within (S depth) (String c rest) res.
Proof.
  intros H Hc. destruct res as [[v r']| |]; simpl in *; [|exact I|].
  - destruct H as [Hr Hl]. split; [constructor; exact Hr|lia].
  - unfold openings in *. cbn [str_count].
    destruct (c =? "[")%char, (c =? "{")%char; try discriminate; lia.
Qed.

Lemma skip_ws_cons r c r1 :
  skip_ws r = String c r1 -> rest_of r1 r /\ String.length r1 < String.length r.
Proof.
  intros H. pose proof (rest_of_skip_ws r) as Hr. rewrite H in Hr.
  pose proof (rest_of_length _ _ Hr) as Hl. cbn [String.length] in Hl.
  split; [|lia]. eapply rest_of_trans; [|exact Hr]. repeat constructor.
Qed.

Lemma scanner_within fuel :
  (forall depth s, 2 * String.length s < fuel -> within depth s (scan_once fuel depth s)) /\
  (forall depth s pairs,
      2 * String.length s < fuel -> within depth s (JSONObject fuel depth s pairs)) /\
  (forall depth s values,
      2 * String.length s + 1 < fuel -> within depth s (JSONArray fuel depth s values)).
Proof.
  induction fuel as [|fuel (IHs & IHo & IHa)]; [repeat split; intros; lia|].
  split; [|split].
  - intros depth s Hf. cbn [scan_once].
    destruct s as [|c rest]; [exact I|]. cbn [String.length] in Hf.
    destruct (c =? dquote)%char.
    { pose proof (scanstring_reads rest) as H.
      destruct (scanstring rest) as [[str r]| |]; cbn [mbind pyres_bind]; [|exact I|destruct H].
      destruct H as [H1 H2]. split; [constructor; exact H1|cbn [String.length]; lia]. }
    destruct (c =? "{")%char eqn:Hobj.
    { destruct depth as [|depth].
      { unfold within, openings. cbn [str_count]. rewrite Hobj. lia. }
      destruct (skip_ws rest) as [|c' r] eqn:Hws; [exact I|].
      destruct (skip_ws_cons _ _ _ Hws) as [Hr Hl].
      destruct (c' =? "}")%char; [split; [constructor; exact Hr|cbn [String.length]; lia]|].
      destruct (c' =? dquote)%char; [|exact I].
      apply within_open; [|rewrite Hobj; apply orb_true_r].
      apply within_rest with r; [apply IHo; lia|exact Hr]. }
    destruct (c =? "[")%char eqn:Harr.
    { destruct depth as [|depth].
      { unfold within, openings. cbn [str_count]. rewrite Harr. lia. }
      destruct (skip_ws rest) as [|c' r] eqn:Hws; [exact I|].
      destruct (skip_ws_cons _ _ _ Hws) as [Hr Hl].
      destruct (c' =? "]")%char; [split; [constructor; exact Hr|cbn [String.length]; lia]|].
      apply within_open; [|rewrite Harr; reflexivity].
      rewrite <- Hws. apply within_rest with (skip_ws rest); [|apply rest_of_skip_ws].
      apply IHa. pose proof (rest_of_length _ _ (rest_of_skip_ws rest)). lia. }
    apply reads_within, scan_scalar_reads.
  - intros depth s pairs Hf. cbn [JSONObject].
    pose proof (scanstring_reads s) as H.
    destruct (scanstring s) as [[key r]| |]; cbn [mbind pyres_bind]; [|exact I|destruct H].
    destruct H as [Hr Hl].
    destruct (skip_ws r) as [|colon r1] eqn:Hws; [exact I|].
    destruct (skip_ws_cons _ _ _ Hws) as [Hr1 Hl1].
    destruct (colon =? ":")%char; [|exact I].
    pose proof (rest_of_skip_ws r1) as Hv. pose proof (rest_of_length _ _ Hv) as Hlv.
    assert (Hvs : rest_of (skip_ws r1) s) by eauto using rest_of_trans.
    pose proof (IHs depth (skip_ws r1) ltac:(lia)) as Hval.
    destruct (scan_once fuel depth (skip_ws r1)) as [[value r2]| |] eqn:Hscan;
      cbn [mbind pyres_bind]; [|exact I|exact (within_rest _ _ _ NoModel Hval Hvs)].
    destruct Hval as [Hr2 Hl2].
    assert (Hs2 : rest_of r2 s) by eauto using rest_of_trans.
    destruct (skip_ws r2) as [|c r3] eqn:Hws2; [exact I|].
    destruct (skip_ws_cons _ _ _ Hws2) as [Hr3 Hl3].
    destruct (c =? "}")%char; [split; [eauto using rest_of_trans|lia]|].
    destruct (c =? ",")%char; [|exact I].
    destruct (skip_ws r3) as [|c' r4] eqn:Hws3; [exact I|].
    destruct (skip_ws_cons _ _ _ Hws3) as [Hr4 Hl4].
    destruct (c' =? dquote)%char; [|exact I].
    apply within_rest with r4; [apply IHo; lia|eauto using rest_of_trans].
  - intros depth s values Hf. cbn [JSONArray].
    pose proof (IHs depth s ltac:(lia)) as Hval.
    destruct (scan_once fuel depth s) as [[value r]| |] eqn:Hscan;
      cbn [mbind pyres_bind]; [|exact I|exact Hval].
    destruct Hval as [Hr Hl].
    destruct (skip_ws r) as [|c r1] eqn:Hws; [exact I|].
    destruct (skip_ws_cons _ _ _ Hws) as [Hr1 Hl1].
    destruct (c =? "]")%char; [split; [eauto using rest_of_trans|lia]|].
    destruct (c =? ",")%char; [|exact I].
    pose proof (rest_of_skip_ws r1) as Hn. pose proof (rest_of_length _ _ Hn).
    apply within_rest with (skip_ws r1); [apply IHa; lia|eauto using rest_of_trans].
Qed.

(** [json_loads] is outside the model only for a text that opens more
    than [max_depth] arrays and objects. *)
Lemma json_loads_leaves_the_model_by_depth_only s :
  json_loads s = NoModel -> max_depth < openings s.
Proof.
  unfold json_loads. destruct (strip_prefix utf8_bom s); [discriminate|].
  pose proof (rest_of_skip_ws s) as Hr. pose proof (rest_of_length _ _ Hr) as Hl.
  pose proof (proj1 (scanner_within (S (2 * String.length s))) max_depth (skip_ws s)
                ltac:(lia)) as H.
  destruct (scan_once _ _ _) as [[obj r]| |]; cbn [mbind pyres_bind].
  - destruct (skip_ws r); discriminate.
  - discriminate.
  - intros _. pose proof (rest_of_openings _ _ Hr). simpl in H. lia.
Qed.

Example unclosed_arrays_are_decoding_errors :
  json_loads "[[[" = Exc JSONDecodeError /\ json_loads "[[1" = Exc JSONDecodeError /\
  json_loads (qq "{'a':[[[[[[[[") = Exc JSONDecodeError.
Proof. repeat split; vm_compute; reflexivity. Qed.

(** ** Running a method step by step *)

Lemma lift_bind {A B : Type} (r : pyres A) (f : A -> M B) (self : BinanceSocket) :
  (lift r ≫= f) self =
  match r with
  | Val a => f a self
  | Exc e => Raises e self
  | NoModel => Unmodelled
  end.
Proof. destruct r; reflexivity. Qed.

Lemma get_bind {B : Type} (f : BinanceSocket -> M B) (self : BinanceSocket) :
  (get ≫= f) self = f self self.
Proof. reflexivity. Qed.

Lemma modify_bind {B : Type} (g : BinanceSocket -> BinanceSocket) (f : unit -> M B)
    (self : BinanceSocket) :
  (modify g ≫= f) self = f tt (g self).
Proof. reflexivity. Qed.

Lemma ret_bind {A B : Type} (a : A) (f : A -> M B) (self : BinanceSocket) :
  (mret a ≫= f) self = f a self.
Proof. reflexivity. Qed.

Lemma getitem_bind {B : Type} members k (f : json -> M B) (self : BinanceSocket) :
  (lift (getitem (JObject members) k) ≫= f) self =
  match dict_get k members with
  | Some v => f v self
  | None => Raises (KeyError k) self
  end.
Proof. rewrite lift_bind. cbn [getitem]. destruct (dict_get k members); reflexivity. Qed.

(** One [lift]ed library call: case analysis on its result. *)
Ltac lift_step :=
  rewrite lift_bind;
  match goal with
  | |- context [match ?r with Val _ => _ | Exc _ => _ | NoModel => _ end] =>
      let H := fresh "Hcall" in destruct r eqn:H
  end.

(** Projections of an instance built by the setters. *)
Ltac fields :=
  cbn [symbols refresh data ctr cycle_symbols current_symbol use_ui canvas effects
       it saved index emit set_ctr set_current_symbol set_cycle_symbols set_data set_canvas].

(** ** What [handle_message] does, case by case *)

Example init_example : init "BTC-USDT,ETH-USDT" (Some 2%Z) false = Val example_socket.
Proof. reflexivity. Qed.

Lemma handle_message_malformed msg self :
  json_loads msg = Exc JSONDecodeError ->
  handle_message msg self = Returns tt (decode_error_logged self).
Proof.
  intros H. unfold handle_message, try_except. rewrite lift_bind, H. reflexivity.
Qed.

(** An exception of the decoder other than [JSONDecodeError] passes
    through [handle_message]. *)
Lemma handle_message_decoder_raises msg e self :
  json_loads msg = Exc e -> e <> JSONDecodeError ->
  handle_message msg self = Raises e self.
Proof.
  intros H He. unfold handle_message, try_except. rewrite lift_bind, H.
  destruct e; congruence.
Qed.

Lemma handle_message_ticker msg members snap key self :
  json_loads msg = Val (JObject members) ->
  dict_get "id" members = None ->
  snapshot_of members snap ->
  hash_key (symbol snap) = Val key ->
  handle_message msg self = Returns tt (set_data (<[key := snap]> (data self)) self).
Proof.
  intros H Hid (P & d & HP & Hd & Hch & Hc & Hv & Hs & Hq) Hkey.
  unfold handle_message, try_except. rewrite lift_bind, H, lift_bind.
  cbn [contains_id]. rewrite bool_decide_eq_false_2 by (rewrite Hid; intros [? [=]]).
  cbn [negb].
  rewrite getitem_bind, HP, lift_bind, Hd; cbn beta iota.
  rewrite getitem_bind, Hc, getitem_bind, Hv, getitem_bind, Hs, getitem_bind, Hq.
  rewrite getitem_bind, Hs, lift_bind, Hkey; cbn beta iota.
  unfold data_setitem, modify. destruct snap; simpl in *. subst. reflexivity.
Qed.

(** The library calls of [handle_message] other than [json.loads] never
    raise [JSONDecodeError]. *)
Lemma contains_id_raises data e : contains_id data = Exc e -> e <> JSONDecodeError.
Proof. destruct data; simpl; congruence. Qed.

Lemma Decimal_of_str_raises s e : Decimal_of_str s = Exc e -> e <> JSONDecodeError.
Proof.
  unfold Decimal_of_str.
  repeat match goal with
  | |- context [if ?b then _ else _] => destruct b
  | |- context [match ?x with EmptyString => _ | String _ _ => _ end] => destruct x
  | |- context [match ?x with Some _ => _ | None => _ end] => destruct x
  | |- context [let '(_, _) := ?x in _] => destruct x
  end; congruence.
Qed.

Lemma coefficient_raises digits acc e : coefficient digits acc = Exc e -> e = ValueError.
Proof.
  revert acc. induction digits as [|digit digits IH]; intros acc; cbn [coefficient]; [discriminate|].
  destruct digit as [|b|n| | | |]; cbn [small_int]; try congruence.
  - simpl. destruct (_ && _); [apply IH | congruence].
  - destruct (_ <? _)%Z; simpl; [|discriminate].
    destruct (_ && _); [apply IH | congruence].
Qed.

Lemma Decimal_of_sequence_raises value e : Decimal_of_sequence value = Exc e -> e = ValueError.
Proof.
  unfold Decimal_of_sequence.
  destruct value as [|sign [|digits [|exponent [|]]]]; try congruence.
  intros [H|(sg & _ & H)]%bind_exc.
  { destruct sign as [|b|n| | | |]; cbn [small_int] in H; try congruence.
    - destruct b; discriminate.
    - destruct (_ <? _)%Z; simpl in H; [|discriminate].
      destruct (n =? 0)%Z; [discriminate|]. destruct (n =? 1)%Z; congruence. }
  apply bind_exc in H as [H|([kind ex] & _ & H)].
  { destruct exponent as [| | | |t| |]; cbn [small_int] in H; simpl in H;
      repeat match type of H with context [if ?b then _ else _] => destruct b; simpl in H end;
      congruence. }
  destruct digits as [| | | | |digits|]; try congruence.
  apply bind_exc in H as [H|(c & _ & H)]; [exact (coefficient_raises _ _ _ H)|].
  destruct (_ <? _)%N; discriminate.
Qed.

Lemma Decimal_raises v e : Decimal v = Exc e -> e <> JSONDecodeError.
Proof.
  destruct v; simpl; try congruence.
  - apply Decimal_of_str_raises.
  - intros ->%Decimal_of_sequence_raises. discriminate.
Qed.

Lemma hash_key_raises v e : hash_key v = Exc e -> e <> JSONDecodeError.
Proof. destruct v; simpl; congruence. Qed.

Lemma uncaught {A : Type} (e : exn) (h : M A) (self : BinanceSocket) :
  e <> JSONDecodeError ->
  match match e with JSONDecodeError => Some h | _ => None end with
  | Some h => h self
  | None => Raises e self
  end = Raises e self.
Proof. destruct e; congruence. Qed.

(** Every run of [handle_message] is one of: nothing done, a decoding
    error logged, one complete snapshot stored, or an exception raised with
    the instance as it was. *)
Lemma handle_message_cases msg self :
  match handle_message msg self with
  | Returns _ self' =>
      self' = self \/
      self' = decode_error_logged self \/
      exists members key snap,
        json_loads msg = Val (JObject members) /\ dict_get "id" members = None /\
        snapshot_of members snap /\ hash_key (symbol snap) = Val key /\
        self' = set_data (<[key := snap]> (data self)) self
  | Raises e self' => self' = self /\ e <> JSONDecodeError
  | Unmodelled => True
  end.
Proof.
  destruct (json_loads msg) as [data|e|] eqn:Hloads.
  2: { destruct (json_loads_raises _ _ Hloads) as [-> | ->].
       - rewrite (handle_message_malformed _ _ Hloads). auto.
       - rewrite (handle_message_decoder_raises _ _ _ Hloads) by discriminate.
         split; [reflexivity|discriminate]. }
  2: { unfold handle_message, try_except. rewrite lift_bind, Hloads. exact I. }
  unfold handle_message, try_except. rewrite lift_bind, Hloads.
  lift_step; [|apply contains_id_raises in Hcall; rewrite uncaught by done; done|exact I].
  destruct a; cbn [negb]; [left; reflexivity|].
  destruct data as [|b|n|lit|s|items|members];
    try (rewrite lift_bind; cbn [getitem]; split; [reflexivity|discriminate]).
  assert (Hid : dict_get "id" members = None).
  { cbn [contains_id] in Hcall. injection Hcall as Hcall.
    apply bool_decide_eq_false in Hcall. destruct (dict_get "id" members); [|reflexivity].
    exfalso; apply Hcall; eauto. }
  clear Hcall.
  rewrite getitem_bind.
  destruct (dict_get "P" members) as [P|] eqn:HP; [|split; [reflexivity|discriminate]].
  lift_step; [|apply Decimal_raises in Hcall; rewrite uncaught by done; done|exact I].
  rewrite getitem_bind.
  destruct (dict_get "c" members) as [c|] eqn:Hc; [|split; [reflexivity|discriminate]].
  rewrite getitem_bind.
  destruct (dict_get "v" members) as [v|] eqn:Hv; [|split; [reflexivity|discriminate]].
  rewrite getitem_bind.
  destruct (dict_get "s" members) as [s|] eqn:Hs; [|split; [reflexivity|discriminate]].
  rewrite getitem_bind.
  destruct (dict_get "q" members) as [q|] eqn:Hq; [|split; [reflexivity|discriminate]].
  rewrite getitem_bind, Hs.
  lift_step; [|apply hash_key_raises in Hcall0; rewrite uncaught by done; done|exact I].
  right; right.
  exists members, a0, {| change := format_4f a; price := c; vol := v; symbol := s; quote := q |}.
  repeat split; try assumption.
  exists P, a. repeat split; assumption.
Qed.

(** A frame without [id] that lacks one of the five fields is never
    logged and skipped: [handle_message] raises, and not the exception its
    handler catches. *)
Lemma missing_field_is_not_skipped msg members k self :
  json_loads msg = Val (JObject members) ->
  dict_get "id" members = None ->
  In k ["P"; "c"; "v"; "s"; "q"] ->
  dict_get k members = None ->
  match handle_message msg self with
  | Returns _ _ => False
  | Raises e self' => self' = self /\ e <> JSONDecodeError
  | Unmodelled => True
  end.
Proof.
  intros Hloads Hid Hk Hmiss.
  pose proof (handle_message_cases msg self) as Hcases.
  destruct (handle_message msg self) as [[] self'|e self'|] eqn:Hrun; [|exact Hcases|exact I].
  revert Hrun. unfold handle_message, try_except. rewrite lift_bind, Hloads, lift_bind.
  cbn [contains_id]. rewrite bool_decide_eq_false_2 by (rewrite Hid; intros [? [=]]).
  cbn [negb]. rewrite getitem_bind.
  destruct (dict_get "P" members) as [P|] eqn:HP; [|discriminate].
  lift_step; [|apply Decimal_raises in Hcall; rewrite uncaught by done; discriminate|discriminate].
  rewrite getitem_bind.
  destruct (dict_get "c" members) as [c|] eqn:Hc; [|discriminate].
  rewrite getitem_bind.
  destruct (dict_get "v" members) as [v|] eqn:Hv; [|discriminate].
  rewrite getitem_bind.
  destruct (dict_get "s" members) as [s|] eqn:Hs; [|discriminate].
  rewrite getitem_bind.
  destruct (dict_get "q" members) as [q|] eqn:Hq; [|discriminate].
  exfalso. cbn [In] in Hk.
  destruct Hk as [<-|[<-|[<-|[<-|[<-|[]]]]]]; congruence.
Qed.

(** ** Claims on message handling *)

(** C1 (the code departs from it).  A frame without [id] that lacks the
    field [P] is not logged and skipped: [handle_message] raises
    [KeyError], which no handler of either program catches, so [run] ends
    with that exception and the valid frame that follows is never
    stored. *)
Theorem incomplete_frame_stops_the_program :
  (forall self, handle_message incomplete_frame self = Raises (KeyError "P") self) /\
  (forall self, exists self',
      Matrix.run [one_session [incomplete_frame; ticker_frame] None] self
      = (Traceback (KeyError "P"), self') /\ data self' = data self) /\
  (forall self, exists self',
      Console.run [one_session [incomplete_frame; ticker_frame] None] self
      = (Traceback (KeyError "P"), self') /\ data self' = data self).
Proof.
  split; [|split].
  - intros self. reflexivity.
  - intros self. eexists. split; reflexivity.
  - intros self. eexists. split; [reflexivity|].
    unfold Console.destroy_window. cbn [use_ui emit]. destruct (use_ui self); reflexivity.
Qed.

(** C4.  A frame that parses as a JSON object with an [id] member leaves
    the instance exactly as it was: the store is untouched and nothing is
    logged; the call returns normally. *)
Theorem ack_frame_changes_nothing msg members self :
  json_loads msg = Val (JObject members) ->
  is_Some (dict_get "id" members) ->
  handle_message msg self = Returns tt self.
Proof.
  intros H Hid.
  unfold handle_message, try_except. rewrite lift_bind, H, lift_bind.
  cbn [contains_id]. rewrite bool_decide_eq_true_2 by exact Hid. reflexivity.
Qed.

Lemma ack_frame_changes_nothing_example :
  handle_message ack_frame example_socket = Returns tt example_socket.
Proof.
  apply (ack_frame_changes_nothing ack_frame [("id", JInt 1); ("result", JNull)] example_socket).
  - vm_compute. reflexivity.
  - exists (JInt 1). reflexivity.
Defined.

(** A message on which [json.loads] raises [JSONDecodeError] is handled
    by logging one decoding error; the call returns normally and the store
    is as it was. *)
Lemma decode_error_is_logged msg self :
  json_loads msg = Exc JSONDecodeError ->
  handle_message msg self = Returns tt (decode_error_logged self) /\
  data (decode_error_logged self) = data self.
Proof. intros H. split; [exact (handle_message_malformed msg self H)|reflexivity]. Qed.

Example truncated_frame_is_logged :
  handle_message truncated_frame example_socket = Returns tt (decode_error_logged example_socket).
Proof. apply handle_message_malformed. vm_compute. reflexivity. Qed.

Lemma oversized_frame_raises : json_loads oversized_frame = Exc ValueError.
Proof. vm_compute. reflexivity. Qed.

Lemma for_each_raises_at_once {A : Type} (x : A) (l : list A) (body : A -> M unit) e self :
  body x self = Raises e self -> for_each (x :: l) body self = Raises e self.
Proof. intros H. cbn [for_each]. unfold mbind, M_bind. rewrite H. reflexivity. Qed.

(** C5 (the code departs from it).  The text [oversized_frame], an opening
    bracket followed by 4301 digits, is no JSON text, and is not logged
    and skipped: [json.loads] raises [ValueError] at the integer, before it
    looks for the closing bracket; the handler of [handle_message] names
    [JSONDecodeError] only, so the exception leaves [handle_message] and
    the loops of both programs, [run] ends with it and the valid frame that
    follows is never stored. *)
Theorem oversized_number_stops_the_program :
  json_loads oversized_frame = Exc ValueError /\
  (forall self, handle_message oversized_frame self = Raises ValueError self) /\
  (forall self, exists self',
      Matrix.run [one_session [oversized_frame; ticker_frame] None] self
      = (Traceback ValueError, self') /\ data self' = data self) /\
  (forall self, exists self',
      Console.run [one_session [oversized_frame; ticker_frame] None] self
      = (Traceback ValueError, self') /\ data self' = data self).
Proof.
  assert (Hraise : forall self, handle_message oversized_frame self = Raises ValueError self).
  { intros self. apply handle_message_decoder_raises; [exact oversized_frame_raises|discriminate]. }
  split; [exact oversized_frame_raises|]. split; [exact Hraise|]. split.
  - intros self. eexists. unfold Matrix.run, Matrix.fetch_ticker_data.
    rewrite get_bind, modify_bind. unfold try_except at 1.
    unfold mbind at 1, M_bind at 1. unfold try_except, Matrix.attempt, one_session.
    cbn [connect_error send_error frames close raise_if].
    rewrite ret_bind, get_bind, modify_bind, modify_bind, ret_bind.
    unfold mbind at 1, M_bind at 1.
    rewrite (for_each_raises_at_once _ _ _ ValueError) by apply Hraise.
    split; reflexivity.
  - intros self. eexists. unfold Console.run, Console.fetch_ticker_data.
    rewrite get_bind, modify_bind.
    unfold mbind at 1, M_bind at 1. unfold try_except, Console.attempt, one_session.
    cbn [connect_error send_error frames close raise_if].
    rewrite ret_bind, get_bind, modify_bind, modify_bind, ret_bind.
    unfold mbind at 1, M_bind at 1.
    assert (Hrecv : forall self, Console.receive oversized_frame self = Raises ValueError self).
    { intros st. unfold Console.receive. unfold mbind, M_bind. rewrite Hraise. reflexivity. }
    rewrite (for_each_raises_at_once _ _ _ ValueError) by apply Hrecv.
    split; [reflexivity|].
    unfold Console.destroy_window. cbn [use_ui emit]. destruct (use_ui self); reflexivity.
Qed.

(** C10.  Whatever the message, the store after [handle_message] is the
    store before it, or the store before it with one snapshot inserted
    whose five entries all come from the frame; when the call raises, the
    store is the one before it. *)
Theorem store_changes_by_whole_snapshots_only msg self :
  match handle_message msg self with
  | Returns _ self' =>
      data self' = data self \/
      exists members key snap,
        json_loads msg = Val (JObject members) /\ dict_get "id" members = None /\
        snapshot_of members snap /\ hash_key (symbol snap) = Val key /\
        data self' = <[key := snap]> (data self)
  | Raises _ self' => data self' = data self
  | Unmodelled => True
  end.
Proof.
  pose proof (handle_message_cases msg self) as H.
  destruct (handle_message msg self) as [[] self'|e self'|]; [|destruct H as [-> _]; reflexivity|exact I].
  destruct H as [->|[->|(members & key & snap & H1 & H2 & H3 & H4 & ->)]]; [left; reflexivity..|].
  right. exists members, key, snap. repeat split; assumption.
Qed.

(** ** Keys of the store and keys looked up *)

Lemma upper_char_normalized c :
  (c =? "-")%char = false ->
  negb (is_lower (upper_char c)) && negb (upper_char c =? "-")%char = true.
Proof. destruct c as [[] [] [] [] [] [] [] []]; vm_compute; congruence. Qed.

Lemma str_remove_absent c s : str_forall (fun a => negb (a =? c)%char) (str_remove c s) = true.
Proof.
  induction s as [|a s IH]; [reflexivity|]. cbn [str_remove].
  destruct (a =? c)%char eqn:E; [exact IH|]. cbn [str_forall]. rewrite E. exact IH.
Qed.

Lemma upper_normalized s k :
  str_forall (fun a => negb (a =? "-")%char) s = true ->
  upper s = Val k -> normalized k = true.
Proof.
  unfold upper. destruct (str_forall is_ascii s); [|discriminate].
  intros Hs [= <-]. induction s as [|a s IH]; [reflexivity|].
  cbn [str_forall] in Hs. apply andb_true_iff in Hs as [Ha Hs].
  unfold normalized. cbn [str_map str_forall].
  rewrite upper_char_normalized by (apply negb_true_iff, Ha).
  apply IH, Hs.
Qed.

Lemma lookup_key_normalized sym key :
  lookup_key sym = Val key -> exists k, key = KStr k /\ normalized k = true.
Proof.
  unfold lookup_key.
  destruct (upper (str_remove "-" sym)) as [k| |] eqn:Hup; simpl; try discriminate.
  intros [= <-]. exists k. split; [reflexivity|].
  eapply upper_normalized; [apply str_remove_absent|exact Hup].
Qed.

(** C6, as the specification states it, fails: the key under which a
    snapshot is stored is the inbound field as received.  A frame whose
    symbol is lower-case with a hyphen leaves a key that is not normalized
    in a store whose keys all were, and the key the presentation looks up
    for that symbol finds nothing. *)
Lemma store_key_is_not_normalized :
  exists self',
    handle_message lowercase_frame example_socket = Returns tt self' /\
    keys_normalized (data example_socket) /\
    is_Some (data self' !! KStr "btc-usdt") /\
    ~ keys_normalized (data self') /\
    lookup_key "btc-usdt" = Val (KStr "BTCUSDT") /\
    data self' !! KStr "BTCUSDT" = None.
Proof.
  eexists. split; [vm_compute; reflexivity|].
  split; [intros key snap H; vm_compute in H; discriminate|].
  split; [eexists; vm_compute; reflexivity|].
  split; [|split; vm_compute; reflexivity].
  intros H.
  destruct (H (KStr "btc-usdt")
              {| change := "1.2345"; price := JString "50000.00"; vol := JString "10";
                 symbol := JString "btc-usdt"; quote := JString "500000" |})
    as (k & [= <-] & Hk).
  - vm_compute. reflexivity.
  - vm_compute in Hk. discriminate.
Qed.

(** C6, amended.  A ticker frame whose symbol is the text [k] is stored
    under [k] as received.  The key the presentation looks up for a
    configured symbol is always normalized (upper-case, no hyphen), and
    when it is [k] the lookup returns the snapshot just stored.  If [k] is
    normalized, a store whose keys were normalized stays so. *)
Theorem snapshot_is_stored_under_the_inbound_symbol msg members snap k self :
  json_loads msg = Val (JObject members) ->
  dict_get "id" members = None ->
  snapshot_of members snap ->
  symbol snap = JString k ->
  let self' := set_data (<[KStr k := snap]> (data self)) self in
  handle_message msg self = Returns tt self' /\
  (forall sym key, lookup_key sym = Val key ->
     (exists k', key = KStr k' /\ normalized k' = true) /\
     (key = KStr k -> data self' !! key = Some snap)) /\
  (normalized k = true -> keys_normalized (data self) -> keys_normalized (data self')).
Proof.
  intros Hloads Hid Hsnap Hsym self'. split; [|split].
  - apply handle_message_ticker with members; try assumption.
    rewrite Hsym. reflexivity.
  - intros sym key Hkey. split; [eapply lookup_key_normalized, Hkey|].
    intros ->. subst self'. simpl. apply lookup_insert_eq.
  - intros Hk Hkeys key snap' Hlook. subst self'. simpl in Hlook.
    destruct (decide (key = KStr k)) as [->|Hne]; [eauto|].
    rewrite lookup_insert_ne in Hlook by congruence. eapply Hkeys, Hlook.
Qed.

Lemma snapshot_is_stored_under_the_inbound_symbol_example :
  let snap := {| change := "1.2345"; price := JString "50000.00"; vol := JString "10";
                 symbol := JString "BTCUSDT"; quote := JString "500000" |} in
  let self' := set_data (<[KStr "BTCUSDT" := snap]> (data example_socket)) example_socket in
  handle_message ticker_frame example_socket = Returns tt self' /\
  (forall sym key, lookup_key sym = Val key ->
     (exists k', key = KStr k' /\ normalized k' = true) /\
     (key = KStr "BTCUSDT" -> data self' !! key = Some snap)) /\
  (normalized "BTCUSDT" = true ->
   keys_normalized (data example_socket) -> keys_normalized (data self')).
Proof.
  intros snap self'.
  apply (snapshot_is_stored_under_the_inbound_symbol ticker_frame
           [("s", JString "BTCUSDT"); ("c", JString "50000.00"); ("P", JString "1.2345");
            ("v", JString "10"); ("q", JString "500000")] snap "BTCUSDT" example_socket).
  - vm_compute. reflexivity.
  - reflexivity.
  - exists (JString "1.2345"), {| d_sign := false; d_int := 12345; d_exp := -4; d_special := DFinite |}.
    repeat split; vm_compute; reflexivity.
  - reflexivity.
Defined.

(** ** Digits *)

Lemma digits_of_uint acc u :
  digits_to_N acc (NilEmpty.string_of_uint u) = uint_value acc u.
Proof.
  revert acc.
  induction u; intros acc; cbn [NilEmpty.string_of_uint digits_to_N uint_value];
    rewrite ?IHu; try reflexivity.
  f_equal. change (N_of_ascii "0" - 48)%N with 0%N. lia.
Qed.

Lemma uint_value_acc u p : uint_value (Npos p) u = Npos (Pos.of_uint_acc u p).
Proof.
  revert p. induction u; intros p; cbn [uint_value Pos.of_uint_acc]; try reflexivity;
    rewrite <- IHu; f_equal; lia.
Qed.

Lemma uint_value_of_uint u : uint_value 0 u = N.of_uint u.
Proof.
  unfold N.of_uint.
  induction u; cbn [uint_value Pos.of_uint]; try reflexivity; try exact IHu;
    rewrite <- uint_value_acc; reflexivity.
Qed.

Lemma digits_uint u : str_forall is_digit (NilEmpty.string_of_uint u) = true.
Proof. induction u; cbn [NilEmpty.string_of_uint str_forall]; rewrite ?IHu; reflexivity. Qed.

Lemma to_uint_nonnil n : N.to_uint n <> Decimal.Nil.
Proof. destruct n; simpl; [discriminate|apply Unsigned.to_uint_nonnil]. Qed.

Lemma str_of_N_digits n : str_of_N n = NilEmpty.string_of_uint (N.to_uint n).
Proof.
  unfold str_of_N, NilZero.string_of_uint.
  pose proof (to_uint_nonnil n). destruct (N.to_uint n); congruence.
Qed.

Lemma str_of_N_value n : digits_to_N 0 (str_of_N n) = n.
Proof.
  rewrite str_of_N_digits, digits_of_uint, uint_value_of_uint.
  apply DecimalN.Unsigned.of_to.
Qed.

Lemma str_of_N_all_digits n : str_forall is_digit (str_of_N n) = true.
Proof. rewrite str_of_N_digits. apply digits_uint. Qed.

Lemma str_of_N_nonempty n : str_of_N n <> EmptyString.
Proof.
  rewrite str_of_N_digits. pose proof (to_uint_nonnil n).
  destruct (N.to_uint n); cbn; congruence.
Qed.

Lemma str_app_cons (x : ascii) (a b : string) : String x a +:+ b = String x (a +:+ b).
Proof. reflexivity. Qed.

Lemma str_app_assoc (a b c : string) : (a +:+ b) +:+ c = a +:+ b +:+ c.
Proof.
  induction a as [|x a IH]; [reflexivity|].
  rewrite !str_app_cons. f_equal. exact IH.
Qed.

Lemma str_length_app (a b : string) :
  String.length (a +:+ b) = String.length a + String.length b.
Proof.
  induction a as [|x a IH]; [reflexivity|].
  rewrite str_app_cons. cbn [String.length]. rewrite IH. reflexivity.
Qed.

Lemma str_forall_app p (a b : string) :
  str_forall p (a +:+ b) = str_forall p a && str_forall p b.
Proof.
  induction a as [|x a IH]; [reflexivity|].
  rewrite str_app_cons. cbn [str_forall]. rewrite IH. apply andb_assoc.
Qed.

Lemma digits_to_N_app acc s1 s2 :
  digits_to_N acc (s1 +:+ s2) = digits_to_N (digits_to_N acc s1) s2.
Proof.
  revert acc. induction s1 as [|c s1 IH]; intros acc; [reflexivity|].
  rewrite str_app_cons. cbn [digits_to_N]. apply IH.
Qed.

Lemma digit_char_value n : (n < 10)%N -> (N_of_ascii (digit_char n) - 48 = n)%N.
Proof.
  intros H. unfold digit_char. rewrite N_ascii_embedding by lia. lia.
Qed.

Lemma digit_char_is_digit n : (n < 10)%N -> is_digit (digit_char n) = true.
Proof.
  intros H. unfold digit_char, is_digit. rewrite N_ascii_embedding by lia.
  apply andb_true_iff. split; apply N.leb_le; lia.
Qed.

Lemma four_digits_value acc n :
  (n < 10000)%N -> digits_to_N acc (four_digits n) = (acc * 10000 + n)%N.
Proof.
  intros H. unfold four_digits. cbn [digits_to_N].
  assert (n / 1000 < 10)%N by (apply N.Div0.div_lt_upper_bound; lia).
  rewrite !digit_char_value by (try assumption; apply N.mod_lt; lia).
  pose proof (N.div_mod n 10 ltac:(lia)).
  pose proof (N.div_mod (n / 10) 10 ltac:(lia)).
  pose proof (N.div_mod (n / 10 / 10) 10 ltac:(lia)).
  rewrite !N.Div0.div_div in *.
  change (10 * 10)%N with 100%N in *. change (100 * 10)%N with 1000%N in *.
  assert ((n / 1000) mod 10 = n / 1000)%N by (apply N.mod_small; assumption).
  lia.
Qed.

Lemma four_digits_all_digits n :
  (n < 10000)%N -> str_forall is_digit (four_digits n) = true.
Proof.
  intros H. unfold four_digits. cbn [str_forall].
  assert (forall m, is_digit (digit_char (m mod 10)) = true) as Hm.
  { intros m. apply digit_char_is_digit, N.mod_lt. lia. }
  rewrite !Hm, digit_char_is_digit; [reflexivity|].
  apply N.Div0.div_lt_upper_bound; lia.
Qed.

(** ** Rounding to four places *)

Lemma odd_of_N q : Z.odd (Z.of_N q) = N.odd q.
Proof. destruct q as [|[p|p|]]; reflexivity. Qed.

Lemma rescale_nearest d : nearest_four_places d (d_int (rescale d (-4))).
Proof.
  unfold nearest_four_places, rescale.
  destruct (Z.leb_spec (-4) (d_exp d)) as [Hge|Hlt]; cbn [d_int].
  - rewrite Z.min_r by lia. replace (-4 - -4)%Z with 0%Z by lia.
    rewrite N2Z.inj_mul, N2Z.inj_pow, Z2N.id by lia.
    change (Z.of_N 10) with 10%Z. change (10 ^ 0)%Z with 1%Z.
    split; [lia|]. intros H. exfalso. lia.
  - rewrite Z.min_l by lia. replace (d_exp d - d_exp d)%Z with 0%Z by lia.
    change (10 ^ 0)%Z with 1%Z.
    set (k := (-4 - d_exp d)%Z).
    set (unit := (10 ^ Z.to_N k)%N).
    assert (Hunit : (10 ^ k)%Z = Z.of_N unit).
    { subst unit. rewrite N2Z.inj_pow, Z2N.id by (subst k; lia). reflexivity. }
    assert (Hpos : (0 < unit)%N).
    { subst unit. apply N.neq_0_lt_0, N.pow_nonzero. lia. }
    rewrite Hunit.
    pose proof (N.div_mod (d_int d) unit ltac:(lia)) as Hdm.
    pose proof (N.mod_lt (d_int d) unit ltac:(lia)) as Hr.
    set (q := (d_int d / unit)%N) in *. set (r := (d_int d mod unit)%N) in *.
    assert (Hq : Z.of_N (d_int d) = (Z.of_N unit * Z.of_N q + Z.of_N r)%Z) by lia.
    destruct (N.ltb_spec unit (2 * r)) as [Hup|Hnup]; cbn [orb].
    + rewrite N2Z.inj_add. change (Z.of_N 1) with 1%Z. split; [lia|]. intros H. exfalso. lia.
    + destruct (N.eqb_spec (2 * r) unit) as [Htie|Hntie]; cbn [andb].
      * destruct (N.odd q) eqn:Hodd.
        -- rewrite N2Z.inj_add. change (Z.of_N 1) with 1%Z. split; [lia|]. intros _.
           rewrite Z.even_add. cbn. rewrite <- Z.negb_odd.
           rewrite odd_of_N, Hodd. reflexivity.
        -- split; [lia|]. intros _. rewrite <- Z.negb_odd.
           rewrite odd_of_N, Hodd. reflexivity.
      * split; [lia|]. intros H. exfalso. lia.
Qed.

(** The text [format_4f] produces: sign, integer digits, a point and
    exactly four digits, which together read as the rounded coefficient. *)
Lemma format_4f_shape d :
  d_special d = DFinite ->
  exists intpart fracpart,
    format_4f d = (if d_sign d then "-" else EmptyString) +:+ intpart +:+ "." +:+ fracpart /\
    intpart <> EmptyString /\
    str_forall is_digit intpart = true /\
    str_forall is_digit fracpart = true /\
    String.length fracpart = 4 /\
    digits_to_N 0 (intpart +:+ fracpart) = d_int (rescale d (-4)).
Proof.
  intros Hfin.
  set (c := d_int (rescale d (-4))).
  assert (Hlt : (c mod 10000 < 10000)%N) by (apply N.mod_lt; lia).
  exists (str_of_N (c / 10000)), (four_digits (c mod 10000)).
  repeat split.
  - unfold format_4f. rewrite Hfin. reflexivity.
  - apply str_of_N_nonempty.
  - apply str_of_N_all_digits.
  - apply four_digits_all_digits, Hlt.
  - rewrite digits_to_N_app, str_of_N_value, four_digits_value by exact Hlt.
    pose proof (N.div_mod c 10000 ltac:(lia)). lia.
Qed.

(** C7, as the specification states it, fails for a frame that gives a
    field as a JSON number with a fraction: [json.loads] makes it the
    nearest binary float before [handle_message] sees it.  In
    [float_frame] the change [0.000150000000000000000001] lies above the
    middle of [0.0001] and [0.0002], and exact decimal rounding gives
    [0.0002]; the float lies below the middle and [0.0001] is stored.  The
    price is stored as a float whose value is not the inbound one. *)
Lemma numbers_pass_through_binary_floating_point :
  exists self' snap d f,
    handle_message float_frame example_socket = Returns tt self' /\
    data self' !! KStr "BTCUSDT" = Some snap /\
    Decimal_of_str "0.000150000000000000000001" = Val d /\
    nearest_four_places d 2 /\ ~ nearest_four_places d 1 /\
    format_4f d = "0.0002" /\
    change snap = "0.0001" /\
    price snap = JFloat f /\
    (p ← Decimal_of_str "50000.123456789012345678";
     mret (same_number (Decimal_of_float f) p)) = Val false.
Proof.
  eexists _, _, _, _.
  split; [vm_compute; reflexivity|].
  split; [vm_compute; reflexivity|].
  split; [vm_compute; reflexivity|].
  split; [vm_compute; split; [discriminate|reflexivity]|].
  split; [vm_compute; intros [H _]; apply H; reflexivity|].
  repeat split; vm_compute; reflexivity.
Qed.

(** C7, amended.  For a ticker frame (no [id], the five fields present,
    the symbol hashable) whose [P] is a JSON string or integer that
    [Decimal] reads as a finite number, [handle_message] returns and the
    store then holds, under the symbol, a snapshot whose symbol, price,
    volume and quote are the values [json.loads] decoded, unchanged, and
    whose change is a text of the form sign, digits, point, four digits
    that denotes the multiple of [10^-4] nearest to the exact value of
    [P], the even one on a tie. *)
Theorem ticker_frame_round_trip msg members P d c v s q key self :
  json_loads msg = Val (JObject members) ->
  dict_get "id" members = None ->
  dict_get "s" members = Some s ->
  dict_get "c" members = Some c ->
  dict_get "P" members = Some P ->
  dict_get "v" members = Some v ->
  dict_get "q" members = Some q ->
  text_or_integer P = true ->
  Decimal P = Val d ->
  d_special d = DFinite ->
  hash_key s = Val key ->
  exists self' snap intpart fracpart,
    handle_message msg self = Returns tt self' /\
    data self' !! key = Some snap /\
    symbol snap = s /\ price snap = c /\ vol snap = v /\ quote snap = q /\
    change snap = (if d_sign d then "-" else EmptyString) +:+ intpart +:+ "." +:+ fracpart /\
    intpart <> EmptyString /\
    str_forall is_digit intpart = true /\
    str_forall is_digit fracpart = true /\
    String.length fracpart = 4 /\
    nearest_four_places d (digits_to_N 0 (intpart +:+ fracpart)).
Proof.
  intros Hloads Hid Hs Hc HP Hv Hq _ Hd Hfin Hkey.
  set (snap := {| change := format_4f d; price := c; vol := v; symbol := s; quote := q |}).
  destruct (format_4f_shape d Hfin)
    as (intpart & fracpart & Hfmt & Hne & Hint & Hfrac & Hlen & Hval).
  exists (set_data (<[key := snap]> (data self)) self), snap, intpart, fracpart.
  split.
  { apply handle_message_ticker with members; try assumption.
    exists P, d. repeat split; assumption. }
  split; [apply lookup_insert_eq|].
  repeat (split; [first [reflexivity|assumption]|]).
  rewrite Hval. apply rescale_nearest.
Qed.

Lemma ticker_frame_round_trip_example :
  exists self' snap intpart fracpart,
    handle_message ticker_frame example_socket = Returns tt self' /\
    data self' !! KStr "BTCUSDT" = Some snap /\
    symbol snap = JString "BTCUSDT" /\ price snap = JString "50000.00" /\
    vol snap = JString "10" /\ quote snap = JString "500000" /\
    change snap = EmptyString +:+ intpart +:+ "." +:+ fracpart /\
    intpart <> EmptyString /\
    str_forall is_digit intpart = true /\
    str_forall is_digit fracpart = true /\
    String.length fracpart = 4 /\
    nearest_four_places {| d_sign := false; d_int := 12345; d_exp := -4; d_special := DFinite |}
      (digits_to_N 0 (intpart +:+ fracpart)).
Proof.
  apply (ticker_frame_round_trip ticker_frame
           [("s", JString "BTCUSDT"); ("c", JString "50000.00"); ("P", JString "1.2345");
            ("v", JString "10"); ("q", JString "500000")]
           (JString "1.2345") {| d_sign := false; d_int := 12345; d_exp := -4; d_special := DFinite |}
           (JString "50000.00") (JString "10") (JString "BTCUSDT") (JString "500000")
           (KStr "BTCUSDT") example_socket); vm_compute; reflexivity.
Defined.

Example stored_change_of_the_ticker_frame :
  exists self', handle_message ticker_frame example_socket = Returns tt self' /\
                change <$> (data self' !! KStr "BTCUSDT") = Some "1.2345".
Proof. eexists. split; vm_compute; reflexivity. Qed.

Example rounding_examples :
  (d ← Decimal_of_str "-2.345678"; mret (format_4f d)) = Val "-2.3457" /\
  (d ← Decimal_of_str "0.00015"; mret (format_4f d)) = Val "0.0002" /\
  (d ← Decimal_of_str "0.00025"; mret (format_4f d)) = Val "0.0002" /\
  (d ← Decimal_of_str "12e3"; mret (format_4f d)) = Val "12000.0000" /\
  (d ← Decimal_of_str "abc"; mret (format_4f d)) = Exc InvalidOperation.
Proof. repeat split; vm_compute; reflexivity. Qed.

(** ** Methods that leave part of the instance alone *)

Section Frame.
Variable R : BinanceSocket -> BinanceSocket -> Prop.
Hypothesis R_refl : forall s, R s s.
Hypothesis R_trans : forall a b c, R a b -> R b c -> R a c.

Lemma preserves_ret {A : Type} (a : A) : preserves R (mret a).
Proof. intros self. apply R_refl. Qed.

Lemma preserves_lift {A : Type} (r : pyres A) : preserves R (lift r).
Proof. intros self. destruct r; simpl; auto. Qed.

Lemma preserves_raise {A : Type} (e : exn) : preserves R (@raise A e).
Proof. intros self. apply R_refl. Qed.

Lemma preserves_get : preserves R get.
Proof. intros self. apply R_refl. Qed.

Lemma preserves_modify f : (forall s, R s (f s)) -> preserves R (modify f).
Proof. intros H self. apply H. Qed.

Lemma preserves_bind {A B : Type} (m : M A) (f : A -> M B) :
  preserves R m -> (forall a, preserves R (f a)) -> preserves R (m ≫= f).
Proof.
  intros Hm Hf self. unfold mbind, M_bind. specialize (Hm self).
  destruct (m self) as [a s1|e s1|]; [|exact Hm|exact I].
  specialize (Hf a s1). destruct (f a s1); eauto.
Qed.

Lemma preserves_try_except {A : Type} (body : M A) handler :
  preserves R body ->
  (forall e h, handler e = Some h -> preserves R h) ->
  preserves R (try_except body handler).
Proof.
  intros Hb Hh self. unfold try_except. specialize (Hb self).
  destruct (body self) as [a s1|e s1|]; [exact Hb| |exact I].
  destruct (handler e) as [h|] eqn:He; [|exact Hb].
  specialize (Hh e h He s1). destruct (h s1); eauto.
Qed.

Lemma preserves_for_each {A : Type} (l : list A) (body : A -> M unit) :
  (forall x, preserves R (body x)) -> preserves R (for_each l body).
Proof.
  intros Hb. induction l as [|x l IH]; [apply preserves_ret|].
  cbn [for_each]. apply preserves_bind; auto.
Qed.

Lemma preserves_raise_if e : preserves R (raise_if e).
Proof. destruct e; [apply preserves_raise|apply preserves_ret]. Qed.
End Frame.

(** Applies the rules above through a method body, splitting on the tests
    and matches it meets; [modify] steps are left to [tac]. *)
Ltac preserves_with tac :=
  repeat first
    [ apply preserves_ret; assumption
    | apply preserves_lift; assumption
    | apply preserves_raise; assumption
    | apply preserves_raise_if; assumption
    | apply preserves_get; assumption
    | apply preserves_modify; solve [tac]
    | apply preserves_bind; [assumption| |intros]
    | apply preserves_try_except; [assumption| |intros ? ?]
    | apply preserves_for_each; [assumption|assumption|intros]
    | match goal with
      | |- preserves _ (if ?b then _ else _) => destruct b
      | |- preserves _ (match ?x with Some _ => _ | None => _ end) => destruct x
      | |- preserves _ (let '(_, _) := ?x in _) => destruct x
      | |- match ?e with JSONDecodeError => _ | _ => _ end = Some _ -> _ =>
          destruct e; intros [= <-]
      end ].

(** *** The rotation state is touched by [toggle_symbol] only *)

Lemma same_rotation_refl s : same_rotation s s.
Proof. repeat split. Qed.

Lemma same_rotation_trans a b c : same_rotation a b -> same_rotation b c -> same_rotation a c.
Proof. intros (?&?&?) (?&?&?). repeat split; congruence. Qed.

Ltac rotation_frame :=
  pose proof same_rotation_refl; pose proof same_rotation_trans;
  preserves_with ltac:(intros; repeat split).

Lemma handle_message_rotation msg : preserves same_rotation (handle_message msg).
Proof. unfold handle_message, data_setitem. rotation_frame. Qed.

Lemma matrix_ticker_rotation : preserves same_rotation Matrix.run_ticker.
Proof.
  unfold Matrix.run_ticker, Matrix.render_ticker_canvas, Matrix.get_volume_text.
  rotation_frame.
Qed.

Lemma console_ticker_rotation : preserves same_rotation Console.run_ticker.
Proof.
  unfold Console.run_ticker, Console.update_console, Console.clear_console.
  rotation_frame.
Qed.

Lemma console_ui_rotation : preserves same_rotation Console.update_ui.
Proof. unfold Console.update_ui. rotation_frame. Qed.

(** ** Rotation *)

Lemma init_rotation SYMBOLS rate ui self :
  init SYMBOLS rate ui = Val self ->
  rotation_at self 0 /\ symbols self = split "," SYMBOLS /\ (0 < refresh self)%Z.
Proof.
  unfold init.
  destruct (bool_decide _ || bool_decide _); [discriminate|].
  destruct rate as [r|]; [|discriminate].
  destruct (Z.leb_spec r 0); [discriminate|].
  destruct (split "," SYMBOLS) as [|first rest] eqn:Hsplit; [discriminate|].
  cbn. intros [= <-]. cbn. repeat split; [|assumption].
  left. repeat split.
Qed.

Lemma toggle_symbol_at self j :
  rotation_at self j ->
  exists self',
    toggle_symbol self = Returns tt self' /\
    rotation_at self' (S j mod length (symbols self)) /\
    symbols self' = symbols self /\ data self' = data self /\ ctr self' = 0%Z.
Proof.
  unfold rotation_at. cbn zeta. intros [Hcur Hphase].
  pose proof (lookup_lt_Some _ _ _ Hcur) as Hj.
  unfold toggle_symbol. rewrite get_bind, lift_bind. unfold cycle_next.
  destruct self as [l rf dt ct c cur ui cv eff]. cbn [symbols cycle_symbols current_symbol] in *.
  destruct c as [i sv ix]. cbn [it saved index] in *.
  destruct Hphase as [(-> & -> & ->)|(-> & -> & ->)].
  - destruct (decide (S j < length l)) as [Hlt|Hge].
    + destruct (lookup_lt_is_Some_2 l (S j) Hlt) as [x Hx].
      rewrite (drop_S _ _ _ Hx). rewrite Nat.mod_small by exact Hlt.
      eexists. split; [reflexivity|]. fields.
      repeat split; [exact Hx|]. left.
      repeat split. symmetry. apply take_S_r, Hx.
    + assert (S j = length l) as HL by lia.
      rewrite drop_ge by lia. rewrite HL.
      rewrite take_ge by lia. rewrite Nat.Div0.mod_same.
      destruct l as [|x l']; [simpl in Hj; lia|]. cbn [lookup list_lookup].
      eexists. split; [reflexivity|]. fields.
      repeat split. right. repeat split.
      destruct l' as [|y l']; [reflexivity|].
      cbn [length Nat.leb]. symmetry. apply Nat.mod_small. lia.
  - assert (Hlt : S j mod length l < length l) by (apply Nat.mod_upper_bound; lia).
    destruct (lookup_lt_is_Some_2 l (S j mod length l) Hlt) as [x Hx]. rewrite Hx.
    eexists. split; [reflexivity|]. fields.
    repeat split; [exact Hx|]. right. repeat split.
    destruct (Nat.leb_spec (length l) (S (S j mod length l))) as [Hle|Hgt].
    + replace (S (S j mod length l)) with (length l) by lia. symmetry. apply Nat.Div0.mod_same.
    + symmetry. apply Nat.mod_small. lia.
Qed.

Lemma rotation_at_lt self j : rotation_at self j -> j < length (symbols self).
Proof. intros [H _]. eapply lookup_lt_Some, H. Qed.

Lemma rotation_at_frame a b j : same_rotation a b -> rotation_at a j -> rotation_at b j.
Proof. unfold rotation_at. intros (-> & -> & ->). auto. Qed.

Lemma ticks_at n : forall self j,
  rotation_at self j ->
  exists self',
    ticks n self = Returns tt self' /\
    rotation_at self' ((j + n) mod length (symbols self)) /\
    symbols self' = symbols self /\
    (0 < n -> ctr self' = 0%Z).
Proof.
  induction n as [|n IH]; intros self j Hrot.
  - exists self. pose proof (rotation_at_lt _ _ Hrot).
    rewrite Nat.add_0_r, Nat.mod_small by assumption.
    split; [reflexivity|]. split; [assumption|]. split; [reflexivity|lia].
  - destruct (toggle_symbol_at self j Hrot) as (self1 & Htog & Hrot1 & Hsym1 & _ & Hctr1).
    destruct (IH self1 _ Hrot1) as (self' & Hticks & Hrot' & Hsym' & Hctr').
    exists self'. cbn [ticks]. unfold mbind, M_bind. rewrite Htog, Hticks.
    rewrite Hsym1 in Hrot', Hsym'.
    rewrite Nat.Div0.add_mod_idemp_l in Hrot'.
    replace (j + S n) with (S j + n) by lia.
    split; [reflexivity|]. split; [assumption|]. split; [assumption|].
    intros _. destruct n; [|apply Hctr'; lia].
    cbn [ticks] in Hticks. injection Hticks as <-. exact Hctr1.
Qed.

Lemma tour_at n : forall self j,
  rotation_at self j ->
  length (tour n self) = n /\
  forall i, i < n -> tour n self !! i = symbols self !! ((j + S i) mod length (symbols self)).
Proof.
  induction n as [|n IH]; intros self j Hrot; [split; [reflexivity|lia]|].
  destruct (toggle_symbol_at self j Hrot) as (self1 & Htog & Hrot1 & Hsym1 & _).
  destruct (IH self1 _ Hrot1) as [Hlen Hlook].
  cbn [tour]. rewrite Htog. split; [cbn [length]; lia|].
  intros [|i] Hi.
  - cbn [lookup list_lookup]. destruct Hrot1 as [Hcur _]. rewrite Hsym1 in Hcur.
    rewrite Nat.add_1_r. symmetry. exact Hcur.
  - cbn [lookup list_lookup].
    change (tour n self1 !! i = symbols self !! ((j + S (S i)) mod length (symbols self))).
    rewrite Hlook by lia. rewrite Hsym1, Nat.Div0.add_mod_idemp_l.
    f_equal. f_equal. lia.
Qed.

Lemma rotated_lookup {A : Type} (l : list A) j i :
  j < length l -> i < length l ->
  (drop (S j) l ++ take (S j) l)%list !! i = l !! ((j + S i) mod length l).
Proof.
  intros Hj Hi.
  destruct (decide (i < length l - S j)) as [Hlt|Hge].
  - rewrite lookup_app_l by (rewrite length_drop; lia).
    rewrite lookup_drop, Nat.mod_small by lia. f_equal. lia.
  - rewrite lookup_app_r by (rewrite length_drop; lia).
    rewrite length_drop, lookup_take_lt by lia.
    replace (j + S i) with ((i - (length l - S j)) + 1 * length l) by lia.
    rewrite Nat.Div0.mod_add, Nat.mod_small by lia. reflexivity.
Qed.

Lemma tour_rotated self j :
  rotation_at self j ->
  tour (length (symbols self)) self
  = (drop (S j) (symbols self) ++ take (S j) (symbols self))%list.
Proof.
  intros Hrot. pose proof (rotation_at_lt _ _ Hrot) as Hj.
  destruct (tour_at (length (symbols self)) self j Hrot) as [Hlen Hlook].
  apply list_eq. intros i.
  destruct (decide (i < length (symbols self))) as [Hi|Hi].
  - rewrite Hlook, rotated_lookup by assumption. reflexivity.
  - rewrite !lookup_ge_None_2; [reflexivity| |lia].
    rewrite length_app, length_drop, length_take. lia.
Qed.

Lemma step_rotation self self' j :
  step self self' -> rotation_at self j ->
  exists j', rotation_at self' j' /\ symbols self' = symbols self.
Proof.
  intros [c Hc] Hrot.
  assert (Hframe : forall m : M unit, preserves same_rotation m ->
            match m self with Returns _ s | Raises _ s => s = self' | Unmodelled => False end ->
            exists j', rotation_at self' j' /\ symbols self' = symbols self).
  { intros m Hm Hrun. specialize (Hm self).
    destruct (m self) as [? s|? s|]; try contradiction; subst s;
      (exists j; split; [eapply rotation_at_frame; eassumption|apply Hm]). }
  destruct c; cbn [invoke] in Hc.
  - destruct (toggle_symbol_at self j Hrot) as (s & Htog & Hrot' & Hsym & _).
    rewrite Htog in Hc. subst s. eauto.
  - eapply Hframe; [apply handle_message_rotation|exact Hc].
  - eapply Hframe; [apply matrix_ticker_rotation|exact Hc].
  - eapply Hframe; [apply console_ticker_rotation|exact Hc].
  - eapply Hframe; [apply console_ui_rotation|exact Hc].
Qed.

Lemma reachable_rotation self0 self j0 :
  reachable self0 self -> rotation_at self0 j0 ->
  exists j, rotation_at self j /\ symbols self = symbols self0.
Proof.
  intros Hreach. revert j0.
  induction Hreach as [s|s1 s2 s3 Hstep _ IH]; intros j0 Hrot; [eauto|].
  destruct (step_rotation _ _ _ Hstep Hrot) as (j1 & Hrot1 & Hsym1).
  destruct (IH _ Hrot1) as (j & Hrot' & Hsym'). exists j. split; [assumption|congruence].
Qed.

(** C8.  Take any instance reached from [__init__] by calls of the
    timers and of the receive loop; its symbol list [l] is the configured
    one and is not empty.  Calling [toggle_symbol] any multiple of
    [length l] times returns the current symbol to what it was.  Over
    [length l] consecutive calls the current symbol runs through the list
    from the position after the current one, wrapping around, so every
    position is visited once and in the configured order.  Every call
    sets the counter to zero. *)
Theorem rotation_is_cyclic SYMBOLS rate ui self0 self :
  init SYMBOLS rate ui = Val self0 ->
  reachable self0 self ->
  let l := symbols self in
  l = split "," SYMBOLS /\ 0 < length l /\
  (forall m, exists self',
      ticks (m * length l) self = Returns tt self' /\
      current_symbol self' = current_symbol self) /\
  (exists j, l !! j = Some (current_symbol self) /\
             tour (length l) self = (drop (S j) l ++ take (S j) l)%list) /\
  tour (length l) self ≡ₚ l /\
  (exists self', toggle_symbol self = Returns tt self' /\ ctr self' = 0%Z).
Proof.
  intros Hinit Hreach l. subst l.
  destruct (init_rotation _ _ _ _ Hinit) as (Hrot0 & Hsplit & _).
  destruct (reachable_rotation _ _ _ Hreach Hrot0) as (j & Hrot & Hsym).
  pose proof (rotation_at_lt _ _ Hrot) as Hj.
  split; [congruence|]. split; [lia|]. split; [|split; [|split]].
  - intros m.
    destruct (ticks_at (m * length (symbols self)) self j Hrot)
      as (self' & Hticks & Hrot' & Hsym' & _).
    exists self'. split; [exact Hticks|].
    rewrite Nat.Div0.mod_add, Nat.mod_small in Hrot' by exact Hj.
    destruct Hrot' as [Hcur' _], Hrot as [Hcur _]. rewrite Hsym' in Hcur'. congruence.
  - exists j. split; [apply Hrot|apply tour_rotated, Hrot].
  - rewrite (tour_rotated _ _ Hrot).
    rewrite Permutation_app_comm, take_drop. reflexivity.
  - destruct (toggle_symbol_at self j Hrot) as (self' & Htog & _ & _ & _ & Hctr). eauto.
Qed.

Lemma rotation_is_cyclic_example :
  let l := symbols later_socket in
  l = split "," "BTC-USDT,ETH-USDT" /\ 0 < length l /\
  (forall m, exists self',
      ticks (m * length l) later_socket = Returns tt self' /\
      current_symbol self' = current_symbol later_socket) /\
  (exists j, l !! j = Some (current_symbol later_socket) /\
             tour (length l) later_socket = (drop (S j) l ++ take (S j) l)%list) /\
  tour (length l) later_socket ≡ₚ l /\
  (exists self', toggle_symbol later_socket = Returns tt self' /\ ctr self' = 0%Z).
Proof.
  apply (rotation_is_cyclic "BTC-USDT,ETH-USDT" (Some 2%Z) false example_socket later_socket).
  - reflexivity.
  - apply (rtc_l step example_socket
             (match handle_message ticker_frame example_socket with
              | Returns _ self => self
              | _ => example_socket
              end)).
    + exists (Handle ticker_frame). vm_compute. reflexivity.
    + apply rtc_once. exists Toggle. vm_compute. reflexivity.
Defined.

Example later_socket_shows_the_second_symbol :
  current_symbol later_socket = "ETH-USDT" /\
  is_Some (data later_socket !! KStr "BTCUSDT") /\
  tour 2 later_socket = ["BTC-USDT"; "ETH-USDT"].
Proof. split; [reflexivity|]. split; [eexists|]; vm_compute; reflexivity. Qed.

Example four_ticks :
  tour 4 example_socket = ["ETH-USDT"; "BTC-USDT"; "ETH-USDT"; "BTC-USDT"].
Proof. reflexivity. Qed.

(** ** Connection failures *)

Lemma extends_refl s : extends s s.
Proof. exists []. split; [symmetry; apply app_nil_r|reflexivity]. Qed.

Lemma extends_trans a b c : extends a b -> extends b c -> extends a c.
Proof.
  intros (t1 & H1 & S1) (t2 & H2 & S2). exists (t1 ++ t2)%list.
  split; [rewrite H2, H1, app_assoc; reflexivity|].
  rewrite forallb_app, S1, S2. reflexivity.
Qed.

Lemma extends_emit e s : silent e = true -> extends s (emit e s).
Proof. intros H. exists [e]. split; [reflexivity|]. cbn. rewrite H. reflexivity. Qed.

Lemma extends_fields f s : effects (f s) = effects s -> extends s (f s).
Proof. intros H. exists []. split; [rewrite H; symmetry; apply app_nil_r|reflexivity]. Qed.

Ltac extends_frame :=
  pose proof extends_refl; pose proof extends_trans;
  preserves_with ltac:(intros; first [apply extends_emit; reflexivity
                                     | apply extends_fields; reflexivity]).

Lemma handle_message_silent msg : preserves extends (handle_message msg).
Proof. unfold handle_message, data_setitem. extends_frame. Qed.

Lemma console_receive_silent msg : preserves extends (Console.receive msg).
Proof.
  unfold Console.receive, Console.update_ui, Console.update_console, Console.clear_console.
  pose proof (handle_message_silent msg).
  extends_frame.
Qed.

Lemma for_each_runs body fs :
  Forall (runs body) fs -> forall self, exists self', for_each fs body self = Returns tt self'.
Proof.
  induction 1 as [|f fs Hf _ IH]; intros self; [eexists; reflexivity|].
  destruct (Hf self) as [s1 H1]. destruct (IH s1) as [s2 H2].
  exists s2. cbn [for_each]. unfold mbind, M_bind. rewrite H1. exact H2.
Qed.

Section Attempt.
Variable body : string -> M unit.
Hypothesis body_silent : forall m, preserves extends (body m).

Lemma attempt_silent s : preserves extends (attempt_with body s).
Proof. unfold attempt_with. extends_frame. apply body_silent. Qed.

Lemma attempt_dropped s e self :
  dropped body s e ->
  exists self', attempt_with body s self = Raises e self' /\ extends self self'.
Proof.
  intros Hd.
  assert (exists self', attempt_with body s self = Raises e self') as [self' Hrun].
  { unfold attempt_with.
    destruct Hd as [Hc|[(Hc & Hs)|(Hc & Hs & Hf & Hcl)]]; rewrite Hc.
    - eexists. reflexivity.
    - rewrite Hs. eexists. reflexivity.
    - rewrite Hs, Hcl. cbn [raise_if].
      rewrite ret_bind, get_bind, modify_bind, modify_bind, ret_bind.
      destruct (for_each_runs _ _ Hf
                  (emit (Send (get_pairs_payload self))
                     (emit (LogInfo ("Subscribing with payload: " +:+ get_pairs_payload self))
                        self)))
        as [s1 H1].
      exists s1. unfold mbind at 1, M_bind at 1. rewrite H1. reflexivity. }
  exists self'. split; [exact Hrun|].
  pose proof (attempt_silent s self) as H. rewrite Hrun in H. exact H.
Qed.
End Attempt.

Lemma matrix_attempt s : Matrix.attempt s = attempt_with handle_message s.
Proof. reflexivity. Qed.

Lemma console_attempt s : Console.attempt s = attempt_with Console.receive s.
Proof. reflexivity. Qed.

Lemma matrix_fetch_retries script : forall self,
  Forall (fun s => exists e, retried e = true /\ dropped handle_message s e) script ->
  exists self' t,
    Matrix.fetch_ticker_data script self = Returns AwaitingConnection self' /\
    effects self' = (effects self ++ t)%list /\
    retry_trace (length script) t.
Proof.
  induction script as [|s script IH]; intros self Hall.
  - exists (emit (Connect (url_of self)) self), [Connect (url_of self)].
    split; [reflexivity|]. split; [reflexivity|constructor].
  - apply Forall_cons in Hall as [(e & He & Hd) Hall].
    cbn [Matrix.fetch_ticker_data]. rewrite get_bind, modify_bind.
    set (s0 := emit (Connect (url_of self)) self).
    destruct (attempt_dropped _ handle_message_silent s e s0 Hd) as (s1 & Hrun & t1 & Ht1 & Hs1).
    set (s2 := emit (Sleep 5) (emit (retry_log e) s1)).
    destruct (IH s2 Hall) as (self' & t & Hfetch & Ht & Htrace).
    exists self', (Connect (url_of self) :: t1 ++ retry_log e :: Sleep 5 :: t)%list.
    split; [|split].
    + unfold mbind at 1, M_bind at 1, try_except. rewrite matrix_attempt, Hrun.
      destruct e; try discriminate He; exact Hfetch.
    + rewrite Ht. subst s2 s0. cbn [effects emit] in *. rewrite Ht1.
      rewrite <- !app_assoc. reflexivity.
    + constructor; assumption.
Qed.

(** The attempt of the console program on the session [self] meets. *)
Lemma console_attempt_ends s self e :
  session_ends Console.receive s self e ->
  exists self' mid,
    Console.attempt s (emit (Connect (url_of self)) self)
    = match e with Some e => Raises e self' | None => Returns tt self' end /\
    effects self' = (effects self ++ Connect (url_of self) :: mid)%list /\
    forallb silent mid = true.
Proof.
  intros Hends.
  assert (exists self',
            Console.attempt s (emit (Connect (url_of self)) self)
            = match e with Some e => Raises e self' | None => Returns tt self' end)
    as [self' Hrun].
  { unfold Console.attempt.
    destruct Hends as [([x ->] & Hc)|[([x ->] & Hc & Hs)|(Hc & Hs & Hcl & s1 & Hf)]];
      rewrite Hc.
    - eexists. reflexivity.
    - rewrite Hs. eexists. reflexivity.
    - rewrite Hs, Hcl. cbn [raise_if].
      rewrite ret_bind, get_bind, modify_bind, modify_bind, ret_bind.
      exists s1. unfold mbind at 1, M_bind at 1.
      match goal with
      | |- context [for_each ?l ?b ?st] =>
          change (for_each l b st) with (for_each l b (subscribed self))
      end.
      rewrite Hf. destruct e; reflexivity. }
  pose proof (attempt_silent _ console_receive_silent s (emit (Connect (url_of self)) self)) as H.
  rewrite <- console_attempt, Hrun in H.
  assert (Hext : extends (emit (Connect (url_of self)) self) self')
    by (destruct e; exact H).
  destruct Hext as (mid & Ht & Hmid).
  exists self', mid. split; [exact Hrun|]. split; [|exact Hmid].
  rewrite Ht. fields. rewrite <- app_assoc. reflexivity.
Qed.

Lemma console_fetch_exits s rest e self :
  fatal e = true -> session_ends Console.receive s self (Some e) ->
  exists self' mid,
    Console.fetch_ticker_data (s :: rest) self = Raises (SystemExit 1) self' /\
    effects self' = (effects self ++ Connect (url_of self) :: mid ++ [exit_log e])%list /\
    forallb silent mid = true.
Proof.
  intros He Hends.
  destruct (console_attempt_ends s self (Some e) Hends) as (s1 & mid & Hrun & Ht & Hmid).
  unfold Console.fetch_ticker_data. rewrite get_bind, modify_bind.
  exists (emit (exit_log e) s1), mid. split; [|split; [|exact Hmid]].
  - unfold mbind at 1, M_bind at 1, try_except. rewrite Hrun.
    destruct e; try discriminate He; reflexivity.
  - cbn [effects emit]. rewrite Ht, <- app_assoc. reflexivity.
Qed.

(** C2, as the specification states it, fails for both programs.  The
    console program answers a closed connection by exiting with status 1,
    without a pause; the LED-matrix program does not catch [OSError], which
    ends [run]. *)
Lemma connection_failure_ends_the_process :
  ~ never_exits Console.run Console.receive /\
  ~ never_exits Matrix.run handle_message /\
  (exists self',
      Console.run [one_session [] (Some ConnectionClosed)] example_socket = (Exited 1, self') /\
      has_sleep (effects self') = false) /\
  (exists self', Matrix.run [refused OSError] example_socket = (Traceback OSError, self')).
Proof.
  split; [|split; [|split]].
  - intros H.
    specialize (H [one_session [] (Some ConnectionClosed)] example_socket).
    assert (fst (Console.run [one_session [] (Some ConnectionClosed)] example_socket) = Exited 1)
      as Hrun by (vm_compute; reflexivity).
    rewrite Hrun in H. discriminate H.
    constructor; [|constructor]. exists ConnectionClosed. split; [reflexivity|].
    right; right. repeat split. constructor.
  - intros H.
    specialize (H [refused OSError] example_socket).
    assert (fst (Matrix.run [refused OSError] example_socket) = Traceback OSError)
      as Hrun by (vm_compute; reflexivity).
    rewrite Hrun in H. discriminate H.
    constructor; [|constructor]. exists OSError. split; [reflexivity|].
    left. reflexivity.
  - eexists. split; vm_compute; reflexivity.
  - eexists. vm_compute. reflexivity.
Qed.

(** C2, amended.  In the LED-matrix program, when every session fails with
    [ConnectionClosed] or [TimeoutError], [run] is still in its loop after
    any number of them, and its effects are, for each session, the
    connection, the traffic of the session, the error log line and a pause
    of five seconds, followed by the next connection.  In the console
    program a session that fails with [ConnectionClosed], [TimeoutError],
    [InvalidURI] or [OSError], at the connection, at the subscription or
    after any number of frames were handled and shown, is logged and the
    process exits with status 1, with no pause and no further connection;
    the window, if there is one, is destroyed on the way out. *)
Theorem connection_failures_are_retried_or_fatal :
  (forall script self,
      Forall (fun s => exists e, retried e = true /\ dropped handle_message s e) script ->
      exists self' t,
        Matrix.run script self = (Running, self') /\
        effects self' = (effects self ++ t)%list /\
        retry_trace (length script) t) /\
  (forall s rest e self,
      fatal e = true -> session_ends Console.receive s self (Some e) ->
      exists self' mid,
        Console.run (s :: rest) self = (Exited 1, self') /\
        effects self' =
          (effects self ++ Connect (url_of self) :: mid ++ exit_log e
             :: (if use_ui self' then [RootDestroy] else []))%list /\
        forallb silent mid = true).
Proof.
  split.
  - intros script self Hall.
    destruct (matrix_fetch_retries script self Hall) as (self' & t & Hfetch & Ht & Htrace).
    exists self', t. unfold Matrix.run. rewrite Hfetch. auto.
  - intros s rest e self He Hd.
    destruct (console_fetch_exits s rest e self He Hd) as (self' & mid & Hfetch & Ht & Hmid).
    exists (Console.destroy_window self'), mid. unfold Console.run. rewrite Hfetch.
    split; [reflexivity|]. split; [|exact Hmid].
    unfold Console.destroy_window.
    destruct (use_ui self') eqn:Hui; cbn [effects emit use_ui]; rewrite Hui, Ht.
    + rewrite <- !app_assoc, <- app_comm_cons, <- app_assoc. reflexivity.
    + reflexivity.
Qed.

Lemma connection_failures_are_retried_or_fatal_example :
  (exists self' t,
      Matrix.run [one_session [ack_frame] (Some ConnectionClosed); refused TimeoutError]
        example_socket = (Running, self') /\
      effects self' = (effects example_socket ++ t)%list /\
      retry_trace 2 t) /\
  (exists self' mid,
      Console.run [one_session [ack_frame; ticker_frame] (Some ConnectionClosed);
                   one_session [] None] example_socket
      = (Exited 1, self') /\
      effects self' =
        (effects example_socket ++ Connect (url_of example_socket) :: mid
           ++ exit_log ConnectionClosed
           :: (if use_ui self' then [RootDestroy] else []))%list /\
      forallb silent mid = true).
Proof.
  split.
  - apply (proj1 connection_failures_are_retried_or_fatal
             [one_session [ack_frame] (Some ConnectionClosed); refused TimeoutError]
             example_socket).
    constructor; [|constructor; [|constructor]].
    + exists ConnectionClosed. split; [reflexivity|].
      right; right. repeat split. constructor; [|constructor].
      intros self. exists self. reflexivity.
    + exists TimeoutError. split; [reflexivity|]. left. reflexivity.
  - apply (proj2 connection_failures_are_retried_or_fatal
             (one_session [ack_frame; ticker_frame] (Some ConnectionClosed))
             [one_session [] None] ConnectionClosed example_socket).
    + reflexivity.
    + right; right. repeat split. eexists. vm_compute. reflexivity.
Defined.

Example two_drops :
  exists self',
    Matrix.run [one_session [] (Some ConnectionClosed); one_session [] None] example_socket
    = (Running, self') /\
    List.length (List.filter (fun e => match e with Sleep _ => true | _ => false end)
                             (effects self')) = 1 /\
    List.length (List.filter (fun e => match e with Connect _ => true | _ => false end)
                             (effects self')) = 3.
Proof. eexists. split; [vm_compute; reflexivity|]. split; vm_compute; reflexivity. Qed.

(** ** The subscription payload read back as JSON *)

Lemma scanstring_plain body rest :
  json_safe body = true ->
  scanstring (body +:+ String dquote rest) = Val (body, rest).
Proof.
  induction body as [|c body IH]; intros Hsafe.
  - reflexivity.
  - cbn [json_safe str_forall] in Hsafe. apply andb_true_iff in Hsafe as [Hc Hbody].
    unfold plain_char in Hc. apply andb_true_iff in Hc as [Hc Hctl].
    apply andb_true_iff in Hc as [Hq Hb].
    apply negb_true_iff in Hq, Hb. apply N.leb_le in Hctl.
    rewrite str_app_cons.
    cbn [scanstring]. rewrite Hq, Hb.
    destruct (N.ltb_spec (N_of_ascii c) 32) as [Hlt|_]; [lia|].
    rewrite (IH Hbody). reflexivity.
Qed.

Lemma str_remove_forall p c s : str_forall p s = true -> str_forall p (str_remove c s) = true.
Proof.
  induction s as [|a s IH]; [reflexivity|]. cbn [str_forall str_remove].
  intros [Ha Hs]%andb_true_iff.
  destruct (a =? c)%char; [auto|]. cbn [str_forall]. rewrite Ha. auto.
Qed.

Lemma stream_safe symbol : json_safe symbol = true -> json_safe (stream symbol) = true.
Proof.
  intros H. unfold json_safe, stream. rewrite str_forall_app.
  rewrite str_remove_forall by exact H. reflexivity.
Qed.

Lemma get_pairs_payload_text self :
  get_pairs_payload self =
  payload_head +:+ join "," (map (fun s => quoted (stream s)) (symbols self)) +:+ payload_tail.
Proof.
  unfold get_pairs_payload. do 3 f_equal. apply map_ext. intros s.
  unfold quoted, stream. rewrite !str_app_cons, str_app_assoc. reflexivity.
Qed.

Lemma scan_once_string fuel depth body rest :
  json_safe body = true ->
  scan_once (S fuel) depth (quoted body +:+ rest) = Val (JString body, rest).
Proof.
  intros H. unfold quoted. rewrite str_app_cons, str_app_assoc, str_app_cons.
  cbn [scan_once]. change (dquote =? dquote)%char with true. cbn iota.
  rewrite (scanstring_plain _ _ H). reflexivity.
Qed.

Lemma JSONArray_unfold fuel depth s values :
  JSONArray (S fuel) depth s values =
  '(value, r) ← scan_once fuel depth s;
  match skip_ws r with
  | String c r1 =>
      if (c =? "]")%char then Val (JArray (values ++ [value]), r1)
      else if (c =? ",")%char then JSONArray fuel depth (skip_ws r1) (values ++ [value])
      else Exc JSONDecodeError
  | EmptyString => Exc JSONDecodeError
  end.
Proof. reflexivity. Qed.

Lemma join_cons sep (x y : string) (l : list string) :
  join sep (x :: y :: l) = x +:+ sep +:+ join sep (y :: l).
Proof. reflexivity. Qed.

Lemma skip_ws_quoted b (items : list string) rest :
  skip_ws (join "," (map quoted (b :: items)) +:+ rest)
  = join "," (map quoted (b :: items)) +:+ rest.
Proof.
  destruct items as [|b' items]; cbn [map]; [cbn [join]|rewrite join_cons];
    unfold quoted at 1; rewrite !str_app_cons; reflexivity.
Qed.

Lemma JSONArray_strings items : forall fuel depth values rest,
  Forall (fun b => json_safe b = true) items ->
  items <> [] ->
  length items < fuel ->
  JSONArray fuel depth (join "," (map quoted items) +:+ String "]" rest) values
  = Val (JArray (values ++ map JString items), rest).
Proof.
  induction items as [|b items IH]; intros fuel depth values rest Hsafe Hne Hfuel; [congruence|].
  apply Forall_cons in Hsafe as [Hb Hsafe].
  destruct fuel as [|fuel]; [lia|]. destruct fuel as [|fuel]; [cbn in Hfuel; lia|].
  rewrite JSONArray_unfold.
  destruct items as [|b' items].
  - cbn [map join]. rewrite (scan_once_string _ _ _ _ Hb). reflexivity.
  - cbn [map]. rewrite join_cons, !str_app_assoc, (scan_once_string _ _ _ _ Hb).
    cbn [mbind pyres_bind]. rewrite !str_app_cons.
    change (EmptyString +:+ ?x) with x.
    change (skip_ws (String "," ?x)) with (String "," x). cbn iota.
    change ("," =? "]")%char with false. change ("," =? ",")%char with true. cbn iota.
    change (quoted b' :: map quoted items) with (map quoted (b' :: items)).
    rewrite skip_ws_quoted.
    rewrite IH; [|assumption|discriminate|cbn [length] in *; lia].
    rewrite <- app_assoc. reflexivity.
Qed.

Lemma length_join_quoted (items : list string) :
  2 * length items <= String.length (join "," (map quoted items)).
Proof.
  assert (Hq : forall b, String.length (quoted b) = 2 + String.length b).
  { intros b. unfold quoted. cbn [String.length]. rewrite str_length_app.
    cbn [String.length]. lia. }
  induction items as [|b items IH]; [reflexivity|].
  destruct items as [|b' items].
  - cbn [map join length]. rewrite Hq. lia.
  - cbn [map] in *. rewrite join_cons, !str_length_app, Hq.
    cbn [length] in *. lia.
Qed.

Lemma scan_once_strings items fuel depth rest :
  Forall (fun b => json_safe b = true) items ->
  2 * length items < fuel ->
  scan_once fuel (S depth) (String "[" (join "," (map quoted items) +:+ String "]" rest))
  = Val (JArray (map JString items), rest).
Proof.
  intros Hsafe Hfuel. destruct fuel as [|fuel]; [lia|].
  destruct items as [|b items]; [reflexivity|].
  cbn [scan_once]. change ("[" =? dquote)%char with false.
  change ("[" =? "{")%char with false. change ("[" =? "[")%char with true. cbn iota.
  rewrite skip_ws_quoted.
  assert (exists r, join "," (map quoted (b :: items)) +:+ String "]" rest = String dquote r)
    as [r Hr].
  { destruct items; cbn [map]; [cbn [join]|rewrite join_cons]; unfold quoted at 1;
      rewrite !str_app_cons; eexists; reflexivity. }
  rewrite Hr. change (dquote =? "]")%char with false. cbn iota. rewrite <- Hr.
  rewrite JSONArray_strings; [reflexivity|assumption|discriminate|cbn [length] in *; lia].
Qed.

Lemma scan_once_open fuel depth k r :
  scan_once (S fuel) (S depth) (String "{" (quoted k +:+ r))
  = JSONObject fuel depth (k +:+ String dquote r) [].
Proof. unfold quoted. rewrite str_app_cons, str_app_assoc, str_app_cons. reflexivity. Qed.

Lemma JSONObject_member fuel depth k v value r pairs :
  json_safe k = true ->
  skip_ws v = v ->
  scan_once fuel depth v = Val (value, r) ->
  JSONObject (S fuel) depth (k +:+ String dquote (String ":" (String " " v))) pairs =
  match skip_ws r with
  | String c r3 =>
      if (c =? "}")%char then Val (JObject (dict_set k value pairs), r3)
      else if (c =? ",")%char then
        match skip_ws r3 with
        | String c' r4 =>
            if (c' =? dquote)%char then JSONObject fuel depth r4 (dict_set k value pairs)
            else Exc JSONDecodeError
        | EmptyString => Exc JSONDecodeError
        end
      else Exc JSONDecodeError
  | EmptyString => Exc JSONDecodeError
  end.
Proof.
  intros Hk Hv Hscan. cbn [JSONObject]. rewrite (scanstring_plain _ _ Hk).
  cbn [mbind pyres_bind].
  change (skip_ws (String ":" (String " " v))) with (String ":" (String " " v)). cbn iota.
  change (":" =? ":")%char with true. cbn iota.
  change (skip_ws (String " " v)) with (skip_ws v). rewrite Hv, Hscan. reflexivity.
Qed.

(** The payload around any text [mid] that reads as an array. *)
Lemma loads_payload mid (array : json) n :
  n <= String.length mid ->
  (forall fuel depth rest, n < fuel ->
      scan_once fuel (S depth) (String "[" (mid +:+ String "]" rest)) = Val (array, rest)) ->
  json_loads (payload_head +:+ mid +:+ payload_tail)
  = Val (JObject [("method", JString "SUBSCRIBE"); ("params", array); ("id", JInt 1)]).
Proof.
  intros Hn Harray.
  pose (after_params := String "," (String " " (quoted "id" +:+ String ":" (String " " "1}")))).
  pose (params := String "[" (mid +:+ String "]" after_params)).
  pose (after_method :=
          String "," (String " " (quoted "params" +:+ String ":" (String " " params)))).
  assert (payload_head +:+ mid +:+ payload_tail
          = String "{" (quoted "method"
                        +:+ String ":" (String " " (quoted "SUBSCRIBE" +:+ after_method))))
    as Htext by reflexivity.
  assert (exists fuel,
             S (2 * String.length (payload_head +:+ mid +:+ payload_tail)) = S (S (S (S fuel)))
             /\ n < S fuel /\ 0 < fuel) as (fuel & Hlen & Hfuel & Hpos).
  { unfold payload_head, payload_tail. rewrite !str_length_app. cbn [String.length].
    exists (2 * String.length mid + 89). lia. }
  unfold json_loads. rewrite Hlen, Htext. clear Hlen Htext.
  change (strip_prefix utf8_bom (String "{" ?r)) with (@None string).
  change (skip_ws (String "{" ?r)) with (String "{" r).
  unfold max_depth. rewrite scan_once_open.
  rewrite (JSONObject_member _ _ "method" _ (JString "SUBSCRIBE") after_method);
    [|reflexivity|reflexivity|apply scan_once_string; reflexivity].
  change (skip_ws after_method)
    with (String "," (String " " (quoted "params" +:+ String ":" (String " " params)))).
  cbn iota. change ("," =? "}")%char with false. change ("," =? ",")%char with true. cbn iota.
  change (skip_ws (String " " (quoted "params" +:+ ?r)))
    with (String dquote ("params" +:+ String dquote r)).
  cbn iota. change (dquote =? dquote)%char with true. cbn iota.
  rewrite (JSONObject_member _ _ "params" _ array after_params);
    [|reflexivity|reflexivity|apply Harray; lia].
  change (skip_ws after_params)
    with (String "," (String " " (quoted "id" +:+ String ":" (String " " "1}")))).
  cbn iota. change ("," =? "}")%char with false. change ("," =? ",")%char with true. cbn iota.
  change (skip_ws (String " " (quoted "id" +:+ ?r)))
    with (String dquote ("id" +:+ String dquote r)).
  cbn iota. change (dquote =? dquote)%char with true. cbn iota.
  destruct fuel as [|fuel]; [lia|].
  rewrite (JSONObject_member _ _ "id" _ (JInt 1) "}"); reflexivity.
Qed.

Lemma join_no_hyphen (l : list string) :
  Forall (fun s => no_hyphen s = true) l -> no_hyphen (join "," l) = true.
Proof.
  induction 1 as [|x l Hx Hl IH]; [reflexivity|].
  destruct l as [|y l]; [exact Hx|].
  rewrite join_cons. unfold no_hyphen in *. rewrite !str_forall_app, Hx, IH. reflexivity.
Qed.

(** C3, as the specification states it, fails: the symbols keep their
    letter case (and the text has a space after each colon and after the
    commas between members).  For the symbols [BTC-USDT] and [ETH-USDT] the
    message sent names [BTCUSDT@ticker], which no choice of id turns into
    the message of the specification. *)
Lemma subscribe_payload_keeps_letter_case :
  get_pairs_payload example_socket
  = qq "{'method': 'SUBSCRIBE', 'params': ['BTCUSDT@ticker','ETHUSDT@ticker'], 'id': 1}" /\
  json_loads (get_pairs_payload example_socket)
  = Val (JObject [("method", JString "SUBSCRIBE");
                  ("params", JArray [JString "BTCUSDT@ticker"; JString "ETHUSDT@ticker"]);
                  ("id", JInt 1)]) /\
  ~ (forall self, exists id,
        json_loads (get_pairs_payload self) = Val (spec_subscribe_message (symbols self) id)).
Proof.
  split; [vm_compute; reflexivity|]. split; [vm_compute; reflexivity|].
  intros H. destruct (H example_socket) as [id Hid].
  vm_compute in Hid. discriminate Hid.
Qed.

(** C3, amended.  When no configured symbol holds a double quote, a
    backslash or a control character, the payload reads as the JSON object
    with [method] the text SUBSCRIBE, [params] the array of the symbols in
    configured order, each with its hyphens removed, its letter case kept
    and [@ticker] appended, and [id] the integer 1.  Its text is the fixed
    head, the quoted elements joined by commas, and the fixed tail; it
    holds no hyphen. *)
Theorem subscribe_payload_lists_the_symbols_without_hyphens self :
  Forall (fun s => json_safe s = true) (symbols self) ->
  json_loads (get_pairs_payload self)
  = Val (JObject [("method", JString "SUBSCRIBE");
                  ("params", JArray (map (fun s => JString (str_remove "-" s +:+ "@ticker"))
                                         (symbols self)));
                  ("id", JInt 1)]) /\
  get_pairs_payload self
  = payload_head
    +:+ join ","
          (map (fun s => String dquote (str_remove "-" s +:+ "@ticker" +:+ String dquote EmptyString))
               (symbols self))
    +:+ payload_tail /\
  no_hyphen (get_pairs_payload self) = true.
Proof.
  intros Hsafe. split; [|split].
  - rewrite get_pairs_payload_text, <- (map_map stream quoted).
    erewrite (loads_payload _ (JArray (map JString (map stream (symbols self))))
                (2 * length (map stream (symbols self)))).
    + rewrite map_map. reflexivity.
    + apply length_join_quoted.
    + intros fuel depth rest Hfuel. apply scan_once_strings.
      * apply Forall_map. eapply Forall_impl; [exact Hsafe|]. intros s. apply stream_safe.
      * lia.
  - reflexivity.
  - rewrite get_pairs_payload_text. unfold no_hyphen. rewrite !str_forall_app.
    change (str_forall _ payload_head) with true. change (str_forall _ payload_tail) with true.
    rewrite andb_true_r. cbn [andb]. apply join_no_hyphen.
    apply Forall_map, Forall_forall. intros s _. unfold quoted, stream, no_hyphen.
    cbn [str_forall]. rewrite !str_forall_app, str_remove_absent. reflexivity.
Qed.

Lemma subscribe_payload_lists_the_symbols_without_hyphens_example :
  json_loads (get_pairs_payload example_socket)
  = Val (JObject [("method", JString "SUBSCRIBE");
                  ("params", JArray (map (fun s => JString (str_remove "-" s +:+ "@ticker"))
                                         (symbols example_socket)));
                  ("id", JInt 1)]) /\
  get_pairs_payload example_socket
  = payload_head
    +:+ join ","
          (map (fun s => String dquote (str_remove "-" s +:+ "@ticker" +:+ String dquote EmptyString))
               (symbols example_socket))
    +:+ payload_tail /\
  no_hyphen (get_pairs_payload example_socket) = true.
Proof.
  apply (subscribe_payload_lists_the_symbols_without_hyphens example_socket).
  repeat constructor.
Defined.

(** * Further properties of the two programs *)

(** ** Construction *)

Lemma split_cons sep s : exists x xs, split sep s = x :: xs.
Proof.
  induction s as [|c s (x & xs & IH)]; [eexists _, _; reflexivity|].
  cbn [split]. destruct (c =? sep)%char; [eexists _, _; reflexivity|].
  rewrite IH. eexists _, _; reflexivity.
Qed.

Lemma split_empty_piece sep s : split sep s = [EmptyString] <-> s = EmptyString.
Proof.
  split; [|intros ->; reflexivity].
  destruct s as [|c s]; [reflexivity|]. cbn [split].
  destruct (split_cons sep s) as (x & xs & ->).
  destruct (c =? sep)%char; discriminate.
Qed.

Lemma join_split sep s : join (String sep EmptyString) (split sep s) = s.
Proof.
  induction s as [|c s IH]; [reflexivity|]. cbn [split].
  destruct (split_cons sep s) as (x & xs & Hs). rewrite Hs in *.
  destruct (Ascii.eqb_spec c sep) as [->|Hne].
  - rewrite join_cons, IH. reflexivity.
  - destruct xs as [|y ys]; [cbn [join] in *; congruence|].
    rewrite join_cons in *. rewrite str_app_cons. congruence.
Qed.

Lemma length_split sep s : length (split sep s) = S (str_count sep s).
Proof.
  induction s as [|c s IH]; [reflexivity|]. cbn [split str_count].
  destruct (c =? sep)%char.
  - cbn [length]. rewrite IH. reflexivity.
  - destruct (split_cons sep s) as (x & xs & Hs). rewrite Hs in *. exact IH.
Qed.

(** X1.  [__init__] raises [ValueError] exactly when [SYMBOLS] is empty or
    unset, or [TOGGLE_RATE] is no integer or is not positive; the first
    test of its guard never fires, since [split] returns at least one
    piece.  Otherwise it returns the instance with an empty store, the
    counter at zero and the first piece as current symbol; the pieces,
    empty ones included, joined by commas are the text of [SYMBOLS], and
    there is one more of them than it has commas. *)
Theorem init_refuses_only_the_empty_list_and_a_bad_rate SYMBOLS rate ui :
  match init SYMBOLS rate ui with
  | Val self =>
      SYMBOLS <> EmptyString /\
      (exists first rest,
          split "," SYMBOLS = first :: rest /\
          self = fresh_instance first rest (refresh self) ui) /\
      rate = Some (refresh self) /\ (0 < refresh self)%Z /\
      join "," (symbols self) = SYMBOLS /\
      length (symbols self) = S (str_count "," SYMBOLS)
  | Exc e =>
      e = ValueError /\
      (SYMBOLS = EmptyString \/ rate = None \/ exists r, rate = Some r /\ (r <= 0)%Z)
  | NoModel => False
  end.
Proof.
  unfold init.
  destruct (split_cons "," SYMBOLS) as (first & rest & Hsplit).
  pose proof (split_empty_piece "," SYMBOLS) as Hempty.
  pose proof (join_split "," SYMBOLS) as Hjoin.
  pose proof (length_split "," SYMBOLS) as Hlen.
  rewrite Hsplit in *.
  rewrite (bool_decide_eq_false_2 (first :: rest = [])) by discriminate.
  cbn [orb].
  destruct (bool_decide_reflect (first :: rest = [EmptyString])) as [Heq|Hne].
  { split; [reflexivity|]. left. apply Hempty, Heq. }
  destruct rate as [r|]; [|split; [reflexivity|auto]].
  destruct (Z.leb_spec r 0) as [Hr|Hr]; [split; [reflexivity|eauto]|].
  cbn. repeat split; try assumption.
  - intros ->. apply Hne, Hempty. reflexivity.
  - exists first, rest. split; reflexivity.
Qed.

Lemma init_raises SYMBOLS rate ui e : init SYMBOLS rate ui = Exc e -> e = ValueError.
Proof.
  unfold init. destruct (_ || _); [congruence|].
  destruct rate as [r|]; [|congruence].
  destruct (r <=? 0)%Z; [congruence|].
  destruct (split_cons "," SYMBOLS) as (x & xs & ->). discriminate.
Qed.

Lemma init_modelled SYMBOLS rate ui : init SYMBOLS rate ui <> NoModel.
Proof.
  unfold init. destruct (_ || _); [congruence|].
  destruct rate as [r|]; [|congruence].
  destruct (r <=? 0)%Z; [congruence|].
  destruct (split_cons "," SYMBOLS) as (x & xs & ->). discriminate.
Qed.

(** X2.  The console program checks the configuration before the display:
    a bad configuration raises [ValueError] whatever the mode; a good one
    raises [ImportError] exactly when the window is asked for and Tkinter
    is missing.  Otherwise the instance is the one of the shared
    constructor, with the screen cleared once in console mode and nothing
    written in window mode. *)
Theorem console_init_checks_the_configuration_first SYMBOLS rate ui tk :
  match Console.init SYMBOLS rate ui tk with
  | Val self =>
      (ui = true -> tk = true) /\
      exists self0,
        init SYMBOLS rate ui = Val self0 /\
        self = (if ui then self0
                else emit (Stdout (String (ascii_of_N 27) "[H" +:+ String (ascii_of_N 27) "[J"))
                          self0)
  | Exc e =>
      (e = ValueError /\ init SYMBOLS rate ui = Exc ValueError) \/
      (e = ImportError /\ ui = true /\ tk = false /\
       exists self0, init SYMBOLS rate ui = Val self0)
  | NoModel => False
  end.
Proof.
  unfold Console.init.
  pose proof (init_raises SYMBOLS rate ui) as Hr.
  pose proof (init_modelled SYMBOLS rate ui) as Hm.
  destruct (init SYMBOLS rate ui) as [self0|e|]; [| |congruence].
  - cbn. destruct ui, tk; cbn; eauto 10.
  - rewrite (Hr e eq_refl). cbn. auto.
Qed.

(** ** Message handling *)

Lemma Decimal_of_str_exception s e : Decimal_of_str s = Exc e -> e = InvalidOperation.
Proof.
  unfold Decimal_of_str.
  repeat match goal with
  | |- context [if ?b then _ else _] => destruct b
  | |- context [match ?x with EmptyString => _ | String _ _ => _ end] => destruct x
  | |- context [match ?x with Some _ => _ | None => _ end] => destruct x
  | |- context [let '(_, _) := ?x in _] => destruct x
  end; congruence.
Qed.

Lemma Decimal_exception v e :
  Decimal v = Exc e -> e = TypeError \/ e = InvalidOperation \/ e = ValueError.
Proof.
  destruct v; simpl; try congruence; try (intros [= <-]; auto).
  - intros H. right; left. eapply Decimal_of_str_exception, H.
  - intros H. right; right. eapply Decimal_of_sequence_raises, H.
Qed.

Lemma ticker_frame_stored self :
  handle_message ticker_frame self
  = Returns tt (set_data (<[KStr "BTCUSDT" := btc_snapshot]> (data self)) self).
Proof.
  apply handle_message_ticker with
    (members := [("s", JString "BTCUSDT"); ("c", JString "50000.00");
                 ("P", JString "1.2345"); ("v", JString "10"); ("q", JString "500000")]).
  - vm_compute. reflexivity.
  - reflexivity.
  - exists (JString "1.2345"), {| d_sign := false; d_int := 12345; d_exp := -4; d_special := DFinite |}.
    repeat split; vm_compute; reflexivity.
  - reflexivity.
Qed.

(** X3.  A frame that is JSON but no object is never stored and never
    logged.  An array with the element ["id"] and a text containing [id]
    pass the test ['id' in data] and are ignored like an acknowledgement;
    every other value raises [TypeError], at the test or at the first
    subscript, which [handle_message] does not catch. *)
Theorem frame_that_is_no_object_is_ignored_or_raises msg v self :
  json_loads msg = Val v ->
  (forall members, v <> JObject members) ->
  handle_message msg self =
  match contains_id v with
  | Val true => Returns tt self
  | _ => Raises TypeError self
  end.
Proof.
  intros Hloads Hobj.
  unfold handle_message, try_except. rewrite lift_bind, Hloads, lift_bind.
  destruct v as [|b|n|lit|s|items|members]; cbn [contains_id]; try reflexivity.
  - destruct (str_contains "id" s); reflexivity.
  - destruct (existsb _ items); reflexivity.
  - destruct (Hobj members eq_refl).
Qed.

Lemma frame_that_is_no_object_is_ignored_or_raises_example :
  handle_message "[1,2]" example_socket = Raises TypeError example_socket /\
  handle_message "null" example_socket = Raises TypeError example_socket /\
  handle_message (qq "'paid'") example_socket = Returns tt example_socket.
Proof.
  split; [|split].
  - apply (frame_that_is_no_object_is_ignored_or_raises "[1,2]" (JArray [JInt 1; JInt 2])
             example_socket); [vm_compute; reflexivity|discriminate].
  - apply (frame_that_is_no_object_is_ignored_or_raises "null" JNull example_socket);
      [vm_compute; reflexivity|discriminate].
  - apply (frame_that_is_no_object_is_ignored_or_raises (qq "'paid'") (JString "paid")
             example_socket); [vm_compute; reflexivity|discriminate].
Defined.

(** X4.  When [handle_message] raises, the instance is exactly as it was,
    log included; the exception is not [JSONDecodeError], and if it is a
    [KeyError] it is that of one of the five fields. *)
Theorem handle_message_raises_with_the_instance_untouched msg self :
  match handle_message msg self with
  | Raises e self' =>
      self' = self /\ e <> JSONDecodeError /\
      (forall k, e = KeyError k -> In k ticker_fields)
  | _ => True
  end.
Proof.
  unfold ticker_fields.
  destruct (json_loads msg) as [data|e|] eqn:Hloads.
  2: { destruct (json_loads_raises _ _ Hloads) as [-> | ->].
       - rewrite (handle_message_malformed _ _ Hloads). exact I.
       - rewrite (handle_message_decoder_raises _ _ _ Hloads) by discriminate.
         repeat split; discriminate. }
  2: { unfold handle_message, try_except. rewrite lift_bind, Hloads. exact I. }
  unfold handle_message, try_except. rewrite lift_bind, Hloads.
  lift_step; [| |exact I].
  2: { destruct data; cbn [contains_id] in Hcall; try discriminate;
         revert Hcall; intros [= <-]; cbn; repeat split; discriminate. }
  destruct a; cbn [negb]; [exact I|].
  destruct data as [|b|n|lit|s|items|members];
    try (rewrite lift_bind; cbn [getitem]; repeat split; discriminate).
  clear Hcall.
  rewrite getitem_bind.
  destruct (dict_get "P" members) as [P|] eqn:HP;
    [|repeat split; [discriminate|intros k [= <-]; cbn; auto]].
  lift_step; [| |exact I].
  2: { destruct (Decimal_exception _ _ Hcall) as [-> | [-> | ->]]; cbn;
         repeat split; discriminate. }
  rewrite getitem_bind.
  destruct (dict_get "c" members) as [c|] eqn:Hc;
    [|repeat split; [discriminate|intros k [= <-]; cbn; auto]].
  rewrite getitem_bind.
  destruct (dict_get "v" members) as [v|] eqn:Hv;
    [|repeat split; [discriminate|intros k [= <-]; cbn; auto]].
  rewrite getitem_bind.
  destruct (dict_get "s" members) as [s|] eqn:Hs;
    [|repeat split; [discriminate|intros k [= <-]; cbn; auto 6]].
  rewrite getitem_bind.
  destruct (dict_get "q" members) as [q|] eqn:Hq;
    [|repeat split; [discriminate|intros k [= <-]; cbn; auto 7]].
  rewrite getitem_bind, Hs.
  lift_step; [exact I| |exact I].
  destruct s; cbn [hash_key] in Hcall0; try discriminate;
    revert Hcall0; intros [= <-]; cbn; repeat split; discriminate.
Qed.

Example exceptions_of_handle_message :
  handle_message incomplete_frame example_socket = Raises (KeyError "P") example_socket /\
  handle_message (qq "{'P':[1,2]}") example_socket = Raises ValueError example_socket /\
  handle_message (qq "{'P':[0,[1,2],-1],'c':1}") example_socket
  = Raises (KeyError "v") example_socket /\
  handle_message (qq "{'P':'x'}") example_socket = Raises InvalidOperation example_socket /\
  handle_message (qq "{'P':null}") example_socket = Raises TypeError example_socket /\
  handle_message oversized_frame example_socket = Raises ValueError example_socket.
Proof. repeat split; vm_compute; reflexivity. Qed.

(** X5.  Handling a frame a second time changes nothing, unless the frame
    is one that is logged as undecodable: after the first call has
    returned, a second call with the same message returns with the
    instance as the first one left it. *)
Theorem handling_a_frame_again_changes_nothing msg self :
  match handle_message msg self with
  | Returns _ self' =>
      self' = decode_error_logged self \/ handle_message msg self' = Returns tt self'
  | _ => True
  end.
Proof.
  pose proof (handle_message_cases msg self) as H.
  destruct (handle_message msg self) as [[] self'|e self'|] eqn:Hrun; [|exact I..].
  destruct H as [->|[->|(members & key & snap & H1 & H2 & H3 & H4 & ->)]]; auto.
  right. rewrite (handle_message_ticker msg members snap key _ H1 H2 H3 H4).
  cbn [data set_data]. rewrite insert_insert_eq. reflexivity.
Qed.

(** X6.  Two ticker frames handled one after the other leave both
    snapshots in the store, the second one replacing the first when they
    have the same symbol; every other entry and the log are as before; and
    when the symbols differ the order of the two frames does not
    matter. *)
Theorem later_frame_wins_and_distinct_symbols_commute
    msg1 members1 snap1 key1 msg2 members2 snap2 key2 self :
  json_loads msg1 = Val (JObject members1) -> dict_get "id" members1 = None ->
  snapshot_of members1 snap1 -> hash_key (symbol snap1) = Val key1 ->
  json_loads msg2 = Val (JObject members2) -> dict_get "id" members2 = None ->
  snapshot_of members2 snap2 -> hash_key (symbol snap2) = Val key2 ->
  exists self',
    (handle_message msg1;; handle_message msg2) self = Returns tt self' /\
    data self' !! key2 = Some snap2 /\
    data self' !! key1 = Some (if decide (key1 = key2) then snap2 else snap1) /\
    (forall k, k <> key1 -> k <> key2 -> data self' !! k = data self !! k) /\
    effects self' = effects self /\
    (key1 <> key2 -> (handle_message msg2;; handle_message msg1) self = Returns tt self').
Proof.
  intros L1 I1 S1 K1 L2 I2 S2 K2.
  exists (set_data (<[key2 := snap2]> (<[key1 := snap1]> (data self))) self).
  assert (Hrun : forall m1 mem1 s1 k1 m2 mem2 s2 k2,
            json_loads m1 = Val (JObject mem1) -> dict_get "id" mem1 = None ->
            snapshot_of mem1 s1 -> hash_key (symbol s1) = Val k1 ->
            json_loads m2 = Val (JObject mem2) -> dict_get "id" mem2 = None ->
            snapshot_of mem2 s2 -> hash_key (symbol s2) = Val k2 ->
            (handle_message m1;; handle_message m2) self
            = Returns tt (set_data (<[k2 := s2]> (<[k1 := s1]> (data self))) self)).
  { intros m1 mem1 s1 k1 m2 mem2 s2 k2 A1 A2 A3 A4 B1 B2 B3 B4.
    unfold mbind, M_bind.
    rewrite (handle_message_ticker m1 mem1 s1 k1 _ A1 A2 A3 A4).
    rewrite (handle_message_ticker m2 mem2 s2 k2 _ B1 B2 B3 B4). reflexivity. }
  split; [eapply Hrun; eassumption|].
  cbn [data set_data effects].
  split; [apply lookup_insert_eq|].
  split.
  { destruct (decide (key1 = key2)) as [->|Hne]; [apply lookup_insert_eq|].
    rewrite lookup_insert_ne by congruence. apply lookup_insert_eq. }
  split; [intros k Hk1 Hk2; rewrite !lookup_insert_ne by congruence; reflexivity|].
  split; [reflexivity|].
  intros Hne. rewrite (Hrun msg2 members2 snap2 key2 msg1 members1 snap1 key1) by assumption.
  rewrite insert_insert_ne by congruence. reflexivity.
Qed.

Lemma later_frame_wins_and_distinct_symbols_commute_example :
  exists self',
    (handle_message ticker_frame;; handle_message eth_frame) example_socket = Returns tt self' /\
    data self' !! KStr "ETHUSDT" = Some eth_snapshot /\
    data self' !! KStr "BTCUSDT"
      = Some (if decide (KStr "BTCUSDT" = KStr "ETHUSDT") then eth_snapshot else btc_snapshot) /\
    (forall k, k <> KStr "BTCUSDT" -> k <> KStr "ETHUSDT" ->
               data self' !! k = data example_socket !! k) /\
    effects self' = effects example_socket /\
    (KStr "BTCUSDT" <> KStr "ETHUSDT" ->
     (handle_message eth_frame;; handle_message ticker_frame) example_socket = Returns tt self').
Proof.
  apply (later_frame_wins_and_distinct_symbols_commute
           ticker_frame
           [("s", JString "BTCUSDT"); ("c", JString "50000.00"); ("P", JString "1.2345");
            ("v", JString "10"); ("q", JString "500000")] btc_snapshot (KStr "BTCUSDT")
           eth_frame
           [("s", JString "ETHUSDT"); ("c", JString "3000.10"); ("P", JString "-0.5");
            ("v", JString "7"); ("q", JString "21000")] eth_snapshot (KStr "ETHUSDT")
           example_socket).
  - vm_compute. reflexivity.
  - reflexivity.
  - exists (JString "1.2345"), {| d_sign := false; d_int := 12345; d_exp := -4; d_special := DFinite |}.
    repeat split; vm_compute; reflexivity.
  - reflexivity.
  - vm_compute. reflexivity.
  - reflexivity.
  - exists (JString "-0.5"), {| d_sign := true; d_int := 5; d_exp := -1; d_special := DFinite |}.
    repeat split; vm_compute; reflexivity.
  - reflexivity.
Defined.

(** ** What holds of every instance the calls can reach *)

Section Reach.
Variable R : BinanceSocket -> BinanceSocket -> Prop.
Hypothesis R_refl : forall s, R s s.
Hypothesis R_trans : forall a b c, R a b -> R b c -> R a c.
Hypothesis R_calls : forall c, preserves R (invoke c).

Lemma reachable_related a b : reachable a b -> R a b.
Proof.
  induction 1 as [s|s1 s2 s3 [c Hc] _ IH]; [apply R_refl|].
  apply R_trans with s2; [|exact IH].
  specialize (R_calls c s1). destruct (invoke c s1) as [? s|? s|]; [subst s..|contradiction];
    exact R_calls.
Qed.
End Reach.

Lemma calls_reach cs : forall a b, for_each cs invoke a = Returns tt b -> reachable a b.
Proof.
  induction cs as [|c cs IH]; intros a b; cbn [for_each].
  - intros [= <-]. apply rtc_refl.
  - unfold mbind, M_bind. destruct (invoke c a) as [[] s|e s|] eqn:Hc; try discriminate.
    intros H. apply rtc_l with s; [exists c; rewrite Hc; reflexivity|apply IH, H].
Qed.

Lemma stored_socket_reachable : reachable example_socket stored_socket.
Proof. apply (calls_reach [Handle ticker_frame]). vm_compute. reflexivity. Qed.

Lemma busy_socket_reachable : reachable stored_socket busy_socket.
Proof.
  apply (calls_reach [MatrixTicker; Toggle; Handle truncated_frame; Handle eth_frame]).
  vm_compute. reflexivity.
Qed.

Lemma example_to_busy : reachable example_socket busy_socket.
Proof.
  unfold reachable. transitivity stored_socket;
    [apply stored_socket_reachable|apply busy_socket_reachable].
Qed.

(** As [preserves_with], with the lemmas of the context tried first. *)
Ltac preserves_using tac :=
  repeat first
    [ assumption
    | match goal with H : forall x, preserves _ _ |- _ => simple apply H end
    | apply preserves_ret; assumption
    | apply preserves_lift; assumption
    | apply preserves_raise; assumption
    | apply preserves_raise_if; assumption
    | apply preserves_get; assumption
    | apply preserves_modify; solve [tac]
    | apply preserves_bind; [assumption| |intros]
    | apply preserves_try_except; [assumption| |intros ? ?]
    | apply preserves_for_each; [assumption|assumption|intros]
    | match goal with
      | |- preserves _ (if ?b then _ else _) => destruct b
      | |- preserves _ (match ?x with Some _ => _ | None => _ end) => destruct x
      | |- preserves _ (let '(_, _) := ?x in _) => destruct x
      | |- match ?e with JSONDecodeError => _ | _ => _ end = Some _ -> _ =>
          destruct e; intros [= <-]
      end ].

(** The bodies behind the calls, down to their [modify] steps. *)
Ltac unfold_calls :=
  unfold toggle_symbol, handle_message, data_setitem, Matrix.run_ticker,
    Matrix.render_ticker_canvas, Console.run_ticker,
    Console.update_console, Console.clear_console, Console.update_ui.

Lemma same_configuration_refl s : same_configuration s s.
Proof. repeat split. Qed.

Lemma same_configuration_trans a b c :
  same_configuration a b -> same_configuration b c -> same_configuration a c.
Proof. intros (?&?&?) (?&?&?). repeat split; congruence. Qed.

Lemma calls_keep_configuration c : preserves same_configuration (invoke c).
Proof.
  pose proof same_configuration_refl; pose proof same_configuration_trans.
  destruct c; cbn [invoke]; unfold_calls; unfold Matrix.get_volume_text;
    preserves_with ltac:(intros; repeat split).
Qed.

(** X7.  No call changes the configuration: in every instance reached
    from another one, the symbol list, the rate and the display mode are
    the same, and so is the subscription payload, which depends on the
    symbol list alone. *)
Theorem configuration_is_never_modified self0 self :
  reachable self0 self ->
  symbols self = symbols self0 /\ refresh self = refresh self0 /\ use_ui self = use_ui self0 /\
  get_pairs_payload self = get_pairs_payload self0.
Proof.
  intros Hreach.
  destruct (reachable_related same_configuration same_configuration_refl
              same_configuration_trans calls_keep_configuration _ _ Hreach) as (Hs & Hr & Hu).
  repeat split; try assumption. unfold get_pairs_payload. rewrite Hs. reflexivity.
Qed.

Lemma configuration_is_never_modified_example :
  symbols busy_socket = symbols example_socket /\
  refresh busy_socket = refresh example_socket /\
  use_ui busy_socket = use_ui example_socket /\
  get_pairs_payload busy_socket = get_pairs_payload example_socket.
Proof.
  apply (configuration_is_never_modified example_socket busy_socket).
  exact example_to_busy.
Defined.

Lemma keeps_keys_refl s : keeps_keys s s.
Proof. intros k H. exact H. Qed.

Lemma keeps_keys_trans a b c : keeps_keys a b -> keeps_keys b c -> keeps_keys a c.
Proof. intros H1 H2 k H. apply H2, H1, H. Qed.

Lemma calls_keep_keys c : preserves keeps_keys (invoke c).
Proof.
  pose proof keeps_keys_refl; pose proof keeps_keys_trans.
  destruct c; cbn [invoke]; unfold_calls; unfold Matrix.get_volume_text;
    preserves_with ltac:(let Hk := fresh in
                         intros ? ? Hk; fields;
                         first [exact Hk | apply lookup_insert_is_Some'; right; exact Hk]).
Qed.

(** X8.  The store never loses an entry: a key present at some point is
    present in every instance reached from there, whatever frames arrive
    and whatever the timers do.  Entries are replaced, never removed. *)
Theorem store_never_loses_a_key self0 self k :
  reachable self0 self -> is_Some (data self0 !! k) -> is_Some (data self !! k).
Proof.
  intros Hreach.
  apply (reachable_related keeps_keys keeps_keys_refl keeps_keys_trans calls_keep_keys _ _ Hreach).
Qed.

Lemma store_never_loses_a_key_example : is_Some (data busy_socket !! KStr "BTCUSDT").
Proof.
  apply (store_never_loses_a_key stored_socket busy_socket (KStr "BTCUSDT")).
  - apply busy_socket_reachable.
  - exists btc_snapshot. vm_compute. reflexivity.
Defined.

(** *** The counter of [get_volume_text] *)

Lemma get_volume_text_returns d self :
  (refresh self <= 2 ^ 53)%Z ->
  millify_accepts (if (refresh self <=? 2 * ctr self)%Z then vol d else quote d) = Val tt ->
  Matrix.get_volume_text d self =
  Returns (if (refresh self <=? 2 * ctr self)%Z then ("B:", vol d) else ("Q:", quote d))
          (set_ctr (if (ctr self =? refresh self)%Z then 1 else ctr self + 1) self).
Proof.
  intros Hrate Hacc. unfold Matrix.get_volume_text. rewrite get_bind.
  destruct (Z.ltb_spec (2 ^ 53) (refresh self)) as [Hbig|_]; [lia|].
  rewrite lift_bind.
  replace (millify_accepts _) with (@Val unit tt)
    by (rewrite <- Hacc; destruct (_ <=? _)%Z; reflexivity).
  destruct (ctr self =? refresh self)%Z; reflexivity.
Qed.

Lemma get_volume_text_cases d self :
  match Matrix.get_volume_text d self with
  | Returns vol_txt self' =>
      vol_txt = (if (refresh self <=? 2 * ctr self)%Z then ("B:", vol d) else ("Q:", quote d)) /\
      self' = set_ctr (if (ctr self =? refresh self)%Z then 1 else ctr self + 1) self
  | Raises _ _ => False
  | Unmodelled => True
  end.
Proof.
  unfold Matrix.get_volume_text. rewrite get_bind.
  destruct (2 ^ 53 <? refresh self)%Z; [exact I|].
  rewrite lift_bind.
  destruct (millify_accepts _) as [[]| |] eqn:Hacc; [| |exact I].
  - destruct (ctr self =? refresh self)%Z; split; reflexivity.
  - revert Hacc. unfold millify_accepts.
    destruct (snd _); try discriminate. destruct (_ && _); discriminate.
Qed.

Lemma keeps_counter_refl s : keeps_counter_in_range s s.
Proof. split; auto. Qed.

Lemma keeps_counter_trans a b c :
  keeps_counter_in_range a b -> keeps_counter_in_range b c -> keeps_counter_in_range a c.
Proof. intros [? ?] [? ?]. split; [congruence|auto]. Qed.

Lemma get_volume_text_counter d : preserves keeps_counter_in_range (Matrix.get_volume_text d).
Proof.
  intros self. pose proof (get_volume_text_cases d self) as H.
  destruct (Matrix.get_volume_text d self) as [lbl s|e s|]; [|contradiction|exact I].
  destruct H as [_ ->]. split; [reflexivity|]. unfold counter_in_range. fields.
  destruct (Z.eqb_spec (ctr self) (refresh self)); cbv iota; lia.
Qed.

Lemma calls_keep_counter c : preserves keeps_counter_in_range (invoke c).
Proof.
  pose proof keeps_counter_refl; pose proof keeps_counter_trans.
  pose proof get_volume_text_counter.
  destruct c; cbn [invoke]; unfold_calls;
    preserves_using ltac:(intros ?; split; [reflexivity|];
                          unfold counter_in_range; fields; lia).
Qed.

(** X9.  In every instance reached from [__init__] the counter lies
    between zero and the rate, and the rate is the configured one:
    [get_volume_text] takes it from the rate back to one, [toggle_symbol]
    sets it to zero, and nothing else writes it. *)
Theorem counter_stays_within_the_rate SYMBOLS rate ui self0 self :
  init SYMBOLS rate ui = Val self0 ->
  reachable self0 self ->
  (0 <= ctr self <= refresh self)%Z /\ rate = Some (refresh self).
Proof.
  intros Hinit Hreach.
  destruct (reachable_related keeps_counter_in_range keeps_counter_refl keeps_counter_trans
              calls_keep_counter _ _ Hreach) as [Hrate Hin].
  revert Hinit. unfold init.
  destruct (_ || _); [discriminate|].
  destruct rate as [r|]; [|discriminate].
  destruct (Z.leb_spec r 0); [discriminate|].
  destruct (cycle_next _) as [[first c]| |]; cbn; try discriminate.
  intros [= <-]. cbn in *. split; [|congruence].
  refine (proj2 (Hin _)). unfold counter_in_range. cbn. lia.
Qed.

Lemma counter_stays_within_the_rate_example :
  (0 <= ctr busy_socket <= refresh busy_socket)%Z /\ Some 2%Z = Some (refresh busy_socket).
Proof.
  apply (counter_stays_within_the_rate "BTC-USDT,ETH-USDT" (Some 2%Z) false
           example_socket busy_socket).
  - reflexivity.
  - exact example_to_busy.
Defined.

Lemma volume_labels_from n d : forall self,
  (0 <= ctr self)%Z -> (ctr self + Z.of_nat n <= refresh self + 1)%Z ->
  (refresh self <= 2 ^ 53)%Z ->
  millify_accepts (vol d) = Val tt -> millify_accepts (quote d) = Val tt ->
  volume_labels n d self
  = map (fun i => volume_label (refresh self) (ctr self + Z.of_nat i)) (seq 0 n).
Proof.
  induction n as [|n IH]; intros self Hc Hn Hrate Hv Hq; [reflexivity|].
  cbn [volume_labels].
  rewrite get_volume_text_returns by (try assumption; destruct (_ <=? _)%Z; assumption).
  cbn [seq map]. rewrite Z.add_0_r. f_equal.
  { unfold volume_label. destruct (_ <=? _)%Z; reflexivity. }
  destruct (Z.eqb_spec (ctr self) (refresh self)) as [Heq|Hne].
  { assert (n = 0) as -> by lia. reflexivity. }
  rewrite IH by (fields; assumption || lia). fields.
  rewrite <- seq_shift, map_map. apply map_ext. intros i. f_equal. lia.
Qed.

(** X10.  After the counter was reset, the first calls of
    [get_volume_text], up to as many as the rate, label the quote volume
    ([Q:]) as long as twice their number is below the rate and the base
    volume ([B:]) from then on: the quote volume shows during the first
    half of a rotation period, the base volume during the second. *)
Theorem quote_volume_shows_first_then_base_volume n d self :
  ctr self = 0%Z -> (Z.of_nat n <= refresh self <= 2 ^ 53)%Z ->
  millify_accepts (vol d) = Val tt -> millify_accepts (quote d) = Val tt ->
  volume_labels n d self
  = map (fun i => if (refresh self <=? 2 * Z.of_nat i)%Z then "B:" else "Q:") (seq 0 n).
Proof.
  intros Hc Hn Hv Hq.
  rewrite volume_labels_from by (try assumption; lia).
  apply map_ext. intros i. unfold volume_label. rewrite Hc. reflexivity.
Qed.

Lemma quote_volume_shows_first_then_base_volume_example :
  volume_labels 2 btc_snapshot example_socket
  = map (fun i => if (refresh example_socket <=? 2 * Z.of_nat i)%Z then "B:" else "Q:")
        (seq 0 2).
Proof.
  apply (quote_volume_shows_first_then_base_volume 2 btc_snapshot example_socket).
  - reflexivity.
  - vm_compute. split; discriminate.
  - reflexivity.
  - reflexivity.
Defined.

Example volume_labels_of_a_period :
  volume_labels 2 btc_snapshot example_socket = ["Q:"; "B:"].
Proof. reflexivity. Qed.

(** ** Presentation *)

Lemma span_app p (a : string) c r :
  str_forall p a = true -> p c = false ->
  span p (a +:+ String c r) = (a, String c r).
Proof.
  intros Ha Hc. induction a as [|x a IH].
  - change (EmptyString +:+ String c r) with (String c r). cbn [span]. rewrite Hc. reflexivity.
  - cbn [str_forall] in Ha. apply andb_true_iff in Ha as [Hx Ha].
    rewrite str_app_cons. cbn [span]. rewrite Hx, (IH Ha). reflexivity.
Qed.

Lemma span_all p (a : string) : str_forall p a = true -> span p a = (a, EmptyString).
Proof.
  induction a as [|x a IH]; [reflexivity|]. cbn [str_forall span].
  intros [Hx Ha]%andb_true_iff. rewrite Hx, (IH Ha). reflexivity.
Qed.

(** *** The stored change as an argument of [float] *)

Lemma solid_char_digit c : is_digit c = true -> solid_char c = true.
Proof. destruct c as [[] [] [] [] [] [] [] []]; vm_compute; congruence. Qed.

Lemma solid_char_spec c :
  solid_char c = true -> is_ascii c = true /\ is_c_space c = false /\ (c =? "_")%char = false.
Proof. destruct c as [[] [] [] [] [] [] [] []]; vm_compute; intros; repeat split; congruence. Qed.

Lemma str_forall_impl (p q : ascii -> bool) s :
  (forall c, p c = true -> q c = true) -> str_forall p s = true -> str_forall q s = true.
Proof.
  intros Hpq. induction s as [|c s IH]; [reflexivity|]. cbn [str_forall].
  intros [Hc Hs]%andb_true_iff. rewrite (Hpq c Hc). auto.
Qed.

Lemma solid_ascii s : str_forall solid_char s = true -> str_forall is_ascii s = true.
Proof. apply str_forall_impl. intros c Hc. apply (solid_char_spec c Hc). Qed.

Lemma rstrip_solid s : str_forall solid_char s = true -> rstrip_c s = s.
Proof.
  induction s as [|c s IH]; [reflexivity|]. cbn [str_forall rstrip_c].
  intros [Hc Hs]%andb_true_iff. rewrite (IH Hs).
  destruct (solid_char_spec c Hc) as (_ & -> & _). destruct s; reflexivity.
Qed.

Lemma strip_solid s : str_forall solid_char s = true -> rstrip_c (lstrip_c s) = s.
Proof.
  intros H.
  assert (lstrip_c s = s) as ->; [|exact (rstrip_solid s H)].
  destruct s as [|c s]; [reflexivity|]. cbn [str_forall] in H.
  apply andb_true_iff in H as [Hc _].
  cbn [lstrip_c]. destruct (solid_char_spec c Hc) as (_ & -> & _). reflexivity.
Qed.

Lemma underscores_ok_solid s b : str_forall solid_char s = true -> underscores_ok b s = true.
Proof.
  revert b. induction s as [|c s IH]; intros b; [reflexivity|]. cbn [str_forall underscores_ok].
  intros [Hc Hs]%andb_true_iff. destruct (solid_char_spec c Hc) as (_ & _ & ->). auto.
Qed.

Lemma str_remove_solid s : str_forall solid_char s = true -> str_remove "_" s = s.
Proof.
  induction s as [|c s IH]; [reflexivity|]. cbn [str_forall str_remove].
  intros [Hc Hs]%andb_true_iff. destruct (solid_char_spec c Hc) as (_ & _ & ->).
  rewrite (IH Hs). reflexivity.
Qed.

(** What [float_syntax] comes to on a text without blanks and
    underscores. *)
Lemma float_syntax_solid s :
  str_forall solid_char s = true ->
  float_syntax s =
  let s1 :=
    match s with
    | String c r => if (c =? "-")%char || (c =? "+")%char then r else s
    | EmptyString => s
    end in
  let t := str_map to_lower s1 in
  if String.eqb t "inf" || String.eqb t "infinity" || String.eqb t "nan" then true
  else
    let '(intpart, s2) := span is_digit s1 in
    let '(fracpart, s3) :=
      match s2 with
      | String c r => if (c =? ".")%char then span is_digit r else (EmptyString, s2)
      | EmptyString => (EmptyString, s2)
      end in
    match intpart +:+ fracpart, decimal_exp s3 with
    | String _ _, Some _ => true
    | _, _ => false
    end.
Proof.
  intros H. unfold float_syntax.
  rewrite (strip_solid s H), (underscores_ok_solid s false H), (str_remove_solid s H).
  reflexivity.
Qed.

Lemma digit_is_no_letter i :
  is_digit i = true ->
  (i =? "-")%char || (i =? "+")%char = false /\
  (to_lower i =? "i")%char = false /\ (to_lower i =? "n")%char = false.
Proof. destruct i as [[] [] [] [] [] [] [] []]; vm_compute; intros; repeat split; congruence. Qed.

(** [float] accepts a sign followed by digits, a point and digits. *)
Lemma float_syntax_numeral (sign : bool) i ip fp :
  is_digit i = true -> str_forall is_digit ip = true -> str_forall is_digit fp = true ->
  let text := (if sign then "-" else EmptyString) +:+ String i ip +:+ "." +:+ fp in
  str_forall is_ascii text = true /\ float_syntax text = true.
Proof.
  intros Hi Hip Hfp text.
  assert (Hbody : str_forall solid_char (String i ip +:+ "." +:+ fp) = true).
  { rewrite !str_forall_app. cbn [str_forall].
    rewrite (solid_char_digit i Hi), !(str_forall_impl _ _ _ solid_char_digit) by assumption.
    reflexivity. }
  assert (Hsolid : str_forall solid_char text = true).
  { subst text. destruct sign; [|exact Hbody].
    change ("-" +:+ ?x) with (String "-" x). cbn [str_forall]. rewrite Hbody. reflexivity. }
  split; [exact (solid_ascii _ Hsolid)|].
  rewrite (float_syntax_solid _ Hsolid).
  destruct (digit_is_no_letter i Hi) as (Hsign & Hinf & Hnan).
  assert (Hs1 : match text with
                | String c r => if (c =? "-")%char || (c =? "+")%char then r else text
                | EmptyString => text
                end = String i (ip +:+ "." +:+ fp)).
  { subst text. destruct sign.
    - reflexivity.
    - change (EmptyString +:+ ?x) with x. rewrite str_app_cons, Hsign. reflexivity. }
  cbv zeta. rewrite Hs1. cbn [str_map String.eqb]. rewrite Hinf, Hnan. cbn [orb].
  rewrite <- str_app_cons.
  change ("." +:+ fp) with (String "." fp).
  rewrite (span_app is_digit (String i ip) "." fp); [|cbn [str_forall]; rewrite Hi; exact Hip|reflexivity].
  change ("." =? ".")%char with true. cbn iota.
  rewrite (span_all is_digit fp Hfp). rewrite str_app_cons. reflexivity.
Qed.

Lemma float_syntax_letters (sign : bool) (name payload : string) c :
  str_forall solid_char (String c name +:+ payload) = true ->
  is_digit c = false -> ((c =? "-") || (c =? "+") || (c =? "."))%char = false ->
  let s1 := String c name +:+ payload in
  let t := str_map to_lower s1 in
  float_syntax ((if sign then "-" else EmptyString) +:+ s1)
  = String.eqb t "inf" || String.eqb t "infinity" || String.eqb t "nan".
Proof.
  intros Hbody Hc Hsign s1 t.
  change (str_forall solid_char s1 = true) in Hbody.
  apply orb_false_iff in Hsign as [[Hm Hp]%orb_false_iff Hpt].
  assert (Hsolid : str_forall solid_char ((if sign then "-" else EmptyString) +:+ s1) = true).
  { destruct sign; [|exact Hbody].
    change ("-" +:+ ?x) with (String "-" x). cbn [str_forall]. rewrite Hbody. reflexivity. }
  rewrite (float_syntax_solid _ Hsolid). cbv zeta.
  assert (Hs1 : match (if sign then "-" else EmptyString) +:+ s1 with
                | String a r => if (a =? "-")%char || (a =? "+")%char
                                then r else (if sign then "-" else EmptyString) +:+ s1
                | EmptyString => (if sign then "-" else EmptyString) +:+ s1
                end = s1).
  { destruct sign.
    - reflexivity.
    - change (EmptyString +:+ ?x) with x. subst s1. rewrite str_app_cons, Hm, Hp. reflexivity. }
  rewrite Hs1. fold t. destruct (_ || _ || _); [reflexivity|].
  subst s1. rewrite str_app_cons. cbn [span]. rewrite Hc, Hpt. reflexivity.
Qed.

Lemma str_of_N_solid n : str_forall solid_char (str_of_N n) = true.
Proof. exact (str_forall_impl _ _ _ solid_char_digit (str_of_N_all_digits n)). Qed.

(** Whether [float] accepts the change [handle_message] stores: it does
    for a finite number, an infinity and a NaN without payload, and raises
    [ValueError] for a NaN with a payload and for a signaling NaN. *)
Lemma stored_change_converts d :
  float_converts (JString (format_4f d)) =
  match d_special d with
  | DFinite | DInf => Val tt
  | DQNaN => if (d_int d =? 0)%N then Val tt else Exc ValueError
  | DSNaN => Exc ValueError
  end.
Proof.
  destruct (d_special d) eqn:Hsp.
  - destruct (format_4f_shape d Hsp) as (ip & fp & -> & Hne & Hip & Hfp & _).
    destruct ip as [|i ip]; [congruence|].
    cbn [str_forall] in Hip. apply andb_true_iff in Hip as [Hi Hip].
    destruct (float_syntax_numeral (d_sign d) i ip fp Hi Hip Hfp) as [Hascii Hfloat].
    cbn [float_converts]. rewrite Hascii, Hfloat. reflexivity.
  - unfold format_4f. rewrite Hsp. destruct (d_sign d); reflexivity.
  - unfold format_4f. rewrite Hsp.
    destruct (N.eqb_spec (d_int d) 0) as [_|Hn]; [destruct (d_sign d); reflexivity|].
    assert (Hsolid : str_forall solid_char ("NaN" +:+ str_of_N (d_int d)) = true).
    { rewrite str_forall_app, str_of_N_solid. reflexivity. }
    cbn [float_converts].
    assert (str_forall is_ascii ((if d_sign d then "-" else EmptyString)
                                 +:+ "NaN" +:+ str_of_N (d_int d)) = true) as ->.
    { apply solid_ascii. destruct (d_sign d); [|exact Hsolid].
      change ("-" +:+ ?x) with (String "-" x). cbn [str_forall]. rewrite Hsolid. reflexivity. }
    cbn [negb].
    rewrite (float_syntax_letters (d_sign d) "aN" (str_of_N (d_int d)) "N");
      [|exact Hsolid|reflexivity..].
    pose proof (str_of_N_nonempty (d_int d)) as Hne.
    destruct (str_of_N (d_int d)) as [|x r]; [congruence|]. reflexivity.
  - unfold format_4f. rewrite Hsp.
    set (payload := if (d_int d =? 0)%N then EmptyString else str_of_N (d_int d)).
    assert (Hpay : str_forall solid_char payload = true).
    { subst payload. destruct (d_int d =? 0)%N; [reflexivity|apply str_of_N_solid]. }
    assert (Hsolid : str_forall solid_char ("sNaN" +:+ payload) = true).
    { rewrite str_forall_app, Hpay. reflexivity. }
    cbn [float_converts].
    assert (str_forall is_ascii ((if d_sign d then "-" else EmptyString)
                                 +:+ "sNaN" +:+ payload) = true) as ->.
    { apply solid_ascii. destruct (d_sign d); [|exact Hsolid].
      change ("-" +:+ ?x) with (String "-" x). cbn [str_forall]. rewrite Hsolid. reflexivity. }
    cbn [negb].
    rewrite (float_syntax_letters (d_sign d) "NaN" payload "s");
      [|exact Hsolid|reflexivity..].
    reflexivity.
Qed.

Lemma str_remove_ascii c s :
  is_ascii c = true -> str_forall is_ascii (str_remove c s) = true -> str_forall is_ascii s = true.
Proof.
  intros Hc. induction s as [|a s IH]; [reflexivity|]. cbn [str_remove str_forall].
  destruct (Ascii.eqb_spec a c) as [->|Hne].
  - intros H. rewrite Hc. cbn [andb]. auto.
  - cbn [str_forall]. intros [Ha Hs]%andb_true_iff. rewrite Ha. cbn [andb]. auto.
Qed.

Lemma substring_forall p n : forall m s,
  str_forall p s = true -> str_forall p (String.substring n m s) = true.
Proof.
  induction n as [|n IH]; intros m s H.
  - revert s H. induction m as [|m IHm]; intros s H; destruct s as [|a s]; try reflexivity.
    cbn [str_forall String.substring] in *. apply andb_true_iff in H as [Ha Hs].
    rewrite Ha. cbn [andb]. auto.
  - destruct s as [|a s]; [reflexivity|]. cbn [String.substring str_forall] in *.
    apply andb_true_iff in H as [_ Hs]. auto.
Qed.

Lemma lookup_key_ascii sym key :
  lookup_key sym = Val key -> str_forall is_ascii sym = true.
Proof.
  unfold lookup_key, upper.
  destruct (str_forall is_ascii (str_remove "-" sym)) eqn:H; [|discriminate].
  intros _. exact (str_remove_ascii "-" sym eq_refl H).
Qed.

Lemma lookup_key_bind {B : Type} sym key (f : pykey -> M B) self :
  lookup_key sym = Val key -> (lift (lookup_key sym) ≫= f) self = f key self.
Proof. intros H. rewrite lift_bind, H. reflexivity. Qed.

Lemma bind_returns {A B : Type} (m : M A) (f : A -> M B) self a self' :
  m self = Returns a self' -> (m ≫= f) self = f a self'.
Proof. intros H. unfold mbind, M_bind. rewrite H. reflexivity. Qed.

(** X11.  As long as the store holds nothing under the key of the current
    symbol, the timers and the display methods do nothing at all: they
    return with the instance as it was, nothing drawn and nothing
    written. *)
Theorem nothing_is_shown_without_a_snapshot self key :
  lookup_key (current_symbol self) = Val key ->
  data self !! key = None ->
  Matrix.run_ticker self = Returns tt self /\
  Console.run_ticker self = Returns tt self /\
  Console.update_console self = Returns tt self /\
  Console.update_ui self = Returns tt self.
Proof.
  intros Hkey Hnone.
  assert (Hc : Console.update_console self = Returns tt self).
  { unfold Console.update_console. rewrite get_bind, (lookup_key_bind _ _ _ _ Hkey), Hnone.
    reflexivity. }
  repeat split.
  - unfold Matrix.run_ticker, Matrix.render_ticker_canvas.
    rewrite get_bind, (lookup_key_bind _ _ _ _ Hkey), get_bind, Hnone. reflexivity.
  - unfold Console.run_ticker. rewrite get_bind. destruct (use_ui self); [reflexivity|exact Hc].
  - exact Hc.
  - unfold Console.update_ui. rewrite get_bind, (lookup_key_bind _ _ _ _ Hkey), Hnone.
    reflexivity.
Qed.

Lemma nothing_is_shown_without_a_snapshot_example :
  Matrix.run_ticker example_socket = Returns tt example_socket /\
  Console.run_ticker example_socket = Returns tt example_socket /\
  Console.update_console example_socket = Returns tt example_socket /\
  Console.update_ui example_socket = Returns tt example_socket.
Proof.
  apply (nothing_is_shown_without_a_snapshot example_socket (KStr "BTCUSDT")); reflexivity.
Defined.

Lemma only_presents_refl s : only_presents s s.
Proof. repeat split. Qed.

Lemma only_presents_trans a b c : only_presents a b -> only_presents b c -> only_presents a c.
Proof. intros (?&?&?&?&?&?) (?&?&?&?&?&?). repeat split; congruence. Qed.

Lemma only_writes_output_refl s : only_writes_output s s.
Proof. repeat split. Qed.

Lemma only_writes_output_trans a b c :
  only_writes_output a b -> only_writes_output b c -> only_writes_output a c.
Proof.
  intros [H1 ?] [H2 ?]. split; [eapply only_presents_trans; eassumption|congruence].
Qed.

(** X12.  The display methods never write the store, the rotation or the
    configuration, whether they return or raise: [run_ticker] of the
    LED-matrix program changes the counter and draws, and the methods of
    the console program change nothing but the output. *)
Theorem presentation_never_writes_the_store :
  preserves only_presents Matrix.run_ticker /\
  preserves only_writes_output Console.run_ticker /\
  preserves only_writes_output Console.update_console /\
  preserves only_writes_output Console.update_ui.
Proof.
  split; [|split; [|split]].
  - pose proof only_presents_refl; pose proof only_presents_trans.
    unfold Matrix.run_ticker, Matrix.render_ticker_canvas, Matrix.get_volume_text.
    preserves_with ltac:(intros; repeat split).
  - pose proof only_writes_output_refl; pose proof only_writes_output_trans.
    unfold Console.run_ticker, Console.update_console, Console.clear_console.
    preserves_with ltac:(intros; repeat split).
  - pose proof only_writes_output_refl; pose proof only_writes_output_trans.
    unfold Console.update_console, Console.clear_console.
    preserves_with ltac:(intros; repeat split).
  - pose proof only_writes_output_refl; pose proof only_writes_output_trans.
    unfold Console.update_ui.
    preserves_with ltac:(intros; repeat split).
Qed.



(** X14.  In the LED-matrix program, once a ticker frame for the current
    symbol is stored, with a change and a price [float] accepts and
    volumes that are plain numerals, the next [run_ticker] returns.  It
    creates the canvas unless there is one, clears it, draws that snapshot
    once, under the first three characters of the configured symbol in
    upper case and with the volume chosen by the counter, and moves the
    counter on.  ([stored_change_converts] says which changes [float]
    accepts.) *)
Theorem matrix_draws_the_frame_of_the_current_symbol msg members snap k self :
  json_loads msg = Val (JObject members) ->
  dict_get "id" members = None ->
  snapshot_of members snap ->
  symbol snap = JString k ->
  float_converts (JString (change snap)) = Val tt ->
  float_converts (price snap) = Val tt ->
  millify_accepts (vol snap) = Val tt -> millify_accepts (quote snap) = Val tt ->
  lookup_key (current_symbol self) = Val (KStr k) ->
  (refresh self <= 2 ^ 53)%Z ->
  exists self',
    (handle_message msg;; Matrix.run_ticker) self = Returns tt self' /\
    data self' = <[KStr k := snap]> (data self) /\
    canvas self' = true /\
    effects self' =
      (effects self ++
       (if canvas self then [] else [CreateFrameCanvas]) ++
       [CanvasClear;
        Draw (str_map upper_char (String.substring 0 3 (current_symbol self))) snap
             (if (refresh self <=? 2 * ctr self)%Z then ("B:", vol snap)
              else ("Q:", quote snap))])%list /\
    ctr self' = (if (ctr self =? refresh self)%Z then 1 else ctr self + 1)%Z.
Proof.
  intros Hloads Hid Hsnap Hsym Hchange Hprice Hv Hq Hkey Hrate.
  assert (Hrun : handle_message msg self
                 = Returns tt (set_data (<[KStr k := snap]> (data self)) self)).
  { apply handle_message_ticker with members; try assumption. rewrite Hsym. reflexivity. }
  set (s1 := set_data (<[KStr k := snap]> (data self)) self) in *.
  rewrite (bind_returns _ _ _ _ _ Hrun).
  unfold Matrix.run_ticker, Matrix.render_ticker_canvas. rewrite get_bind.
  change (current_symbol s1) with (current_symbol self).
  rewrite (lookup_key_bind _ _ _ _ Hkey), get_bind.
  change (data s1) with (<[KStr k := snap]> (data self)). rewrite lookup_insert_eq.
  change (canvas s1) with (canvas self).
  set (s2 := emit CanvasClear
               (if canvas self then s1 else set_canvas true (emit CreateFrameCanvas s1))).
  assert (Hprep : (if negb (canvas self)
                   then modify (emit CreateFrameCanvas);; modify (set_canvas true)
                   else mret tt) s1
                  = Returns tt (if canvas self then s1
                                else set_canvas true (emit CreateFrameCanvas s1))).
  { destruct (canvas self); reflexivity. }
  assert (Hfields : refresh s2 = refresh self /\ ctr s2 = ctr self /\ canvas s2 = true /\
                    data s2 = <[KStr k := snap]> (data self) /\
                    effects s2 = (effects self ++ (if canvas self then [] else [CreateFrameCanvas])
                                  ++ [CanvasClear])%list).
  { subst s2 s1. destruct (canvas self) eqn:Hcv; fields; rewrite <- ?app_assoc; auto. }
  destruct Hfields as (Hr2 & Hc2 & Hcv2 & Hd2 & He2).
  rewrite (bind_returns _ _ _ _ _ Hprep), modify_bind. fold s2.
  rewrite lift_bind, Hchange, lift_bind, Hprice.
  rewrite (bind_returns _ _ _ _ _ (get_volume_text_returns snap s2 ltac:(rewrite Hr2; exact Hrate)
             ltac:(rewrite Hr2, Hc2; destruct (_ <=? _)%Z; assumption))).
  rewrite lift_bind. unfold upper.
  rewrite (substring_forall is_ascii 0 3 _ (lookup_key_ascii _ _ Hkey)).
  unfold modify. eexists. split; [reflexivity|]. fields.
  rewrite Hr2, Hc2, Hd2, Hcv2, He2, <- !app_assoc. repeat split.
Qed.

Lemma matrix_draws_the_frame_of_the_current_symbol_example :
  exists self',
    (handle_message ticker_frame;; Matrix.run_ticker) example_socket = Returns tt self' /\
    data self' = <[KStr "BTCUSDT" := btc_snapshot]> (data example_socket) /\
    canvas self' = true /\
    effects self' =
      (effects example_socket ++
       (if canvas example_socket then [] else [CreateFrameCanvas]) ++
       [CanvasClear;
        Draw (str_map upper_char (String.substring 0 3 (current_symbol example_socket)))
             btc_snapshot
             (if (refresh example_socket <=? 2 * ctr example_socket)%Z
              then ("B:", vol btc_snapshot) else ("Q:", quote btc_snapshot))])%list /\
    ctr self' = (if (ctr example_socket =? refresh example_socket)%Z
                 then 1 else ctr example_socket + 1)%Z.
Proof.
  apply (matrix_draws_the_frame_of_the_current_symbol ticker_frame
           [("s", JString "BTCUSDT"); ("c", JString "50000.00"); ("P", JString "1.2345");
            ("v", JString "10"); ("q", JString "500000")] btc_snapshot "BTCUSDT"
           example_socket).
  - vm_compute. reflexivity.
  - reflexivity.
  - exists (JString "1.2345"), {| d_sign := false; d_int := 12345; d_exp := -4; d_special := DFinite |}.
    repeat split; vm_compute; reflexivity.
  - reflexivity.
  - reflexivity.
  - reflexivity.
  - reflexivity.
  - reflexivity.
  - reflexivity.
  - vm_compute. discriminate.
Defined.

(** A signaling NaN passes [handle_message] and stops the next
    [run_ticker], after the canvas was created and cleared. *)
Example signaling_nan_is_stored_and_refused :
  exists self',
    handle_message snan_frame example_socket = Returns tt self' /\
    change <$> (data self' !! KStr "BTCUSDT") = Some "sNaN" /\
    Matrix.run_ticker self'
    = Raises ValueError (emit CanvasClear (set_canvas true (emit CreateFrameCanvas self'))).
Proof. eexists. split; [vm_compute; reflexivity|]. split; vm_compute; reflexivity. Qed.

Example first_draw_of_the_example :
  exists self',
    (handle_message ticker_frame;; Matrix.run_ticker) example_socket = Returns tt self' /\
    effects self' = [CreateFrameCanvas; CanvasClear; Draw "BTC" btc_snapshot ("Q:", JString "500000")] /\
    ctr self' = 1%Z.
Proof. eexists. split; [vm_compute; reflexivity|]. split; reflexivity. Qed.

(** ** Sessions *)

Lemma count_effects_app p t1 t2 :
  count_effects p (t1 ++ t2) = count_effects p t1 + count_effects p t2.
Proof. unfold count_effects. rewrite List.filter_app, length_app. reflexivity. Qed.

Lemma count_effects_none p q t :
  (forall e, q e = true -> p e = false) -> forallb q t = true -> count_effects p t = 0.
Proof.
  intros Hpq. induction t as [|e t IH]; [reflexivity|]. cbn [forallb].
  intros [He Ht]%andb_true_iff. unfold count_effects in *. cbn [List.filter].
  rewrite (Hpq e He). auto.
Qed.

Lemma silent_no_connect e : silent e = true -> is_connect e = false.
Proof. destruct e; simpl; congruence. Qed.

Lemma silent_no_sleep e : silent e = true -> is_sleep e = false.
Proof. destruct e; simpl; congruence. Qed.

Lemma attempt_closes body s self :
  (forall m, preserves extends (body m)) ->
  closes_normally body s ->
  exists self', attempt_with body s self = Returns tt self' /\ extends self self'.
Proof.
  intros Hbody (Hc & Hs & Hf & Hcl).
  assert (exists self', attempt_with body s self = Returns tt self') as [self' Hrun].
  { unfold attempt_with. rewrite Hc, Hs, Hcl. cbn [raise_if].
    rewrite ret_bind, get_bind, modify_bind, modify_bind, ret_bind.
    destruct (for_each_runs _ _ Hf
                (emit (Send (get_pairs_payload self))
                   (emit (LogInfo ("Subscribing with payload: " +:+ get_pairs_payload self))
                      self)))
      as [s1 H1].
    exists s1. unfold mbind at 1, M_bind at 1. rewrite H1. reflexivity. }
  exists self'. split; [exact Hrun|].
  pose proof (attempt_silent body Hbody s self) as H. rewrite Hrun in H. exact H.
Qed.

Lemma dropped_failed body s e : dropped body s e -> failed s = true.
Proof.
  unfold failed. intros [-> | [(-> & ->) | (-> & -> & _ & ->)]]; [|reflexivity..].
  destruct (send_error s), (close s); reflexivity.
Qed.

Lemma closes_not_failed body s : closes_normally body s -> failed s = false.
Proof. unfold failed. intros (-> & -> & _ & ->). reflexivity. Qed.

Lemma matrix_fetch_reconnects script : forall self,
  Forall (fun s => closes_normally handle_message s \/
                   exists e, retried e = true /\ dropped handle_message s e) script ->
  exists self' t,
    Matrix.fetch_ticker_data script self = Returns AwaitingConnection self' /\
    effects self' = (effects self ++ t)%list /\
    count_effects is_connect t = S (length script) /\
    count_effects is_sleep t = length (List.filter failed script).
Proof.
  induction script as [|s script IH]; intros self Hall.
  - exists (emit (Connect (url_of self)) self), [Connect (url_of self)].
    repeat split.
  - apply Forall_cons in Hall as [Hs Hall].
    cbn [Matrix.fetch_ticker_data]. rewrite get_bind, modify_bind.
    set (s0 := emit (Connect (url_of self)) self).
    destruct Hs as [Hclose|(e & He & Hd)].
    + destruct (attempt_closes _ s s0 handle_message_silent Hclose)
        as (s1 & Hrun & t1 & Ht1 & Hs1).
      destruct (IH s1 Hall) as (self' & t & Hfetch & Ht & Hconn & Hsleep).
      exists self', (Connect (url_of self) :: t1 ++ t)%list.
      split; [|split; [|split]].
      * unfold mbind at 1, M_bind at 1, try_except. rewrite matrix_attempt, Hrun.
        exact Hfetch.
      * rewrite Ht, Ht1. subst s0. fields. rewrite <- !app_assoc. reflexivity.
      * change (Connect (url_of self) :: t1 ++ t)%list
          with ([Connect (url_of self)] ++ t1 ++ t)%list.
        rewrite !count_effects_app, Hconn.
        rewrite (count_effects_none is_connect silent t1 silent_no_connect Hs1).
        reflexivity.
      * change (Connect (url_of self) :: t1 ++ t)%list
          with ([Connect (url_of self)] ++ t1 ++ t)%list.
        rewrite !count_effects_app, Hsleep.
        rewrite (count_effects_none is_sleep silent t1 silent_no_sleep Hs1).
        cbn [List.filter]. rewrite (closes_not_failed _ _ Hclose). reflexivity.
    + destruct (attempt_dropped _ handle_message_silent s e s0 Hd)
        as (s1 & Hrun & t1 & Ht1 & Hs1).
      set (s2 := emit (Sleep 5) (emit (retry_log e) s1)).
      destruct (IH s2 Hall) as (self' & t & Hfetch & Ht & Hconn & Hsleep).
      exists self', (Connect (url_of self) :: t1 ++ retry_log e :: Sleep 5 :: t)%list.
      split; [|split; [|split]].
      * unfold mbind at 1, M_bind at 1, try_except. rewrite matrix_attempt, Hrun.
        destruct e; try discriminate He; exact Hfetch.
      * rewrite Ht. subst s2 s0. fields. rewrite Ht1. fields.
        rewrite <- !app_assoc. reflexivity.
      * change (Connect (url_of self) :: t1 ++ retry_log e :: Sleep 5 :: t)%list
          with ([Connect (url_of self)] ++ t1 ++ [retry_log e; Sleep 5] ++ t)%list.
        rewrite !count_effects_app, Hconn.
        rewrite (count_effects_none is_connect silent t1 silent_no_connect Hs1).
        reflexivity.
      * change (Connect (url_of self) :: t1 ++ retry_log e :: Sleep 5 :: t)%list
          with ([Connect (url_of self)] ++ t1 ++ [retry_log e; Sleep 5] ++ t)%list.
        rewrite !count_effects_app, Hsleep.
        rewrite (count_effects_none is_sleep silent t1 silent_no_sleep Hs1).
        cbn [List.filter]. rewrite (dropped_failed _ _ _ Hd). reflexivity.
Qed.

(** X15.  In the LED-matrix program, over sessions that each end either
    by a normal closure or with [ConnectionClosed] or [TimeoutError],
    [run] is still in its loop: it has connected once per session and
    once more, and has paused once per failed session.  After a normal
    closure it reconnects at once, without a pause. *)
Theorem matrix_reconnects_at_once_after_a_normal_closure script self :
  Forall (fun s => closes_normally handle_message s \/
                   exists e, retried e = true /\ dropped handle_message s e) script ->
  exists self' t,
    Matrix.run script self = (Running, self') /\
    effects self' = (effects self ++ t)%list /\
    count_effects is_connect t = S (length script) /\
    count_effects is_sleep t = length (List.filter failed script).
Proof.
  intros Hall.
  destruct (matrix_fetch_reconnects script self Hall) as (self' & t & Hfetch & Ht).
  exists self', t. unfold Matrix.run. rewrite Hfetch. auto.
Qed.

Lemma matrix_reconnects_at_once_after_a_normal_closure_example :
  exists self' t,
    Matrix.run [one_session [ticker_frame] None; refused TimeoutError;
                one_session [ack_frame] None] example_socket = (Running, self') /\
    effects self' = (effects example_socket ++ t)%list /\
    count_effects is_connect t = 4 /\
    count_effects is_sleep t = 1.
Proof.
  apply (matrix_reconnects_at_once_after_a_normal_closure
           [one_session [ticker_frame] None; refused TimeoutError; one_session [ack_frame] None]
           example_socket).
  constructor; [|constructor; [|constructor; [|constructor]]].
  - left. repeat split. constructor; [|constructor].
    intros self. eexists. apply ticker_frame_stored.
  - right. exists TimeoutError. split; [reflexivity|]. left. reflexivity.
  - left. repeat split. constructor; [|constructor].
    intros self. exists self. reflexivity.
Defined.

Lemma matrix_fetch_stops s rest e self :
  retried e = false -> dropped handle_message s e ->
  exists self' mid,
    Matrix.fetch_ticker_data (s :: rest) self = Raises e self' /\
    effects self' = (effects self ++ Connect (url_of self) :: mid)%list /\
    forallb silent mid = true.
Proof.
  intros He Hd.
  cbn [Matrix.fetch_ticker_data]. rewrite get_bind, modify_bind.
  set (s0 := emit (Connect (url_of self)) self).
  destruct (attempt_dropped _ handle_message_silent s e s0 Hd) as (s1 & Hrun & t1 & Ht1 & Hs1).
  exists s1, t1. split; [|split; [|exact Hs1]].
  - unfold mbind at 1, M_bind at 1, try_except. rewrite matrix_attempt, Hrun.
    destruct e; try discriminate He; reflexivity.
  - rewrite Ht1. subst s0. fields. rewrite <- !app_assoc. reflexivity.
Qed.

(** X16.  In the LED-matrix program a session that fails with anything
    but [ConnectionClosed] or [TimeoutError] ends [run]: the exception is
    not logged by [fetch_ticker_data], there is no pause and no second
    connection, and the sessions that would follow are never met.  [run]
    is left by the exception, except that a keyboard interrupt is logged
    as a shutdown and [run] returns. *)
Theorem matrix_run_ends_on_any_other_exception s rest e self :
  retried e = false -> dropped handle_message s e ->
  exists self' mid,
    Matrix.run (s :: rest) self = (ending e, self') /\
    effects self' = (effects self ++ Connect (url_of self) :: mid ++ farewell e)%list /\
    forallb silent mid = true.
Proof.
  intros He Hd.
  destruct (matrix_fetch_stops s rest e self He Hd) as (s1 & mid & Hfetch & Ht & Hmid).
  unfold Matrix.run. rewrite Hfetch.
  destruct e; try discriminate He;
    (eexists _, mid; split; [reflexivity|]; split; [|exact Hmid]; fields; rewrite Ht;
     cbn [farewell]; rewrite <- ?app_assoc, ?app_nil_r; reflexivity).
Qed.

Lemma matrix_run_ends_on_any_other_exception_example :
  (exists self' mid,
      Matrix.run [refused InvalidURI; one_session [ticker_frame] None] example_socket
      = (Traceback InvalidURI, self') /\
      effects self' =
        (effects example_socket ++ Connect (url_of example_socket) :: mid ++ [])%list /\
      forallb silent mid = true) /\
  (exists self' mid,
      Matrix.run [one_session [ack_frame] (Some KeyboardInterrupt)] example_socket
      = (Returned, self') /\
      effects self' =
        (effects example_socket ++ Connect (url_of example_socket) :: mid
           ++ [LogInfo "Shutting down..."])%list /\
      forallb silent mid = true).
Proof.
  split.
  - apply (matrix_run_ends_on_any_other_exception (refused InvalidURI)
             [one_session [ticker_frame] None] InvalidURI example_socket).
    + reflexivity.
    + left. reflexivity.
  - apply (matrix_run_ends_on_any_other_exception
             (one_session [ack_frame] (Some KeyboardInterrupt)) [] KeyboardInterrupt
             example_socket).
    + reflexivity.
    + right; right. repeat split. constructor; [|constructor].
      intros self. exists self. reflexivity.
Defined.

Section Extends.
Variable p : effect -> bool.

Lemma extends_with_refl s : extends_with p s s.
Proof. exists []. split; [symmetry; apply app_nil_r|reflexivity]. Qed.

Lemma extends_with_trans a b c : extends_with p a b -> extends_with p b c -> extends_with p a c.
Proof.
  intros (t1 & H1 & S1) (t2 & H2 & S2). exists (t1 ++ t2)%list.
  split; [rewrite H2, H1, app_assoc; reflexivity|].
  rewrite forallb_app, S1, S2. reflexivity.
Qed.

Lemma extends_with_emit e s : p e = true -> extends_with p s (emit e s).
Proof. intros H. exists [e]. split; [reflexivity|]. cbn. rewrite H. reflexivity. Qed.

Lemma extends_with_fields f s : effects (f s) = effects s -> extends_with p s (f s).
Proof. intros H. exists []. split; [rewrite H; symmetry; apply app_nil_r|reflexivity]. Qed.
End Extends.

Ltac extends_with_frame p :=
  pose proof (extends_with_refl p); pose proof (extends_with_trans p);
  preserves_using ltac:(intros; first [apply extends_with_emit; reflexivity
                                      | apply extends_with_fields; reflexivity]).

Lemma console_session_quiet s :
  preserves (extends_with neither_connects_nor_pauses)
    (try_except (Console.attempt s)
       (fun e =>
          match e with
          | ConnectionClosed | TimeoutError | InvalidURI | OSError =>
              Some (modify (emit (LogError "WebSocket connection error: " e
                                    ". Unable to connect. Exiting..."));;
                    raise (SystemExit 1))
          | _ => None
          end);;
     mret Done).
Proof.
  unfold Console.attempt, Console.receive, handle_message, data_setitem,
    Console.update_ui, Console.update_console, Console.clear_console.
  extends_with_frame neither_connects_nor_pauses.
Qed.

(** X17.  The console program connects once and never pauses, whatever
    the sessions hold and however its run ends: unless the run leaves the
    model, the first thing it does is the connection for the current
    symbol, and nothing after it is a connection or a pause. *)
Theorem console_connects_once_and_never_pauses script self :
  fst (Console.run script self) = OutOfModel \/
  exists t,
    effects (snd (Console.run script self)) = (effects self ++ Connect (url_of self) :: t)%list /\
    forallb neither_connects_nor_pauses t = true.
Proof.
  unfold Console.run, Console.fetch_ticker_data. rewrite get_bind, modify_bind.
  destruct script as [|s rest].
  { right. exists []. split; reflexivity. }
  pose proof (console_session_quiet s (emit (Connect (url_of self)) self)) as H.
  match type of H with match ?r with _ => _ end => destruct r as [[] s1|e s1|] end;
    [| | |left; reflexivity];
    destruct H as (t & Ht & Hq); right;
    cbn [effects emit] in Ht; rewrite <- app_assoc in Ht; cbn [app] in Ht.
  - exists t. split; [exact Ht|exact Hq].
  - exists (t ++ window_closed s1)%list. unfold Console.destroy_window, window_closed. cbn [snd].
    destruct (use_ui s1); fields; rewrite Ht; rewrite <- ?app_assoc, ?app_nil_r;
      (split; [reflexivity|]); rewrite ?forallb_app, ?Hq; reflexivity.
  - exists (t ++ farewell e ++ window_closed s1)%list.
    unfold Console.destroy_window, window_closed.
    destruct e; cbn [snd farewell]; fields;
      destruct (use_ui s1); fields; rewrite Ht; rewrite <- ?app_assoc, ?app_nil_r;
      (split; [reflexivity|]); rewrite ?forallb_app, ?Hq; reflexivity.
Qed.

(** X18.  The console program ends with its only session.  When the
    session ends by a normal closure, every frame having been handled and
    shown, [run] returns; when it ends with an exception that is not one
    of the four connection errors, [run] is left by that exception
    without a log line of [fetch_ticker_data], a keyboard interrupt being
    logged as a shutdown.  In both cases the window, if there is one, is
    destroyed last, and the sessions that would follow are never met. *)
Theorem console_run_ends_with_its_session s rest self e :
  session_ends Console.receive s self e ->
  (forall x, e = Some x -> fatal x = false) ->
  exists self' mid,
    Console.run (s :: rest) self = (ending_of e, self') /\
    effects self' =
      (effects self ++ Connect (url_of self) :: mid ++ farewell_of e
         ++ window_closed self')%list /\
    forallb silent mid = true.
Proof.
  intros Hends Hfatal.
  destruct (console_attempt_ends s self e Hends) as (s1 & mid & Hrun & Ht & Hmid).
  unfold Console.run, Console.fetch_ticker_data. rewrite get_bind, modify_bind.
  unfold mbind at 1, M_bind at 1, try_except. rewrite Hrun.
  unfold Console.destroy_window, window_closed.
  destruct e as [x|]; cbn [ending_of farewell_of].
  - specialize (Hfatal x eq_refl).
    destruct x; try discriminate Hfatal; cbn [ending farewell]; fields;
      destruct (use_ui s1) eqn:Hui;
      (eexists _, mid; split; [reflexivity|]; split; [|exact Hmid]);
      fields; rewrite ?Hui, Ht, <- ?app_assoc, ?app_nil_r; reflexivity.
  - cbn [mret M_ret]. fields. destruct (use_ui s1) eqn:Hui;
      (eexists _, mid; split; [reflexivity|]; split; [|exact Hmid]);
      fields; rewrite ?Hui, Ht, <- ?app_assoc, ?app_nil_r; reflexivity.
Qed.

Lemma console_run_ends_with_its_session_example :
  (exists self' mid,
      Console.run [one_session [ack_frame; ticker_frame] None; refused OSError] example_socket
      = (Returned, self') /\
      effects self' =
        (effects example_socket ++ Connect (url_of example_socket) :: mid ++ []
           ++ window_closed self')%list /\
      forallb silent mid = true) /\
  (exists self' mid,
      Console.run [one_session [ticker_frame] (Some KeyboardInterrupt)] example_socket
      = (Returned, self') /\
      effects self' =
        (effects example_socket ++ Connect (url_of example_socket) :: mid
           ++ [LogInfo "Shutting down..."] ++ window_closed self')%list /\
      forallb silent mid = true).
Proof.
  split.
  - apply (console_run_ends_with_its_session
             (one_session [ack_frame; ticker_frame] None) [refused OSError] example_socket None).
    + right; right. repeat split. eexists. vm_compute. reflexivity.
    + discriminate.
  - apply (console_run_ends_with_its_session
             (one_session [ticker_frame] (Some KeyboardInterrupt)) [] example_socket
             (Some KeyboardInterrupt)).
    + right; right. repeat split. eexists. vm_compute. reflexivity.
    + intros x [= <-]. reflexivity.
Defined.

(** *** What goes out on the socket *)

Lemma never_sends_refl s : never_sends s s.
Proof. split; [reflexivity|apply extends_with_refl]. Qed.

Lemma never_sends_trans a b c : never_sends a b -> never_sends b c -> never_sends a c.
Proof.
  intros [H1 E1] [H2 E2]. split; [congruence|eapply extends_with_trans; eassumption].
Qed.

Ltac never_sends_frame :=
  pose proof never_sends_refl; pose proof never_sends_trans;
  preserves_using ltac:(intros; split; [reflexivity|];
                        first [apply extends_with_emit; reflexivity
                              | apply extends_with_fields; reflexivity]).

Lemma handle_message_never_sends msg : preserves never_sends (handle_message msg).
Proof. unfold handle_message, data_setitem. never_sends_frame. Qed.

Lemma console_receive_never_sends msg : preserves never_sends (Console.receive msg).
Proof.
  unfold Console.receive, handle_message, data_setitem, Console.update_ui,
    Console.update_console, Console.clear_console.
  never_sends_frame.
Qed.

Lemma subscribes_only_refl s : subscribes_only s s.
Proof. split; [reflexivity|apply extends_with_refl]. Qed.

Lemma subscribes_only_trans a b c :
  subscribes_only a b -> subscribes_only b c -> subscribes_only a c.
Proof.
  intros [H1 E1] [H2 E2]. split; [congruence|].
  eapply extends_with_trans; [exact E1|].
  unfold get_pairs_payload in *. rewrite H1 in E2. exact E2.
Qed.

Lemma never_sends_subscribes a b : never_sends a b -> subscribes_only a b.
Proof.
  intros [Hs (t & Ht & Hq)]. split; [exact Hs|]. exists t. split; [exact Ht|].
  clear Ht. induction t as [|e t IH]; [reflexivity|]. cbn [forallb] in *.
  apply andb_true_iff in Hq as [He Hq]. rewrite (IH Hq), andb_true_r.
  destruct e; try reflexivity; discriminate He.
Qed.

Lemma attempt_subscribes body s :
  (forall m, preserves never_sends (body m)) ->
  preserves subscribes_only (attempt_with body s).
Proof.
  intros Hbody self. unfold attempt_with.
  destruct (connect_error s) as [e|]; [apply subscribes_only_refl|].
  cbn [raise_if]. rewrite ret_bind, get_bind, modify_bind, modify_bind.
  set (s2 := emit (Send (get_pairs_payload self)) _).
  assert (Hs2 : subscribes_only self s2).
  { split; [reflexivity|].
    exists [LogInfo ("Subscribing with payload: " +:+ get_pairs_payload self);
            Send (get_pairs_payload self)].
    split; [subst s2; fields; rewrite <- app_assoc; reflexivity|].
    cbn [forallb sends_only]. rewrite String.eqb_refl. reflexivity. }
  assert (Hrest : preserves never_sends
                    (raise_if (send_error s);; for_each (frames s) body;; raise_if (close s))).
  { pose proof never_sends_refl; pose proof never_sends_trans.
    preserves_using ltac:(idtac). }
  specialize (Hrest s2).
  match goal with
  | |- match ?r with _ => _ end =>
      match type of Hrest with match ?r' with _ => _ end => change r with r' end
  end.
  match goal with |- match ?r with _ => _ end => destruct r as [? s3|? s3|] end; [| |exact I];
    (eapply subscribes_only_trans; [exact Hs2|apply never_sends_subscribes, Hrest]).
Qed.

Lemma subscribes_only_emit e s : is_send e = false -> subscribes_only s (emit e s).
Proof.
  intros H. split; [reflexivity|]. apply extends_with_emit.
  destruct e; try reflexivity; discriminate H.
Qed.

Lemma matrix_fetch_subscribes script :
  preserves subscribes_only (Matrix.fetch_ticker_data script).
Proof.
  pose proof subscribes_only_refl; pose proof subscribes_only_trans.
  pose proof (fun s => attempt_subscribes handle_message s handle_message_never_sends) as Ha.
  induction script as [|s script IH]; cbn [Matrix.fetch_ticker_data].
  - preserves_using ltac:(intros; apply subscribes_only_emit; reflexivity).
  - specialize (Ha s). rewrite <- matrix_attempt in Ha.
    preserves_using ltac:(intros; apply subscribes_only_emit; reflexivity).
Qed.

Lemma console_fetch_subscribes script :
  preserves subscribes_only (Console.fetch_ticker_data script).
Proof.
  pose proof subscribes_only_refl; pose proof subscribes_only_trans.
  pose proof (fun s => attempt_subscribes Console.receive s console_receive_never_sends) as Ha.
  unfold Console.fetch_ticker_data. destruct script as [|s script].
  - preserves_using ltac:(intros; apply subscribes_only_emit; reflexivity).
  - specialize (Ha s). rewrite <- console_attempt in Ha.
    preserves_using ltac:(intros; apply subscribes_only_emit; reflexivity).
Qed.

(** X19.  Neither program ever sends anything but the subscription:
    unless the run leaves the model, every message sent during [run] is
    the payload [get_pairs_payload] gives for the symbols the run started
    with, and the symbol list is the same at the end.  Handling a frame
    and showing it send nothing. *)
Theorem nothing_but_the_subscription_is_sent script self :
  (fst (Matrix.run script self) = OutOfModel \/
   subscribes_only self (snd (Matrix.run script self))) /\
  (fst (Console.run script self) = OutOfModel \/
   subscribes_only self (snd (Console.run script self))).
Proof.
  split.
  - unfold Matrix.run. pose proof (matrix_fetch_subscribes script self) as H.
    destruct (Matrix.fetch_ticker_data script self) as [? s1|e s1|]; [| |left; reflexivity];
      right; [exact H|].
    destruct e; cbn [snd]; try exact H.
    eapply subscribes_only_trans; [exact H|apply subscribes_only_emit; reflexivity].
  - unfold Console.run. pose proof (console_fetch_subscribes script self) as H.
    assert (Hw : forall s, subscribes_only s (Console.destroy_window s)).
    { intros s. unfold Console.destroy_window.
      destruct (use_ui s); [apply subscribes_only_emit; reflexivity|apply subscribes_only_refl]. }
    destruct (Console.fetch_ticker_data script self) as [[] s1|e s1|]; [| | |left; reflexivity];
      right; [exact H| |].
    + eapply subscribes_only_trans; [exact H|apply Hw].
    + destruct e; cbn [snd];
        try (eapply subscribes_only_trans; [exact H|apply Hw]).
      eapply subscribes_only_trans; [exact H|].
      eapply subscribes_only_trans; [|apply Hw]. apply subscribes_only_emit. reflexivity.
Qed.

(** ** The current symbol *)

Lemma toggle_symbol_logs self self' :
  toggle_symbol self = Returns tt self' ->
  effects self' = (effects self ++ [LogInfo ("Switched to symbol: " +:+ current_symbol self')])%list.
Proof.
  unfold toggle_symbol. rewrite get_bind, lift_bind.
  destruct (cycle_next (cycle_symbols self)) as [[next c]| |]; try discriminate.
  intros [= <-]. reflexivity.
Qed.

(** X20.  In every instance reached from [__init__] the current symbol is
    one of the configured symbols, so the stream named in the connection
    URL is one of the streams of the subscription.  [toggle_symbol]
    returns, moves to a configured symbol again, leaves the store alone
    and logs exactly one line, which names the new symbol. *)
Theorem current_symbol_is_always_a_configured_one SYMBOLS rate ui self0 self :
  init SYMBOLS rate ui = Val self0 ->
  reachable self0 self ->
  In (current_symbol self) (symbols self) /\
  url_of self = "wss://stream.binance.com:9443/ws/" +:+ stream (current_symbol self) /\
  In (stream (current_symbol self)) (map stream (symbols self)) /\
  exists self',
    toggle_symbol self = Returns tt self' /\
    In (current_symbol self') (symbols self) /\
    data self' = data self /\
    effects self' =
      (effects self ++ [LogInfo ("Switched to symbol: " +:+ current_symbol self')])%list.
Proof.
  intros Hinit Hreach.
  destruct (init_rotation _ _ _ _ Hinit) as (Hrot0 & _ & _).
  destruct (reachable_rotation _ _ _ Hreach Hrot0) as (j & Hrot & _).
  assert (Hin : In (current_symbol self) (symbols self)).
  { destruct Hrot as [Hcur _]. apply list_elem_of_In. eapply list_elem_of_lookup_2, Hcur. }
  split; [exact Hin|]. split; [reflexivity|]. split; [apply in_map, Hin|].
  destruct (toggle_symbol_at self j Hrot) as (self' & Htog & Hrot' & Hsym & Hdata & _).
  exists self'. split; [exact Htog|]. split; [|split; [exact Hdata|apply toggle_symbol_logs, Htog]].
  destruct Hrot' as [Hcur' _]. rewrite Hsym in Hcur'.
  apply list_elem_of_In. eapply list_elem_of_lookup_2, Hcur'.
Qed.

Lemma current_symbol_is_always_a_configured_one_example :
  In (current_symbol busy_socket) (symbols busy_socket) /\
  url_of busy_socket
  = "wss://stream.binance.com:9443/ws/" +:+ stream (current_symbol busy_socket) /\
  In (stream (current_symbol busy_socket)) (map stream (symbols busy_socket)) /\
  exists self',
    toggle_symbol busy_socket = Returns tt self' /\
    In (current_symbol self') (symbols busy_socket) /\
    data self' = data busy_socket /\
    effects self' =
      (effects busy_socket ++ [LogInfo ("Switched to symbol: " +:+ current_symbol self')])%list.
Proof.
  apply (current_symbol_is_always_a_configured_one "BTC-USDT,ETH-USDT" (Some 2%Z) false
           example_socket busy_socket).
  - reflexivity.
  - exact example_to_busy.
Defined.

(** ** Fields are stored as they come *)



Example null_price_stops_the_panel :
  exists self',
    handle_message null_price_frame example_socket = Returns tt self' /\
    exists stopped,
      Matrix.run_ticker self' = Raises TypeError stopped /\
      canvas stopped = true /\ effects stopped = [CreateFrameCanvas; CanvasClear] /\
      data stopped = data self' /\ ctr stopped = ctr self'.
Proof. eexists. split; [vm_compute; reflexivity|]. eexists. repeat split. Qed.

(** ** Sign and colour of the change *)

Lemma format_4f_sign d : Render.startswith_minus (format_4f d) = d_sign d.
Proof.
  destruct (d_special d) eqn:Hsp;
    [|unfold format_4f; rewrite Hsp; destruct (d_sign d); reflexivity..].
  destruct (format_4f_shape d Hsp) as (ip & fp & -> & Hne & Hip & _).
  destruct ip as [|i ip]; [congruence|].
  destruct (d_sign d); [reflexivity|].
  change (EmptyString +:+ String i ip +:+ "." +:+ fp) with (String i (ip +:+ "." +:+ fp)).
  cbn [Render.startswith_minus].
  cbn [str_forall] in Hip. apply andb_true_iff in Hip as [Hi _].
  destruct i as [[] [] [] [] [] [] [] []]; vm_compute in Hi |- *; congruence.
Qed.

(** X22.  The sign prefix and the colour of the change on the panel
    follow the sign of the inbound [P], not the sign of the rounded
    value: a negative [P], negative zero and a loss that rounds to zero
    included, is stored with its minus sign, so it gets no prefix and the
    red colour; every other [P] gets the prefix [+] and the green
    colour. *)
Theorem colour_and_prefix_follow_the_sign_of_the_inbound_change members snap P d :
  snapshot_of members snap ->
  dict_get "P" members = Some P -> Decimal P = Val d ->
  Render.prefix snap = (if d_sign d then EmptyString else "+") /\
  Render.change_color snap = (if d_sign d then (220, 47, 2)%Z else (0, 255, 0)%Z).
Proof.
  intros (P' & d' & HP' & Hd' & Hch & _) HP Hd.
  assert (P' = P) as -> by congruence. assert (d' = d) as -> by congruence.
  unfold Render.prefix, Render.change_color. rewrite Hch, format_4f_sign.
  split; reflexivity.
Qed.

Lemma colour_and_prefix_follow_the_sign_of_the_inbound_change_example :
  Render.prefix small_loss_snapshot = EmptyString /\
  Render.change_color small_loss_snapshot = (220, 47, 2)%Z.
Proof.
  apply (colour_and_prefix_follow_the_sign_of_the_inbound_change
           [("s", JString "BTCUSDT"); ("c", JString "50000.00"); ("P", JString "-0.00001");
            ("v", JString "10"); ("q", JString "500000")]
           small_loss_snapshot (JString "-0.00001")
           {| d_sign := true; d_int := 1; d_exp := -5; d_special := DFinite |}).
  - exists (JString "-0.00001"), {| d_sign := true; d_int := 1; d_exp := -5; d_special := DFinite |}.
    repeat split; vm_compute; reflexivity.
  - reflexivity.
  - vm_compute. reflexivity.
Defined.

Example a_loss_that_rounds_to_zero_is_red :
  exists self',
    handle_message small_loss_frame example_socket = Returns tt self' /\
    data self' !! KStr "BTCUSDT" = Some small_loss_snapshot.
Proof. eexists. split; vm_compute; reflexivity. Qed.
